(** * Availability sync: a shallow embedding of [server/lib/availabilitySync.ts]

    The engine walks over the catalog items that are recorded as available,
    asks Plex, Radarr and Sonarr whether each item (and each season of a show)
    still exists, and downgrades the recorded status when it does not.

    The embedding keeps the shape of the TypeScript class:
    - the external services are a record of probe functions whose answers are
      either resolved values or rejections carrying the error message;
    - the two per-run caches are finite maps threaded through the existence
      checks by a small state monad;
    - the entity handed to the updaters is an in-memory object (with its
      season objects addressed by reference), kept apart from the rows of the
      store, because [mediaRepository.update] writes a row without touching
      the object while [mediaRepository.save] writes the object over the row.

    Logging is left out.  The [async] calls are sequenced in program order.
    One call is not awaited in the code: [run] starts [mediaUpdater] and goes
    on, so that its writes land at some later moment, possibly after the next
    page of the query was fetched.  The model completes [mediaUpdater] at
    once.  For one item this is the state the code reaches when the write has
    landed; for a pass it is one of the orders the code can take, and the
    statements on passes below are about what does not depend on the moment
    the writes land: which items can be yielded, that the pass ends, which
    rows it leaves alone. *)

From Stdlib Require Import ZArith String Bool List.
From stdpp Require Import base option list gmap strings sorting.

Local Open Scope Z_scope.
Local Open Scope string_scope.

(** ** Constants *)

(** Modelled from the spec: the enumeration [MediaStatus] of
    [server/constants/media], which is not part of the sources at hand. *)
Module MediaStatus.
Inductive t : Set :=
| UNKNOWN | PENDING | PROCESSING | PARTIALLY_AVAILABLE | AVAILABLE.

#[global] Instance eq_dec : EqDecision t.
Proof. solve_decision. Defined.
End MediaStatus.

(** Modelled from the spec: the enumeration [MediaRequestStatus] of
    [server/constants/media]; [DECLINED] stands for the states the engine
    never looks at. *)
Module MediaRequestStatus.
Inductive t : Set := PENDING | APPROVED | DECLINED.

#[global] Instance eq_dec : EqDecision t.
Proof. solve_decision. Defined.
End MediaRequestStatus.

Inductive MediaType : Set := movie | tv.

#[global] Instance MediaType_eq_dec : EqDecision MediaType.
Proof. solve_decision. Defined.

(** [status === AVAILABLE || status === PARTIALLY_AVAILABLE], the test the
    source spells out at every use. *)
Definition availableOrPartial (s : MediaStatus.t) : bool :=
  bool_decide (s = MediaStatus.AVAILABLE)
  || bool_decide (s = MediaStatus.PARTIALLY_AVAILABLE).

(** ** Entities *)

Module Season.
Record t : Set := mk {
  seasonNumber : Z;
  status : MediaStatus.t;
  status4k : MediaStatus.t }.

Definition set_status (v : MediaStatus.t) (s : t) : t :=
  mk (seasonNumber s) v (status4k s).
Definition set_status4k (v : MediaStatus.t) (s : t) : t :=
  mk (seasonNumber s) (status s) v.
End Season.

Module Media.
(** [seasons] is the JavaScript array of the entity: it holds references
    to season objects (positions in the object store of the item), so that
    one season object can occur in it more than once. *)
Record t : Set := mk {
  id : Z;
  mediaType : MediaType;
  tmdbId : Z;
  status : MediaStatus.t;
  status4k : MediaStatus.t;
  serviceId : option Z;
  externalServiceId : option Z;
  externalServiceSlug : option string;
  ratingKey : option string;
  serviceId4k : option Z;
  externalServiceId4k : option Z;
  externalServiceSlug4k : option string;
  ratingKey4k : option string;
  seasons : list nat }.

Definition set_status (v : MediaStatus.t) (m : t) : t :=
  mk (id m) (mediaType m) (tmdbId m) v (status4k m)
     (serviceId m) (externalServiceId m) (externalServiceSlug m) (ratingKey m)
     (serviceId4k m) (externalServiceId4k m) (externalServiceSlug4k m)
     (ratingKey4k m) (seasons m).
Definition set_status4k (v : MediaStatus.t) (m : t) : t :=
  mk (id m) (mediaType m) (tmdbId m) (status m) v
     (serviceId m) (externalServiceId m) (externalServiceSlug m) (ratingKey m)
     (serviceId4k m) (externalServiceId4k m) (externalServiceSlug4k m)
     (ratingKey4k m) (seasons m).
Definition set_seasons (v : list nat) (m : t) : t :=
  mk (id m) (mediaType m) (tmdbId m) (status m) (status4k m)
     (serviceId m) (externalServiceId m) (externalServiceSlug m) (ratingKey m)
     (serviceId4k m) (externalServiceId4k m) (externalServiceSlug4k m)
     (ratingKey4k m) v.
End Media.

Module MediaRequest.
Record t : Set := mk {
  id : Z;
  media : Z;                      (* the id of the requested item *)
  is4k : bool;
  status : MediaRequestStatus.t }.
End MediaRequest.

Module SeasonRequest.
Record t : Set := mk {
  id : Z;
  request : Z;                    (* the id of the owning MediaRequest *)
  seasonNumber : Z }.
End SeasonRequest.

(** ** External services *)

(** The outcome of an awaited call: a value, or a thrown error with its
    [message]. *)
Inductive Response (A : Type) : Type :=
| Resolved (value : A)
| Rejected (message : string).
Arguments Resolved {A} value.
Arguments Rejected {A} message.

Module PlexMetadata.
Record t : Set := mk { index : Z }.
End PlexMetadata.

Module RadarrMovie.
Record t : Set := mk { hasFile : bool }.
End RadarrMovie.

Module SonarrSeason.
(** [statistics] is optional in the Sonarr payload; when present only its
    [episodeFileCount] is read. *)
Record t : Set := mk {
  seasonNumber : Z;
  statistics : option Z }.
End SonarrSeason.

Module SonarrSeries.
Record t : Set := mk {
  seasons : list SonarrSeason.t;
  episodeFileCount : Z }.         (* [statistics.episodeFileCount] *)
End SonarrSeries.

(** [RadarrSettings] and [SonarrSettings]: the fields the engine reads, and
    the [id] that tells the configured servers apart. *)
Module DVRSettings.
Record t : Set := mk {
  id : Z;
  is4k : bool;
  syncEnabled : bool }.
End DVRSettings.

Module PlexAPI.
Record t : Type := mk {
  getMetadata : string → Response PlexMetadata.t;
  getChildrenMetadata : string → Response (list PlexMetadata.t) }.
End PlexAPI.

(** What a run works with: the settings, the Plex client the engine holds
    during the pass, and the answers of the Radarr and Sonarr servers.
    [plexClient] is the field [this.plexClient] after lines 45-49 of [run]:
    the client made from the admin's token when [run] finds an admin,
    otherwise whatever an earlier run left in the field of the engine, which
    is a singleton; [None] stands for [undefined], the field of an engine no
    run of which found an admin. *)
Record Services : Type := {
  settings_radarr : list DVRSettings.t;
  settings_sonarr : list DVRSettings.t;
  plexClient : option PlexAPI.t;
  getMovie : DVRSettings.t → Z → Response RadarrMovie.t;
  getSeriesById : DVRSettings.t → Z → Response SonarrSeries.t }.

(** [settings.radarr.filter((server) => server.syncEnabled)] *)
Definition radarrServers (env : Services) : list DVRSettings.t :=
  List.filter DVRSettings.syncEnabled (settings_radarr env).
Definition sonarrServers (env : Services) : list DVRSettings.t :=
  List.filter DVRSettings.syncEnabled (settings_sonarr env).

(** ** JavaScript idioms *)

(** [s.includes(searchString)] *)
Fixpoint includes (searchString s : string) : bool :=
  String.prefix searchString s
  || match s with
     | EmptyString => false
     | String _ rest => includes searchString rest
     end.

(** [!ex.message.includes('404')]: the error is not a "not found" answer. *)
Definition transient (message : string) : bool :=
  negb (includes "404" message).

(** A string reference used as a condition: [null] and the empty string are
    falsy. *)
Definition truthyString (o : option string) : option string :=
  match o with
  | Some s => if String.eqb s "" then None else Some s
  | None => None
  end.

(** A numeric reference used as a condition: [null] and [0] are falsy. *)
Definition truthyNumber (o : option Z) : option Z :=
  match o with
  | Some n => if (n =? 0)%Z then None else Some n
  | None => None
  end.

(** [map[key]] used as a condition on a [Record<number, boolean>]: a missing
    key reads [undefined], which is falsy. *)
Definition readFlag (map : gmap Z bool) (key : Z) : bool :=
  default false (map !! key).

(** ** A state monad for the code that threads mutable state *)

Definition St (S A : Type) : Type := S → A * S.

#[global] Instance St_ret {S : Type} : MRet (St S) := λ A a s, (a, s).
#[global] Instance St_bind {S : Type} : MBind (St S) :=
  λ A B k m s, let '(a, s') := m s in k a s'.

Definition gets {S A : Type} (f : S → A) : St S A := λ s, (f s, s).
Definition modify {S : Type} (f : S → S) : St S unit := λ s, (tt, f s).

(** [for (const x of l) { body }] with the loop-carried variables [acc]. *)
Fixpoint forOf {S A B : Type} (l : list A) (body : A → B → St S B) (acc : B)
  : St S B :=
  match l with
  | [] => mret acc
  | x :: rest => acc' ← body x acc; forOf rest body acc'
  end.

(** ** The per-run caches *)

(** [plexSeasonsCache] is keyed by rating key; the value is what
    [getChildrenMetadata] gave, or [undefined] ([None]) when it was asked
    through a missing client.  [sonarrSeasonsCache] is keyed in the source by
    the strings [`0-${id}`] and [`1-${id}`]: the pair of the tier and the id. *)
Record Caches : Type := {
  plexSeasonsCache : gmap string (option (list PlexMetadata.t));
  sonarrSeasonsCache : gmap (bool * Z) (list SonarrSeason.t) }.

Definition emptyCaches : Caches :=
  {| plexSeasonsCache := ∅; sonarrSeasonsCache := ∅ |}.

Definition setPlexSeasons (key : string) (v : option (list PlexMetadata.t))
    (c : Caches) : Caches :=
  {| plexSeasonsCache := <[key := v]> (plexSeasonsCache c);
     sonarrSeasonsCache := sonarrSeasonsCache c |}.

Definition setSonarrSeasons (key : bool * Z) (v : list SonarrSeason.t)
    (c : Caches) : Caches :=
  {| plexSeasonsCache := plexSeasonsCache c;
     sonarrSeasonsCache := <[key := v]> (sonarrSeasonsCache c) |}.

(** The season objects the array [media.seasons] refers to, in order. *)
Definition seasonsOf (media : Media.t) (seasonObjs : list Season.t)
  : list Season.t :=
  omap (λ ref, seasonObjs !! ref) (Media.seasons media).

(** ** Existence checks *)

Section Existence.
Context (env : Services).

(** *** Radarr *)

(** One [try ... catch] of the loop of [mediaExistsInRadarr], for the
    servers of one tier: [exists] is the flag it may raise. *)
Definition radarrTry (tier4k : bool) (server : DVRSettings.t)
    (externalServiceId : option Z) (exists_ : bool) : bool :=
  match (if Bool.eqb (DVRSettings.is4k server) tier4k
         then truthyNumber externalServiceId else None) with
  | None => exists_
  | Some id =>
    match getMovie env server id with
    | Resolved radarr => if RadarrMovie.hasFile radarr then true else exists_
    | Rejected message => if transient message then true else exists_
    end
  end.

Definition mediaExistsInRadarr (media : Media.t) : bool * bool :=
  fold_left
    (λ '(existsInRadarr, existsInRadarr4k) server,
       (radarrTry false server (Media.externalServiceId media) existsInRadarr,
        radarrTry true server (Media.externalServiceId4k media)
          existsInRadarr4k))
    (radarrServers env) (false, false).

(** *** Sonarr *)

(** One [try ... catch] of the loop of [mediaExistsInSonarr]; the pair is
    ([existsInSonarr], [preventSeasonSearch]) of the tier. *)
Definition sonarrTry (tier4k : bool) (server : DVRSettings.t)
    (externalServiceId : option Z) (flags : bool * bool)
  : St Caches (bool * bool) :=
  match (if Bool.eqb (DVRSettings.is4k server) tier4k
         then truthyNumber externalServiceId else None) with
  | None => mret flags
  | Some id =>
    match getSeriesById env server id with
    | Resolved sonarr =>
      modify (setSonarrSeasons (tier4k, id) (SonarrSeries.seasons sonarr));;
      mret (if (SonarrSeries.episodeFileCount sonarr >? 0)%Z
            then (true, flags.2) else flags)
    | Rejected message =>
      mret (if transient message then (true, true) else flags)
    end
  end.

(** One half of [seasonExistsInSonarr]: the lookup of the season in the
    cached series of a tier. *)
Definition sonarrSeasonExists (tier4k : bool) (externalServiceId : option Z)
    (seasonStatus : MediaStatus.t) (seasonNumber : Z)
    (preventSeasonSearch : bool) (c : Caches) : bool :=
  match truthyNumber externalServiceId with
  | Some id =>
    if availableOrPartial seasonStatus then
      let sonarrSeasons := sonarrSeasonsCache c !! (tier4k, id) in
      let seasonIsAvailable :=
        sonarrSeasons ≫=
          List.find (λ s,
            (seasonNumber =? SonarrSeason.seasonNumber s)%Z
            && match SonarrSeason.statistics s with
               | Some count => negb (count =? 0)%Z && (count >? 0)%Z
               | None => false
               end) in
      (bool_decide (is_Some seasonIsAvailable)
       && bool_decide (is_Some sonarrSeasons))
      || preventSeasonSearch
    else false
  | None => false
  end.

Definition seasonExistsInSonarr (media : Media.t) (season : Season.t)
    (preventSeasonSearch preventSeasonSearch4k : bool)
  : St Caches (bool * bool) :=
  c ← gets id;
  mret (sonarrSeasonExists false (Media.externalServiceId media)
          (Season.status season) (Season.seasonNumber season)
          preventSeasonSearch c,
        sonarrSeasonExists true (Media.externalServiceId4k media)
          (Season.status4k season) (Season.seasonNumber season)
          preventSeasonSearch4k c).

(** The season loop shared in shape by [mediaExistsInSonarr] and
    [mediaExistsInPlex]: it is skipped, leaving both maps empty, when both
    tiers asked to prevent the season search. *)
Definition seasonMaps
    (seasonExists : Season.t → bool → bool → St Caches (bool * bool))
    (seasons : list Season.t)
    (preventSeasonSearch preventSeasonSearch4k : bool)
  : St Caches (gmap Z bool * gmap Z bool) :=
  if negb preventSeasonSearch || negb preventSeasonSearch4k then
    forOf seasons
      (λ season '(map, map4k),
         '(e, e4k) ← seasonExists season preventSeasonSearch
                       preventSeasonSearch4k;
         mret (<[Season.seasonNumber season := e]> map,
               <[Season.seasonNumber season := e4k]> map4k))
      (∅, ∅)
  else mret (∅, ∅).

Definition mediaExistsInSonarr (media : Media.t) (seasonObjs : list Season.t)
  : St Caches (bool * bool * gmap Z bool * gmap Z bool) :=
  '(existsInSonarr, preventSeasonSearch,
    (existsInSonarr4k, preventSeasonSearch4k)) ←
    forOf (sonarrServers env)
      (λ server '(flags, flags4k),
         flags' ← sonarrTry false server (Media.externalServiceId media)
                    flags;
         flags4k' ← sonarrTry true server (Media.externalServiceId4k media)
                      flags4k;
         mret (flags', flags4k'))
      ((false, false), (false, false));
  '(sonarrSeasonMap, sonarrSeasonMap4k) ←
    seasonMaps (seasonExistsInSonarr media) (seasonsOf media seasonObjs)
      preventSeasonSearch preventSeasonSearch4k;
  mret (existsInSonarr, existsInSonarr4k, sonarrSeasonMap, sonarrSeasonMap4k).

(** *** Plex *)

(** The [catch] of [mediaExistsInPlex]: ([existsInPlex],
    [preventSeasonSearch]) after an error with this message. *)
Definition plexCatch (message : string) : bool * bool :=
  if transient message then (true, true) else (false, false).

(** One [try ... catch] of [mediaExistsInPlex]; the pair is
    ([existsInPlex], [preventSeasonSearch]) of the tier. *)
Definition plexTry (mediaType : MediaType) (ratingKey : option string)
  : St Caches (bool * bool) :=
  match truthyString ratingKey with
  | None => mret (false, false)
  | Some key =>
    match plexClient env with
    | None =>
      (* [this.plexClient?.f(...)] is [undefined] without a client *)
      (if bool_decide (mediaType = tv)
       then modify (setPlexSeasons key None) else mret ());;
      mret (false, false)
    | Some client =>
      match PlexAPI.getMetadata client key with
      | Rejected message => mret (plexCatch message)
      | Resolved plexMedia =>
        if bool_decide (mediaType = tv) then
          match PlexAPI.getChildrenMetadata client key with
          | Rejected message => mret (plexCatch message)
          | Resolved children =>
            modify (setPlexSeasons key (Some children));;
            mret (true, false)
          end
        else mret (true, false)
      end
    end
  end.

(** One half of [seasonExistsInPlex]. *)
Definition plexSeasonExists (ratingKey : option string)
    (seasonStatus : MediaStatus.t) (seasonNumber : Z)
    (preventSeasonSearch : bool) (c : Caches) : bool :=
  match truthyString ratingKey with
  | Some key =>
    if availableOrPartial seasonStatus then
      let children := mjoin (plexSeasonsCache c !! key) in
      let plexSeason :=
        children ≫=
          List.find (λ child, (PlexMetadata.index child =? seasonNumber)%Z) in
      bool_decide (is_Some plexSeason) || preventSeasonSearch
    else false
  | None => false
  end.

Definition seasonExistsInPlex (media : Media.t) (season : Season.t)
    (preventSeasonSearch preventSeasonSearch4k : bool)
  : St Caches (bool * bool) :=
  c ← gets id;
  mret (plexSeasonExists (Media.ratingKey media) (Season.status season)
          (Season.seasonNumber season) preventSeasonSearch c,
        plexSeasonExists (Media.ratingKey4k media) (Season.status4k season)
          (Season.seasonNumber season) preventSeasonSearch4k c).

(** The maps are [None] for a movie, whose tuple has two components only. *)
Definition mediaExistsInPlex (media : Media.t) (seasonObjs : list Season.t)
  : St Caches (bool * bool * option (gmap Z bool) * option (gmap Z bool)) :=
  '(existsInPlex, preventSeasonSearch) ←
    plexTry (Media.mediaType media) (Media.ratingKey media);
  '(existsInPlex4k, preventSeasonSearch4k) ←
    plexTry (Media.mediaType media) (Media.ratingKey4k media);
  if bool_decide (Media.mediaType media = movie) then
    mret (existsInPlex, existsInPlex4k, None, None)
  else
    '(plexSeasonMap, plexSeasonMap4k) ←
      seasonMaps (seasonExistsInPlex media) (seasonsOf media seasonObjs)
        preventSeasonSearch preventSeasonSearch4k;
    mret (existsInPlex, existsInPlex4k,
          Some plexSeasonMap, Some plexSeasonMap4k).

End Existence.

(** ** The store *)

(** A row of the media table with the rows of its seasons; the season rows
    are addressed like the season objects of the loaded entity (row [i] is
    the row of object [i]). *)
Record MediaRow : Set := {
  columns : Media.t;
  seasonRows : list Season.t }.

Record Database : Type := {
  mediaTable : gmap Z MediaRow;
  requestTable : list MediaRequest.t;
  seasonRequestTable : list SeasonRequest.t }.

Definition setMediaTable (v : gmap Z MediaRow) (d : Database) : Database :=
  {| mediaTable := v;
     requestTable := requestTable d;
     seasonRequestTable := seasonRequestTable d |}.

(** Modelled from the spec: [saveItem(item)] of the item store
    ([mediaRepository.save]), which is not part of the sources at hand.  It
    writes the columns of the entity over its row and, by cascade, every
    season object the entity's array refers to over that season's row.  The
    engine never creates seasons: a reference without a row writes nothing. *)
Definition save (media : Media.t) (seasonObjs : list Season.t) (d : Database)
  : Database :=
  let old :=
    match mediaTable d !! Media.id media with
    | Some row => seasonRows row
    | None => []
    end in
  let rows :=
    foldl (λ rows ref,
             match seasonObjs !! ref with
             | Some season => <[ref := season]> rows
             | None => rows
             end)
          old (Media.seasons media) in
  setMediaTable
    (<[Media.id media := {| columns := media; seasonRows := rows |}]>
       (mediaTable d)) d.

(** Modelled from the spec: [updateItemStatus(id, {status?, status4k?})] of
    the item store ([mediaRepository.update]); it writes the given column of
    the row and nothing else, in particular not the loaded entity. *)
Definition update (id : Z) (change : Media.t → Media.t) (d : Database)
  : Database :=
  setMediaTable
    (alter (λ row, {| columns := change (columns row);
                      seasonRows := seasonRows row |}) id (mediaTable d)) d.

(** The query of [mediaUpdater]: the requests joined to the item's row,
    [media.id = :id] and
    [(request.is4k = 0 AND media.status IN (AVAILABLE, PARTIALLY_AVAILABLE))
     OR (request.is4k = 1 AND media.status4k IN (...))]. *)
Definition findRequests (id : Z) (d : Database) : list MediaRequest.t :=
  List.filter
    (λ request,
       (MediaRequest.media request =? id)%Z
       && match mediaTable d !! id with
          | Some row =>
            (negb (MediaRequest.is4k request)
             && availableOrPartial (Media.status (columns row)))
            || (MediaRequest.is4k request
                && availableOrPartial (Media.status4k (columns row)))
          | None => false
          end)
    (requestTable d).

(** Modelled from the spec: [deleteRequests(ids)] of the request store
    ([requestRepository.remove]). *)
Definition removeRequests (requests : list MediaRequest.t) (d : Database)
  : Database :=
  {| mediaTable := mediaTable d;
     requestTable :=
       List.filter
         (λ row, negb (existsb (λ r, (MediaRequest.id r =? MediaRequest.id row)%Z)
                         requests))
         (requestTable d);
     seasonRequestTable := seasonRequestTable d |}.

(** The query of [seasonUpdater]: the season requests of this season number
    whose owning request belongs to the item, each with its owning request
    ([relations: { request: ... }]). *)
Definition findSeasonRequests (id : Z) (seasonNumber : Z) (d : Database)
  : list (SeasonRequest.t * MediaRequest.t) :=
  omap
    (λ seasonRequest,
       if (SeasonRequest.seasonNumber seasonRequest =? seasonNumber)%Z then
         request ← List.find
                     (λ r, (MediaRequest.id r
                            =? SeasonRequest.request seasonRequest)%Z)
                     (requestTable d);
         if (MediaRequest.media request =? id)%Z
         then Some (seasonRequest, request) else None
       else None)
    (seasonRequestTable d).

(** Modelled from the spec: [deleteSeasonRequests(ids)] of the request store
    ([seasonRequestRepository.remove]), with the cascade the spec expects of
    the store: a MediaRequest that owned a deleted season request and is left
    with no season request is deleted too. *)
Definition removeSeasonRequests
    (seasonRequests : list (SeasonRequest.t * MediaRequest.t)) (d : Database)
  : Database :=
  let remaining :=
    List.filter
      (λ row, negb (existsb (λ '(sr, _),
                               (SeasonRequest.id sr =? SeasonRequest.id row)%Z)
                      seasonRequests))
      (seasonRequestTable d) in
  {| mediaTable := mediaTable d;
     requestTable :=
       List.filter
         (λ row,
            negb (existsb (λ '(_, r),
                             (MediaRequest.id r =? MediaRequest.id row)%Z)
                    seasonRequests
                  && negb (existsb
                             (λ sr, (SeasonRequest.request sr
                                     =? MediaRequest.id row)%Z)
                             remaining)))
         (requestTable d);
     seasonRequestTable := remaining |}.

(** ** The entity in memory and the store *)

(** [media] is the object the updaters are handed, [seasonObjs] the season
    objects its array refers to, [db] the store. *)
Record World : Type := {
  media : Media.t;
  seasonObjs : list Season.t;
  db : Database }.

Definition setMedia (v : Media.t) (w : World) : World :=
  {| media := v; seasonObjs := seasonObjs w; db := db w |}.
Definition setSeasonObjs (v : list Season.t) (w : World) : World :=
  {| media := media w; seasonObjs := v; db := db w |}.
Definition setDb (v : Database) (w : World) : World :=
  {| media := media w; seasonObjs := seasonObjs w; db := v |}.

(** [await mediaRepository.save({ media, ...media })] *)
Definition saveMedia : St World unit :=
  modify (λ w, setDb (save (media w) (seasonObjs w) (db w)) w).

(** ** The status transitions *)

Definition findMediaStatus (requests : list MediaRequest.t) (is4k : bool)
  : MediaStatus.t :=
  let filteredRequests :=
    List.filter (λ request, Bool.eqb (MediaRequest.is4k request) is4k)
      requests in
  if existsb (λ request,
                bool_decide (MediaRequest.status request
                             = MediaRequestStatus.APPROVED))
       filteredRequests
  then MediaStatus.PROCESSING
  else if existsb (λ request,
                     bool_decide (MediaRequest.status request
                                  = MediaRequestStatus.PENDING))
            filteredRequests
  then MediaStatus.PENDING
  else MediaStatus.UNKNOWN.

(** [cond ? ref : null] of the reference updates of [mediaUpdater]. *)
Definition keepIf {A : Type} (cond : bool) (ref : option A) : option A :=
  if cond then ref else None.

(** The assignments of the non-4K branch of [mediaUpdater]. *)
Definition resetNon4k (mediaStatus : MediaStatus.t) (m : Media.t) : Media.t :=
  let processing := bool_decide (mediaStatus = MediaStatus.PROCESSING) in
  Media.mk (Media.id m) (Media.mediaType m) (Media.tmdbId m)
    mediaStatus (Media.status4k m)
    (keepIf processing (Media.serviceId m))
    (keepIf processing (Media.externalServiceId m))
    (keepIf processing (Media.externalServiceSlug m))
    (keepIf processing (Media.ratingKey m))
    (Media.serviceId4k m) (Media.externalServiceId4k m)
    (Media.externalServiceSlug4k m) (Media.ratingKey4k m)
    (Media.seasons m).

(** The assignments of the 4K branch of [mediaUpdater]: the new status is
    [mediaStatus4k], the references are tested against [mediaStatus], as in
    the source. *)
Definition reset4k (mediaStatus mediaStatus4k : MediaStatus.t) (m : Media.t)
  : Media.t :=
  let processing := bool_decide (mediaStatus = MediaStatus.PROCESSING) in
  Media.mk (Media.id m) (Media.mediaType m) (Media.tmdbId m)
    (Media.status m) mediaStatus4k
    (Media.serviceId m) (Media.externalServiceId m)
    (Media.externalServiceSlug m) (Media.ratingKey m)
    (keepIf processing (Media.serviceId4k m))
    (keepIf processing (Media.externalServiceId4k m))
    (keepIf processing (Media.externalServiceSlug4k m))
    (keepIf processing (Media.ratingKey4k m))
    (Media.seasons m).

Definition mediaUpdater (mediaExists mediaExists4k : bool) : St World unit :=
  m ← gets media;
  requests ← gets (λ w, findRequests (Media.id m) (db w));
  let isTv := bool_decide (Media.mediaType m = tv) in
  let mediaStatus :=
    if isTv && negb mediaExists
    then findMediaStatus requests false else MediaStatus.UNKNOWN in
  let mediaStatus4k :=
    if isTv && negb mediaExists4k
    then findMediaStatus requests true else MediaStatus.UNKNOWN in
  (if availableOrPartial (Media.status m) && negb mediaExists
   then modify (λ w, setMedia (resetNon4k mediaStatus (media w)) w)
   else mret ());;
  m ← gets media;
  (if availableOrPartial (Media.status4k m) && negb mediaExists4k
   then modify (λ w, setMedia (reset4k mediaStatus mediaStatus4k (media w)) w)
   else mret ());;
  saveMedia;;
  (* Only delete media request if type is movie. *)
  if (0 <? length requests)%nat && bool_decide (Media.mediaType m = movie)
  then modify (λ w, setDb (removeRequests requests (db w)) w)
  else mret ().

(** The three blocks of [seasonUpdater] that reset the statuses of the season
    object; the result carries [deletedSeason]. *)
Definition resetSeason (seasonExists seasonExists4k : bool) (season : Season.t)
  : Season.t * bool :=
  let '(season, deletedSeason) :=
    if availableOrPartial (Season.status season) && negb seasonExists
    then (Season.set_status MediaStatus.UNKNOWN season, true)
    else (season, false) in
  let '(season, deletedSeason) :=
    if availableOrPartial (Season.status4k season) && negb seasonExists4k
    then (Season.set_status4k MediaStatus.UNKNOWN season, true)
    else (season, deletedSeason) in
  if negb seasonExists && negb seasonExists4k then
    let '(season, deletedSeason) :=
      if availableOrPartial (Season.status season)
      then (Season.set_status MediaStatus.UNKNOWN season, true)
      else (season, deletedSeason) in
    if availableOrPartial (Season.status4k season)
    then (Season.set_status4k MediaStatus.UNKNOWN season, true)
    else (season, deletedSeason)
  else (season, deletedSeason).

(** [season] is passed by reference: [ref] is the position of the object. *)
Definition seasonUpdater (ref : nat) (seasonExists seasonExists4k : bool)
  : St World unit :=
  m ← gets media;
  objs ← gets seasonObjs;
  match objs !! ref with
  | None => mret ()
  | Some season =>
    seasonRequests ←
      gets (λ w, findSeasonRequests (Media.id m) (Season.seasonNumber season)
                   (db w));
    let filteredSeasonRequests :=
      List.filter
        (λ '(_, request),
           (negb (MediaRequest.is4k request) && negb seasonExists
            && availableOrPartial (Season.status season))
           || (MediaRequest.is4k request && negb seasonExists4k
               && availableOrPartial (Season.status4k season)))
        seasonRequests in
    let '(season', deletedSeason) :=
      resetSeason seasonExists seasonExists4k season in
    modify (λ w, setSeasonObjs (<[ref := season']> (seasonObjs w)) w);;
    if deletedSeason then
      (* [media.seasons = [...media.seasons, season]] *)
      modify (λ w, setMedia
                     (Media.set_seasons (Media.seasons (media w) ++ [ref])
                        (media w)) w);;
      saveMedia;;
      m ← gets media;
      (if bool_decide (Media.status m = MediaStatus.AVAILABLE)
          && negb seasonExists
       then modify (λ w, setDb
                           (update (Media.id m)
                              (Media.set_status MediaStatus.PARTIALLY_AVAILABLE)
                              (db w)) w)
       else mret ());;
      (if bool_decide (Media.status4k m = MediaStatus.AVAILABLE)
          && negb seasonExists4k
       then modify (λ w, setDb
                           (update (Media.id m)
                              (Media.set_status4k
                                 MediaStatus.PARTIALLY_AVAILABLE)
                              (db w)) w)
       else mret ());;
      if (0 <? length filteredSeasonRequests)%nat
      then modify (λ w, setDb (removeSeasonRequests filteredSeasonRequests
                                 (db w)) w)
      else mret ()
    else mret ()
  end.

(** ** One item of a run *)

Record State : Type := {
  caches : Caches;
  world : World }.

Definition withCaches {A : Type} (m : St Caches A) : St State A :=
  λ st, let '(a, c) := m (caches st) in
        (a, {| caches := c; world := world st |}).

Definition withWorld {A : Type} (m : St World A) : St State A :=
  λ st, let '(a, w) := m (world st) in
        (a, {| caches := caches st; world := w |}).

(** [map && map[key]] on the optional maps of [mediaExistsInPlex]. *)
Definition readFlagOpt (map : option (gmap Z bool)) (key : Z) : bool :=
  match map with
  | Some map => readFlag map key
  | None => false
  end.

Section Run.
Context (env : Services).

(** The branch [media.mediaType === 'movie'] of the loop of [run]; the
    result is ([movieExists], [movieExists4k]). *)
Definition runMovie : St State (bool * bool) :=
  m ← gets (λ st, media (world st));
  objs ← gets (λ st, seasonObjs (world st));
  '(existsInPlex, existsInPlex4k, _, _) ←
    withCaches (mediaExistsInPlex env m objs);
  let '(existsInRadarr, existsInRadarr4k) := mediaExistsInRadarr env m in
  let movieExists := existsInPlex || existsInRadarr in
  let movieExists4k := existsInPlex4k || existsInRadarr4k in
  (if (negb movieExists
       && bool_decide (Media.status m = MediaStatus.AVAILABLE))
      || (negb movieExists4k
          && bool_decide (Media.status4k m = MediaStatus.AVAILABLE))
   then withWorld (mediaUpdater movieExists movieExists4k)
   else mret ());;
  mret (movieExists, movieExists4k).

(** The body of [for (const season of media.seasons)] in [run].  Both
    halves of the test that guards [seasonUpdater] read [season.status]. *)
Definition runSeason
    (existsInPlexMap existsInPlexMap4k : option (gmap Z bool))
    (existsInSonarrMap existsInSonarrMap4k : gmap Z bool)
    (ref : nat) (maps : gmap Z bool * gmap Z bool)
  : St State (gmap Z bool * gmap Z bool) :=
  objs ← gets (λ st, seasonObjs (world st));
  match objs !! ref with
  | None => mret maps
  | Some season =>
    let n := Season.seasonNumber season in
    let seasonMap :=
      <[n := readFlagOpt existsInPlexMap n || readFlag existsInSonarrMap n]>
        maps.1 in
    let seasonMap4k :=
      <[n := readFlagOpt existsInPlexMap4k n
             || readFlag existsInSonarrMap4k n]> maps.2 in
    (if (negb (readFlag seasonMap n)
         && availableOrPartial (Season.status season))
        || (negb (readFlag seasonMap4k n)
            && availableOrPartial (Season.status season))
     then withWorld (seasonUpdater ref (readFlag seasonMap n)
                       (readFlag seasonMap4k n))
     else mret ());;
    mret (seasonMap, seasonMap4k)
  end.

(** The branch [media.mediaType === 'tv'] of the loop of [run]; the result
    is ([showExists], [showExists4k], [seasonMap], [seasonMap4k]).  The
    loop walks the array [media.seasons] held when it starts. *)
Definition runShow : St State (bool * bool * gmap Z bool * gmap Z bool) :=
  m ← gets (λ st, media (world st));
  objs ← gets (λ st, seasonObjs (world st));
  '(existsInPlex, existsInPlex4k, existsInPlexMap, existsInPlexMap4k) ←
    withCaches (mediaExistsInPlex env m objs);
  '(existsInSonarr, existsInSonarr4k, existsInSonarrMap,
    existsInSonarrMap4k) ←
    withCaches (mediaExistsInSonarr env m objs);
  let showExists := existsInPlex || existsInSonarr in
  let showExists4k := existsInPlex4k || existsInSonarr4k in
  '(seasonMap, seasonMap4k) ←
    forOf (Media.seasons m)
      (runSeason existsInPlexMap existsInPlexMap4k
         existsInSonarrMap existsInSonarrMap4k)
      (∅, ∅);
  m ← gets (λ st, media (world st));
  (if (negb showExists && availableOrPartial (Media.status m))
      || (negb showExists4k && availableOrPartial (Media.status4k m))
   then withWorld (mediaUpdater showExists showExists4k)
   else mret ());;
  mret (showExists, showExists4k, seasonMap, seasonMap4k).

(** The body of the loop of [run] for one [media] the paginated query
    yielded; the [running] flag is outside the model. *)
Definition runMedia : St State unit :=
  m ← gets (λ st, media (world st));
  match Media.mediaType m with
  | movie => runMovie;; mret ()
  | tv => runShow;; mret ()
  end.

End Run.

(** The state in which the loop of [run] takes an item the query yielded:
    the entity and its season objects are what the rows hold. *)
Definition loaded (st : State) : Prop :=
  let w := world st in
  mediaTable (db w) !! Media.id (media w)
  = Some {| columns := media w; seasonRows := seasonObjs w |}.

Definition exec {S A : Type} (m : St S A) (s : S) : S := (m s).2.
Definition eval {S A : Type} (m : St S A) (s : S) : A := (m s).1.

(** ** The paginated query and the loop of [run] *)

(** [whereOptions] of [loadAvailableMediaPaginated]: the four alternatives
    of the query. *)
Definition whereOptions (m : Media.t) : bool :=
  bool_decide (Media.status m = MediaStatus.AVAILABLE)
  || bool_decide (Media.status m = MediaStatus.PARTIALLY_AVAILABLE)
  || bool_decide (Media.status4k m = MediaStatus.AVAILABLE)
  || bool_decide (Media.status4k m = MediaStatus.PARTIALLY_AVAILABLE).

(** The rows of the media table, in the order of their ids. *)
Definition rowIds (d : Database) : list Z :=
  merge_sort Z.le (elements (dom (mediaTable d))).

Definition rows (d : Database) : list MediaRow :=
  omap (λ id, mediaTable d !! id) (rowIds d).

(** An entity as the store hands it out: the columns of its row and, the
    relation being eager, one season object per season row. *)
Definition load (row : MediaRow) : Media.t * list Season.t :=
  (Media.set_seasons (seq 0 (length (seasonRows row))) (columns row),
   seasonRows row).

(** Modelled from the spec: [find({ where, skip, take })] of the item store
    ([mediaRepository.find]): the rows that satisfy [where], without the
    first [skip] of them, [take] of them at most. *)
Definition findAll (where_ : Media.t → bool) (d : Database)
  : list (Media.t * list Season.t) :=
  load <$> List.filter (λ row, where_ (columns row)) (rows d).

Definition find (where_ : Media.t → bool) (skip take_ : nat) (d : Database)
  : list (Media.t * list Season.t) :=
  take take_ (drop skip (findAll where_ d)).

Section Pagination.
Context {S : Type}.
(** The store as the state of the caller holds it, and the body of the
  [for await] loop that consumes the generator. *)
Context (database : S → Database).
Context (body : Media.t * list Season.t → St S unit).

(** [loadAvailableMediaPaginated(pageSize)] driving the loop that consumes
  it: a page is fetched, its items are handed to the body one by one, and
  the next page is fetched at the next offset, until a page comes back
  empty.  [fuel] bounds the number of pages; the result tells whether the
  generator finished. *)
Fixpoint loadAvailableMediaPaginated (fuel : nat) (pageSize offset : nat)
: St S bool :=
match fuel with
| O => mret false
| Datatypes.S fuel =>
  mediaPage ← gets (λ s, find whereOptions offset pageSize (database s));
  forOf mediaPage (λ media _, body media) ();;
  if (0 <? length mediaPage)%nat
  then loadAvailableMediaPaginated fuel pageSize (offset + pageSize)
  else mret true
end.
End Pagination.

(** The state of a run between two items: the caches and the store. *)
Definition RunState : Type := Caches * Database.

(** The body of the loop of [run] for a yielded [media], with
    [mediaUpdater] completed before the body returns (the code does not
    await it). *)
Definition runItem (env : Services) (entity : Media.t * list Season.t)
  : St RunState unit :=
  λ '(c, d),
    let st := exec (runMedia env)
                {| caches := c;
                   world := {| media := entity.1; seasonObjs := entity.2;
                               db := d |} |} in
    ((), (caches st, db (world st))).

(** [run]: the caches are emptied, then the loop consumes the paginated
    query, 50 items a page.  The result is the store the run leaves once
    every write has landed, or [None] when [fuel] pages did not exhaust the
    query.  The lookup of the admin (lines 39-49) shows in [plexClient env];
    [cancel] is not called during the run. *)
Definition run (env : Services) (fuel : nat) (d : Database)
  : option Database :=
  let pageSize := 50%nat in
  let '(finished, (_, d')) :=
    loadAvailableMediaPaginated snd (runItem env) fuel pageSize 0
      (emptyCaches, d) in
  if finished then Some d' else None.

(** ** Vocabulary of the statements *)

(** The specification speaks of "a tier": the accessors below select the
    non-4K ([false]) or the 4K ([true]) field. *)
Definition statusOf (tier4k : bool) (m : Media.t) : MediaStatus.t :=
  if tier4k then Media.status4k m else Media.status m.

Definition seasonStatusOf (tier4k : bool) (s : Season.t) : MediaStatus.t :=
  if tier4k then Season.status4k s else Season.status s.

Definition ratingKeyOf (tier4k : bool) (m : Media.t) : option string :=
  if tier4k then Media.ratingKey4k m else Media.ratingKey m.

Definition externalServiceIdOf (tier4k : bool) (m : Media.t) : option Z :=
  if tier4k then Media.externalServiceId4k m else Media.externalServiceId m.

Definition pick {A : Type} (tier4k : bool) (p : A * A) : A :=
  if tier4k then p.2 else p.1.

(** The status is one of UNKNOWN, PENDING, PROCESSING. *)
Definition downgraded (s : MediaStatus.t) : Prop :=
  s = MediaStatus.UNKNOWN ∨ s = MediaStatus.PENDING
  ∨ s = MediaStatus.PROCESSING.

(** The status the store holds for an item. *)
Definition storedStatus (tier4k : bool) (id : Z) (d : Database)
  : option MediaStatus.t :=
  (λ row, statusOf tier4k (columns row)) <$> mediaTable d !! id.

(** The statuses the store holds for the seasons of an item. *)
Definition storedSeasonStatuses (tier4k : bool) (id : Z) (d : Database)
  : option (list MediaStatus.t) :=
  (λ row, seasonStatusOf tier4k <$> seasonRows row) <$> mediaTable d !! id.

(** The aggregated existence verdicts [run] computes for the item:
    ([movieExists], [movieExists4k]) or ([showExists], [showExists4k]). *)
Definition itemExists (env : Services) (st : State) : bool * bool :=
  match Media.mediaType (media (world st)) with
  | movie => eval (runMovie env) st
  | tv => let '(showExists, showExists4k, _, _) := eval (runShow env) st in
          (showExists, showExists4k)
  end.

(** The merged season verdicts [run] computes for a show:
    ([seasonMap], [seasonMap4k]). *)
Definition seasonVerdicts (env : Services) (st : State)
  : gmap Z bool * gmap Z bool :=
  let '(_, _, seasonMap, seasonMap4k) := eval (runShow env) st in
  (seasonMap, seasonMap4k).

(** The season maps [mediaExistsInPlex] hands to [run] for the item
    ([existsInPlexMap], [existsInPlexMap4k]). *)
Definition plexVerdicts (env : Services) (st : State)
  : option (gmap Z bool) * option (gmap Z bool) :=
  let w := world st in
  let '(_, _, map, map4k) :=
    eval (mediaExistsInPlex env (media w) (seasonObjs w)) (caches st) in
  (map, map4k).

(** The season maps [mediaExistsInSonarr] hands to [run] for the item
    ([existsInSonarrMap], [existsInSonarrMap4k]); it runs on the caches
    [mediaExistsInPlex] left. *)
Definition sonarrVerdicts (env : Services) (st : State)
  : gmap Z bool * gmap Z bool :=
  let w := world st in
  let c := exec (mediaExistsInPlex env (media w) (seasonObjs w)) (caches st) in
  let '(_, _, map, map4k) :=
    eval (mediaExistsInSonarr env (media w) (seasonObjs w)) c in
  (map, map4k).

(** The next status of a tier as the specification words it: PROCESSING if a
    request of the tier is APPROVED, else PENDING if one is PENDING, else
    UNKNOWN. *)
Definition hasRequest (requests : list MediaRequest.t) (tier4k : bool)
    (s : MediaRequestStatus.t) : Prop :=
  ∃ r, r ∈ requests ∧ MediaRequest.is4k r = tier4k
       ∧ MediaRequest.status r = s.

Inductive nextStatus (requests : list MediaRequest.t) (tier4k : bool)
  : MediaStatus.t → Prop :=
| next_processing :
    hasRequest requests tier4k MediaRequestStatus.APPROVED →
    nextStatus requests tier4k MediaStatus.PROCESSING
| next_pending :
    ¬ hasRequest requests tier4k MediaRequestStatus.APPROVED →
    hasRequest requests tier4k MediaRequestStatus.PENDING →
    nextStatus requests tier4k MediaStatus.PENDING
| next_unknown :
    ¬ hasRequest requests tier4k MediaRequestStatus.APPROVED →
    ¬ hasRequest requests tier4k MediaRequestStatus.PENDING →
    nextStatus requests tier4k MediaStatus.UNKNOWN.

(** *** The probes of a tier *)

(** The awaited call threw an error that is not a "not found" answer. *)
Definition failsTransiently {A : Type} (r : Response A) : bool :=
  match r with
  | Rejected message => transient message
  | Resolved _ => false
  end.

(** The answers of the Radarr servers of a tier to [getMovie]: for each
    server asked, whether the call fails transiently. *)
Definition radarrProbes (env : Services) (tier4k : bool) (id : Z)
    (servers : list DVRSettings.t) : list bool :=
  (λ server, failsTransiently (getMovie env server id))
    <$> List.filter (λ server, Bool.eqb (DVRSettings.is4k server) tier4k)
          servers.

(** The answers of the Sonarr servers of a tier to [getSeriesById]. *)
Definition sonarrProbes (env : Services) (tier4k : bool) (id : Z)
    (servers : list DVRSettings.t) : list bool :=
  (λ server, failsTransiently (getSeriesById env server id))
    <$> List.filter (λ server, Bool.eqb (DVRSettings.is4k server) tier4k)
          servers.

(** The probes [mediaExistsInRadarr] (for a movie) or [mediaExistsInSonarr]
    (for a show) issues for a tier: none without an external service id. *)
Definition managerProbes (env : Services) (m : Media.t) (tier4k : bool)
  : list bool :=
  match truthyNumber (externalServiceIdOf tier4k m) with
  | None => []
  | Some id =>
    match Media.mediaType m with
    | movie => radarrProbes env tier4k id (radarrServers env)
    | tv => sonarrProbes env tier4k id (sonarrServers env)
    end
  end.

(** The Plex probe of a tier: [None] when none is issued (no rating key, or
    no client), else whether the first call, [getMetadata], fails
    transiently; [getChildrenMetadata] is only issued after it resolved. *)
Definition plexProbe (env : Services) (m : Media.t) (tier4k : bool)
  : option bool :=
  key ← truthyString (ratingKeyOf tier4k m);
  client ← plexClient env;
  Some (failsTransiently (PlexAPI.getMetadata client key)).

(** Every probe issued for the tier fails transiently, and one is issued. *)
Definition allProbesTransient (env : Services) (m : Media.t) (tier4k : bool)
  : Prop :=
  plexProbe env m tier4k ≠ Some false
  ∧ (∀ b, b ∈ managerProbes env m tier4k → b = true)
  ∧ (is_Some (plexProbe env m tier4k) ∨ managerProbes env m tier4k ≠ []).

(** A call made to Plex for the tier fails transiently: [getMetadata] or,
    for a show whose [getMetadata] resolved, [getChildrenMetadata], which is
    not issued otherwise.  This is [preventSeasonSearch] of the tier at the
    end of the [try] of [mediaExistsInPlex]. *)
Definition plexFailsTransiently (env : Services) (m : Media.t)
    (tier4k : bool) : bool :=
  match truthyString (ratingKeyOf tier4k m), plexClient env with
  | Some key, Some client =>
    match PlexAPI.getMetadata client key with
    | Rejected message => transient message
    | Resolved _ =>
      bool_decide (Media.mediaType m = tv)
      && failsTransiently (PlexAPI.getChildrenMetadata client key)
    end
  | _, _ => false
  end.

(** A call made to Radarr or Sonarr for the tier fails transiently. *)
Definition managerFailsTransiently (env : Services) (m : Media.t)
    (tier4k : bool) : bool :=
  existsb (λ failed, failed) (managerProbes env m tier4k).

(** At Plex or at Sonarr a probe is issued for the tier while no call made
    there for the other tier fails transiently. *)
Definition otherTierAnswers (env : Services) (m : Media.t) (tier4k : bool)
  : Prop :=
  (is_Some (plexProbe env m tier4k)
   ∧ plexFailsTransiently env m (negb tier4k) = false)
  ∨ (managerProbes env m tier4k ≠ []
     ∧ managerFailsTransiently env m (negb tier4k) = false).

(** The season numbers of the item are pairwise distinct. *)
Definition distinctSeasons (w : World) : Prop :=
  NoDup (Season.seasonNumber <$> seasonsOf (media w) (seasonObjs w)).

(** A status moves one way: it stays, or it leaves AVAILABLE or
    PARTIALLY_AVAILABLE for UNKNOWN, PENDING or PROCESSING. *)
Definition oneWay (before after : MediaStatus.t) : Prop :=
  after = before ∨ (availableOrPartial before = true ∧ downgraded after).

(** The store holds for the item what the entity holds, up to the season
    cascade: a stored status is the status of the entity, or it is
    PARTIALLY_AVAILABLE where the entity still says AVAILABLE. *)
Definition statusKept (entity stored : MediaStatus.t) : Prop :=
  stored = entity
  ∨ (entity = MediaStatus.AVAILABLE
     ∧ stored = MediaStatus.PARTIALLY_AVAILABLE).

Definition inSync (w : World) : Prop :=
  ∃ row,
    mediaTable (db w) !! Media.id (media w) = Some row
    ∧ seasonRows row = seasonObjs w
    ∧ ∀ tier4k,
        statusKept (statusOf tier4k (media w)) (statusOf tier4k (columns row)).

(** *** Auxiliary definitions of the proofs *)

(** Two entities agree on every field but the array [seasons]. *)
Definition sameColumns (m m' : Media.t) : Prop :=
  Media.set_seasons [] m = Media.set_seasons [] m'.

(** The flags of one Plex [try]; they do not depend on the caches. *)
Definition plexFlags (env : Services) (mediaType : MediaType) (ratingKey : option string)
  : bool * bool :=
  match truthyString ratingKey with
  | None => (false, false)
  | Some key =>
    match plexClient env with
    | None => (false, false)
    | Some client =>
      match PlexAPI.getMetadata client key with
      | Rejected message => plexCatch message
      | Resolved _ =>
        if bool_decide (mediaType = tv) then
          match PlexAPI.getChildrenMetadata client key with
          | Rejected message => plexCatch message
          | Resolved _ => (true, false)
          end
        else (true, false)
      end
    end
  end.

(** The flags of one Sonarr [try]; they do not depend on the caches. *)
Definition sonarrFlags (env : Services) (tier4k : bool) (externalServiceId : option Z)
    (flags : bool * bool) (server : DVRSettings.t) : bool * bool :=
  match (if Bool.eqb (DVRSettings.is4k server) tier4k
         then truthyNumber externalServiceId else None) with
  | None => flags
  | Some id =>
    match getSeriesById env server id with
    | Resolved sonarr =>
      if (SonarrSeries.episodeFileCount sonarr >? 0)%Z
      then (true, flags.2) else flags
    | Rejected message => if transient message then (true, true) else flags
    end
  end.


(** The season requests [seasonUpdater] deletes when a season is lost in
    non-4K only: the non-4K requests of the season. *)
Definition lostSeasonRequests (id n : Z) (d : Database)
  : list (SeasonRequest.t * MediaRequest.t) :=
  List.filter (λ '(_, request), negb (MediaRequest.is4k request))
    (findSeasonRequests id n d).

(** *** Vocabulary of the further properties *)

(** The answer of a Radarr server stands for "the movie is there": the movie
    has a file, or the call threw an error that is not a "not found"
    answer. *)
Definition radarrKeeps (r : Response RadarrMovie.t) : bool :=
  match r with
  | Resolved radarr => RadarrMovie.hasFile radarr
  | Rejected message => transient message
  end.

(** The same for a Sonarr server and a show: the series has episode files,
    or the call threw an error that is not a "not found" answer. *)
Definition sonarrKeeps (r : Response SonarrSeries.t) : bool :=
  match r with
  | Resolved sonarr => (SonarrSeries.episodeFileCount sonarr >? 0)%Z
  | Rejected message => transient message
  end.

(** The season lists the Sonarr servers of a tier answer with for a series
    id, in the order of the servers; a server whose call throws gives
    none. *)
Definition sonarrAnswers (env : Services) (tier4k : bool) (id : Z)
    (servers : list DVRSettings.t) : list (list SonarrSeason.t) :=
  omap (λ server,
          match getSeriesById env server id with
          | Resolved sonarr => Some (SonarrSeries.seasons sonarr)
          | Rejected _ => None
          end)
    (List.filter (λ server, Bool.eqb (DVRSettings.is4k server) tier4k)
       servers).

(** A season of a Sonarr series counts when it has episode files. *)
Definition sonarrSeasonHasFiles (n : Z) (s : SonarrSeason.t) : bool :=
  (n =? SonarrSeason.seasonNumber s)%Z
  && match SonarrSeason.statistics s with
     | Some count => (count >? 0)%Z
     | None => false
     end.

(** Every row of the media table sits at the id of its entity. *)
Definition wellKeyed (d : Database) : Prop :=
  ∀ id row, mediaTable d !! id = Some row → Media.id (columns row) = id.

(** The entity is what its row holds. *)
Definition fresh (d : Database) (entity : Media.t * list Season.t) : Prop :=
  ∃ row, mediaTable d !! Media.id entity.1 = Some row ∧ load row = entity.

(** The store of [w] differs from [d] in the row of the item [k] at most,
    and [w] holds that item. *)
Definition touchesOnly (k : Z) (d : Database) (w : World) : Prop :=
  Media.id (media w) = k
  ∧ (∀ id, id ≠ k → mediaTable (db w) !! id = mediaTable d !! id)
  ∧ ∃ row, mediaTable (db w) !! k = Some row ∧ Media.id (columns row) = k.

(** The ids of the items the query of [loadAvailableMediaPaginated] selects,
    in the order of the store. *)
Definition resultIds (d : Database) : list Z :=
  (λ entity, Media.id entity.1) <$> findAll whereOptions d.

Section Yielded.
Context {S : Type}.
Context (database : S → Database).
Context (body : Media.t * list Season.t → St S unit).

(** The items [loadAvailableMediaPaginated] yields, page after page, the
    loop body having run on the items of a page before the next page is
    fetched. *)
Fixpoint yielded (fuel : nat) (pageSize offset : nat) (s : S)
  : list (Media.t * list Season.t) :=
  match fuel with
  | O => []
  | Datatypes.S fuel =>
    let mediaPage := find whereOptions offset pageSize (database s) in
    mediaPage
    ++ if (0 <? length mediaPage)%nat
       then yielded fuel pageSize (offset + pageSize)
              (exec (forOf mediaPage (λ media _, body media) ()) s)
       else []
  end.
End Yielded.

(** ** Concrete items *)

(** The examples below run the model on small catalogs: one item, loaded
    from its row, with empty caches. *)
Module Scenario.

Definition notFound {A : Type} : Response A :=
  Rejected "Request failed with status code 404".

Definition refused {A : Type} : Response A :=
  Rejected "connect ECONNREFUSED 127.0.0.1:32400".

(** A Plex server that knows the items of [library], each with the season
    indexes given, answers "not found" for any other key, and cannot be
    reached for the keys of [down]. *)
Definition plex (library : list (string * list Z)) (down : list string)
  : PlexAPI.t :=
  let answer {A : Type} (found : list Z → A) (key : string) : Response A :=
    if existsb (String.eqb key) down then refused
    else match List.find (λ entry, String.eqb key entry.1) library with
         | Some entry => Resolved (found entry.2)
         | None => notFound
         end in
  PlexAPI.mk (answer (λ _, PlexMetadata.mk 0))
             (answer (List.map PlexMetadata.mk)).

(** Services without Radarr or Sonarr servers. *)
Definition plexOnly (client : PlexAPI.t) : Services :=
  {| settings_radarr := [];
     settings_sonarr := [];
     plexClient := Some client;
     getMovie := λ _ _, notFound;
     getSeriesById := λ _ _, notFound |}.

Definition item (mediaType : MediaType) (status status4k : MediaStatus.t)
    (ratingKey ratingKey4k : option string) (seasons : list nat)
  : Media.t :=
  {| Media.id := 1;
     Media.mediaType := mediaType;
     Media.tmdbId := 603;
     Media.status := status;
     Media.status4k := status4k;
     Media.serviceId := None;
     Media.externalServiceId := None;
     Media.externalServiceSlug := None;
     Media.ratingKey := ratingKey;
     Media.serviceId4k := None;
     Media.externalServiceId4k := None;
     Media.externalServiceSlug4k := None;
     Media.ratingKey4k := ratingKey4k;
     Media.seasons := seasons |}.

Definition start (m : Media.t) (seasonObjs : list Season.t)
    (requests : list MediaRequest.t) (seasonRequests : list SeasonRequest.t)
  : State :=
  {| caches := emptyCaches;
     world :=
       {| media := m;
          seasonObjs := seasonObjs;
          db := {| mediaTable :=
                     {[ Media.id m := {| columns := m;
                                         seasonRows := seasonObjs |} ]};
                   requestTable := requests;
                   seasonRequestTable := seasonRequests |} |} |}.

(** *** A movie that left Plex *)

Definition emptyPlex : Services := plexOnly (plex [] []).

(** Recorded as PARTIALLY_AVAILABLE. *)
Definition partialMovie : State :=
  start (item movie MediaStatus.PARTIALLY_AVAILABLE MediaStatus.UNKNOWN
           (Some "101") None [])
    [] [] [].

(** Recorded as AVAILABLE. *)
Definition goneMovie : State :=
  start (item movie MediaStatus.AVAILABLE MediaStatus.UNKNOWN
           (Some "101") None [])
    [] [] [].

(** Recorded as AVAILABLE with no reference at all. *)
Definition unreferencedMovie : State :=
  start (item movie MediaStatus.AVAILABLE MediaStatus.UNKNOWN None None [])
    [] [] [].

(** *** A movie whose 4K copy left Plex, with one request per tier *)

Definition plexNon4k : Services := plexOnly (plex [("101", [])] []).

Definition movieRequests : list MediaRequest.t :=
  [ MediaRequest.mk 10 1 false MediaRequestStatus.APPROVED;
    MediaRequest.mk 11 1 true MediaRequestStatus.APPROVED ].

Definition movieLost4k : State :=
  start (item movie MediaStatus.AVAILABLE MediaStatus.AVAILABLE
           (Some "101") (Some "102") [])
    [] movieRequests [].

(** *** A show that lost season 1 everywhere and its 4K copy with it *)

(** Season 1 was available in both tiers, season 2 in non-4K only; Plex
    still has the non-4K show with season 2, the 4K show is gone. *)
Definition plexSeason2 : Services := plexOnly (plex [("201", [2])] []).

Definition showRequests : list MediaRequest.t :=
  [ MediaRequest.mk 10 1 false MediaRequestStatus.APPROVED ].

Definition showSeasonRequests : list SeasonRequest.t :=
  [ SeasonRequest.mk 20 10 1; SeasonRequest.mk 21 10 2 ].

Definition showLostSeason1 : State :=
  start (item tv MediaStatus.AVAILABLE MediaStatus.PARTIALLY_AVAILABLE
           (Some "201") (Some "202") [0; 1]%nat)
    [ Season.mk 1 MediaStatus.AVAILABLE MediaStatus.AVAILABLE;
      Season.mk 2 MediaStatus.AVAILABLE MediaStatus.UNKNOWN ]
    showRequests showSeasonRequests.

(** *** A show without a 4K copy that lost season 1 *)

Definition showNo4k : State :=
  start (item tv MediaStatus.AVAILABLE MediaStatus.UNKNOWN
           (Some "201") None [0; 1]%nat)
    [ Season.mk 1 MediaStatus.AVAILABLE MediaStatus.UNKNOWN;
      Season.mk 2 MediaStatus.AVAILABLE MediaStatus.UNKNOWN ]
    showRequests showSeasonRequests.

(** *** A show whose 4K copy left Plex while a 4K request is approved *)

(** Season 1 is available in both tiers; season 2 was requested in 4K and
    the request is approved. *)
Definition plexSeason1 : Services := plexOnly (plex [("201", [1])] []).

Definition showWith4kReferences : Media.t :=
  {| Media.id := 1;
     Media.mediaType := tv;
     Media.tmdbId := 1399;
     Media.status := MediaStatus.AVAILABLE;
     Media.status4k := MediaStatus.AVAILABLE;
     Media.serviceId := Some 0;
     Media.externalServiceId := None;
     Media.externalServiceSlug := Some "show";
     Media.ratingKey := Some "201";
     Media.serviceId4k := Some 1;
     Media.externalServiceId4k := None;
     Media.externalServiceSlug4k := Some "show";
     Media.ratingKey4k := Some "202";
     Media.seasons := [0%nat] |}.

Definition showLost4k : State :=
  start showWith4kReferences
    [ Season.mk 1 MediaStatus.AVAILABLE MediaStatus.AVAILABLE ]
    [ MediaRequest.mk 11 1 true MediaRequestStatus.APPROVED ]
    [ SeasonRequest.mk 22 11 2 ].

(** *** A show available in 4K only that lost a 4K season *)

Definition plex4kNoSeason : Services := plexOnly (plex [("202", [])] []).

Definition show4kOnly : State :=
  start (item tv MediaStatus.UNKNOWN MediaStatus.AVAILABLE
           None (Some "202") [0%nat])
    [ Season.mk 1 MediaStatus.UNKNOWN MediaStatus.AVAILABLE ]
    [] [].

(** *** Plex cannot be reached *)

(** The non-4K show lost season 1; the 4K server cannot be reached.
    Season 1 never was available in 4K. *)
Definition plex4kDown : Services :=
  plexOnly (plex [("201", [])] ["202"]).

Definition showSeason1Non4k : State :=
  start (item tv MediaStatus.AVAILABLE MediaStatus.AVAILABLE
           (Some "201") (Some "202") [0%nat])
    [ Season.mk 1 MediaStatus.AVAILABLE MediaStatus.UNKNOWN ]
    [] [].

(** Neither server can be reached. *)
Definition plexDown : Services := plexOnly (plex [] ["201"; "202"]).

Definition showBothTiers : State :=
  start (item tv MediaStatus.AVAILABLE MediaStatus.AVAILABLE
           (Some "201") (Some "202") [0%nat])
    [ Season.mk 1 MediaStatus.AVAILABLE MediaStatus.AVAILABLE ]
    [] [].

(** The non-4K server cannot be reached; the show has no 4K copy. *)
Definition plexNon4kDown : Services := plexOnly (plex [] ["201"]).

Definition showNon4kOnly : State :=
  start (item tv MediaStatus.AVAILABLE MediaStatus.UNKNOWN
           (Some "201") None [0%nat])
    [ Season.mk 1 MediaStatus.AVAILABLE MediaStatus.UNKNOWN ]
    [] [].

(** *** The catalogs of the further properties *)

(** The engine holds no Plex client: no admin is configured, and no earlier
    run of the engine found one. *)
Definition noClient : Services :=
  {| settings_radarr := [];
     settings_sonarr := [];
     plexClient := None;
     getMovie := λ _ _, notFound;
     getSeriesById := λ _ _, notFound |}.

(** A Plex server that times out; the configured timeout shows in the
    message of the error. *)
Definition slowPlex : Services :=
  plexOnly (PlexAPI.mk (λ _, Rejected "timeout of 40400ms exceeded")
                       (λ _, Rejected "timeout of 40400ms exceeded")).
(** Two non-4K Radarr servers, the second one with the sync switched off;
    only the second one still has the movie. *)
Definition radarrMain : DVRSettings.t := DVRSettings.mk 0 false true.
Definition radarrIdle : DVRSettings.t := DVRSettings.mk 1 false false.

Definition radarrPair (idleAnswer : Response RadarrMovie.t) : Services :=
  {| settings_radarr := [radarrMain; radarrIdle];
     settings_sonarr := [];
     plexClient := None;
     getMovie := λ server _,
       if (DVRSettings.id server =? 1)%Z then idleAnswer else notFound;
     getSeriesById := λ _ _, notFound |}.

Definition radarrMovie : State :=
  start {| Media.id := 1;
           Media.mediaType := movie;
           Media.tmdbId := 603;
           Media.status := MediaStatus.AVAILABLE;
           Media.status4k := MediaStatus.UNKNOWN;
           Media.serviceId := Some 1;
           Media.externalServiceId := Some 5;
           Media.externalServiceSlug := Some "603";
           Media.ratingKey := None;
           Media.serviceId4k := None;
           Media.externalServiceId4k := None;
           Media.externalServiceSlug4k := None;
           Media.ratingKey4k := None;
           Media.seasons := [] |}
    [] [] [].

(** A catalog of AVAILABLE movies without references, one per id. *)
Definition movieRow (id : Z) : MediaRow :=
  {| columns :=
       {| Media.id := id;
          Media.mediaType := movie;
          Media.tmdbId := id;
          Media.status := MediaStatus.AVAILABLE;
          Media.status4k := MediaStatus.UNKNOWN;
          Media.serviceId := None;
          Media.externalServiceId := None;
          Media.externalServiceSlug := None;
          Media.ratingKey := None;
          Media.serviceId4k := None;
          Media.externalServiceId4k := None;
          Media.externalServiceSlug4k := None;
          Media.ratingKey4k := None;
          Media.seasons := [] |};
     seasonRows := [] |}.

Definition movies (ids : list Z) : Database :=
  {| mediaTable := list_to_map ((λ id, (id, movieRow id)) <$> ids);
     requestTable := [];
     seasonRequestTable := [] |}.

Definition threeMovies : Database := movies [1; 2; 3].

(** A catalog of five AVAILABLE movies known by their Plex rating keys;
    Plex still has the first four of them. *)
Definition shelfRow (entry : Z * string) : MediaRow :=
  {| columns :=
       {| Media.id := entry.1;
          Media.mediaType := movie;
          Media.tmdbId := entry.1;
          Media.status := MediaStatus.AVAILABLE;
          Media.status4k := MediaStatus.UNKNOWN;
          Media.serviceId := None;
          Media.externalServiceId := None;
          Media.externalServiceSlug := None;
          Media.ratingKey := Some entry.2;
          Media.serviceId4k := None;
          Media.externalServiceId4k := None;
          Media.externalServiceSlug4k := None;
          Media.ratingKey4k := None;
          Media.seasons := [] |};
     seasonRows := [] |}.

Definition shelf : Database :=
  {| mediaTable :=
       list_to_map
         ((λ entry, (entry.1, shelfRow entry))
            <$> [(1, "101"); (2, "102"); (3, "103"); (4, "104");
                 (5, "105")]);
     requestTable := [];
     seasonRequestTable := [] |}.

Definition plexShelf : Services :=
  plexOnly (plex [("101", []); ("102", []); ("103", []); ("104", [])] []).

(** A catalog of two movies: the first recorded as AVAILABLE without
    references, the second one requested and still PENDING. *)
Definition pendingRow (id : Z) : MediaRow :=
  {| columns := Media.set_status MediaStatus.PENDING (columns (movieRow id));
     seasonRows := [] |}.

Definition mixedCatalog : Database :=
  {| mediaTable := <[1 := movieRow 1]> {[ 2 := pendingRow 2 ]};
     requestTable := [];
     seasonRequestTable := [] |}.
(** Two non-4K Sonarr servers, both with a series under the id 7: the first
    has files for season 1, the second, asked last, has none. *)
Definition sonarrFirst : DVRSettings.t := DVRSettings.mk 0 false true.
Definition sonarrLast : DVRSettings.t := DVRSettings.mk 1 false true.

Definition sonarrPair : Services :=
  {| settings_radarr := [];
     settings_sonarr := [sonarrFirst; sonarrLast];
     plexClient := None;
     getMovie := λ _ _, notFound;
     getSeriesById := λ server _,
       if (DVRSettings.id server =? 0)%Z
       then Resolved (SonarrSeries.mk [SonarrSeason.mk 1 (Some 10)] 10)
       else Resolved (SonarrSeries.mk [SonarrSeason.mk 1 (Some 0)] 0) |}.

Definition sonarrShow : State :=
  start {| Media.id := 1;
           Media.mediaType := tv;
           Media.tmdbId := 1399;
           Media.status := MediaStatus.AVAILABLE;
           Media.status4k := MediaStatus.UNKNOWN;
           Media.serviceId := Some 0;
           Media.externalServiceId := Some 7;
           Media.externalServiceSlug := Some "show";
           Media.ratingKey := None;
           Media.serviceId4k := None;
           Media.externalServiceId4k := None;
           Media.externalServiceSlug4k := None;
           Media.ratingKey4k := None;
           Media.seasons := [0%nat] |}
    [ Season.mk 1 MediaStatus.AVAILABLE MediaStatus.UNKNOWN ]
    [] [].

End Scenario.

(** * Properties *)

Local Open Scope list_scope.

(** ** The updaters as state transformers *)

Lemma mediaUpdater_exec (e e4k : bool) (w : World) :
  exec (mediaUpdater e e4k) w =
  let m := media w in
  let requests := findRequests (Media.id m) (db w) in
  let isTv := bool_decide (Media.mediaType m = tv) in
  let mediaStatus :=
    if isTv && negb e then findMediaStatus requests false
    else MediaStatus.UNKNOWN in
  let mediaStatus4k :=
    if isTv && negb e4k then findMediaStatus requests true
    else MediaStatus.UNKNOWN in
  let m1 := if availableOrPartial (Media.status m) && negb e
            then resetNon4k mediaStatus m else m in
  let m2 := if availableOrPartial (Media.status4k m1) && negb e4k
            then reset4k mediaStatus mediaStatus4k m1 else m1 in
  let d1 := save m2 (seasonObjs w) (db w) in
  {| media := m2; seasonObjs := seasonObjs w;
     db := if (0 <? length requests)%nat
              && bool_decide (Media.mediaType m = movie)
           then removeRequests requests d1 else d1 |}.
Proof.
  unfold exec, mediaUpdater, saveMedia, mbind, St_bind, mret, St_ret,
    gets, modify.
  simpl.
  destruct (availableOrPartial (Media.status (media w)) && negb e); simpl.
  all: destruct (availableOrPartial _ && negb e4k); simpl.
  all: destruct ((0 <? _)%nat && _); reflexivity.
Qed.

Lemma seasonUpdater_exec (ref : nat) (e e4k : bool) (w : World) :
  exec (seasonUpdater ref e e4k) w =
  match seasonObjs w !! ref with
  | None => w
  | Some season =>
    let m := media w in
    let filtered :=
      List.filter
        (λ '(_, request),
           (negb (MediaRequest.is4k request) && negb e
            && availableOrPartial (Season.status season))
           || (MediaRequest.is4k request && negb e4k
               && availableOrPartial (Season.status4k season)))
        (findSeasonRequests (Media.id m) (Season.seasonNumber season) (db w)) in
    let r := resetSeason e e4k season in
    let objs := <[ref := r.1]> (seasonObjs w) in
    if r.2 then
      let m' := Media.set_seasons (Media.seasons m ++ [ref]) m in
      let d1 := save m' objs (db w) in
      let d2 := if bool_decide (Media.status m = MediaStatus.AVAILABLE)
                   && negb e
                then update (Media.id m)
                       (Media.set_status MediaStatus.PARTIALLY_AVAILABLE) d1
                else d1 in
      let d3 := if bool_decide (Media.status4k m = MediaStatus.AVAILABLE)
                   && negb e4k
                then update (Media.id m)
                       (Media.set_status4k MediaStatus.PARTIALLY_AVAILABLE) d2
                else d2 in
      {| media := m'; seasonObjs := objs;
         db := if (0 <? length filtered)%nat
               then removeSeasonRequests filtered d3 else d3 |}
    else {| media := m; seasonObjs := objs; db := db w |}
  end.
Proof.
  unfold exec, seasonUpdater, saveMedia, mbind, St_bind, mret, St_ret,
    gets, modify.
  simpl.
  destruct (seasonObjs w !! ref) as [season|]; [|by destruct w].
  simpl. destruct (resetSeason e e4k season) as [season' [|]]; simpl; [|done].
  destruct (bool_decide (Media.status (media w) = _) && negb e); simpl.
  all: destruct (bool_decide (Media.status4k (media w) = _) && negb e4k); simpl.
  all: destruct (0 <? _)%nat; reflexivity.
Qed.

(** What [resetSeason] computes, tier by tier: a status is reset exactly
    when it is available and the season does not exist for that tier. *)
Lemma resetSeason_spec (e e4k : bool) (season : Season.t) :
  resetSeason e e4k season =
  (Season.mk (Season.seasonNumber season)
     (if availableOrPartial (Season.status season) && negb e
      then MediaStatus.UNKNOWN else Season.status season)
     (if availableOrPartial (Season.status4k season) && negb e4k
      then MediaStatus.UNKNOWN else Season.status4k season),
   (availableOrPartial (Season.status season) && negb e)
   || (availableOrPartial (Season.status4k season) && negb e4k)).
Proof.
  destruct season as [n s s4k].
  destruct s, s4k, e, e4k; reflexivity.
Qed.

Lemma resetSeason_unchanged (e e4k : bool) (season : Season.t) :
  (resetSeason e e4k season).2 = false → (resetSeason e e4k season).1 = season.
Proof.
  rewrite resetSeason_spec. simpl. intros H.
  apply orb_false_elim in H as [-> ->]. by destruct season.
Qed.

(** ** [findMediaStatus] follows the wording of the specification *)

Lemma existsb_hasRequest (requests : list MediaRequest.t) (tier4k : bool)
    (s : MediaRequestStatus.t) :
  existsb (λ request, bool_decide (MediaRequest.status request = s))
    (List.filter (λ request, Bool.eqb (MediaRequest.is4k request) tier4k)
       requests) = true
  ↔ hasRequest requests tier4k s.
Proof.
  rewrite existsb_exists. unfold hasRequest. split.
  - intros (r & Hin & Hs). apply filter_In in Hin as [Hin Ht].
    exists r. rewrite list_elem_of_In.
    apply bool_decide_eq_true in Hs. apply eqb_prop in Ht. done.
  - intros (r & Hin & Ht & Hs). exists r. split.
    + apply filter_In. rewrite <- list_elem_of_In. split; [done|].
      rewrite Ht. apply eqb_reflx.
    + by apply bool_decide_eq_true.
Qed.

Lemma findMediaStatus_nextStatus (requests : list MediaRequest.t)
    (tier4k : bool) :
  nextStatus requests tier4k (findMediaStatus requests tier4k).
Proof.
  unfold findMediaStatus.
  destruct (existsb _ _) eqn:Ha.
  - apply next_processing. by apply existsb_hasRequest.
  - destruct (existsb _ (List.filter _ requests)) eqn:Hp in |- *.
    + apply next_pending.
      * intros H. apply existsb_hasRequest in H. congruence.
      * by apply existsb_hasRequest.
    + apply next_unknown; intros H; apply existsb_hasRequest in H; congruence.
Qed.

(** ** The loop body of [run], unfolded *)

Lemma runMovie_unfold (env : Services) (st : State) :
  let m := media (world st) in
  let p := mediaExistsInPlex env m (seasonObjs (world st)) (caches st) in
  let r := mediaExistsInRadarr env m in
  let movieExists := p.1.1.1.1 || r.1 in
  let movieExists4k := p.1.1.1.2 || r.2 in
  runMovie env st =
  ((movieExists, movieExists4k),
   {| caches := p.2;
      world :=
        if (negb movieExists
            && bool_decide (Media.status m = MediaStatus.AVAILABLE))
           || (negb movieExists4k
               && bool_decide (Media.status4k m = MediaStatus.AVAILABLE))
        then exec (mediaUpdater movieExists movieExists4k) (world st)
        else world st |}).
Proof.
  simpl. unfold runMovie, mbind, St_bind, mret, St_ret, gets, withCaches,
    withWorld, exec.
  destruct (mediaExistsInPlex _ _ _ _) as [[[[p p4k] pm] pm4k] c1]. simpl.
  destruct (mediaExistsInRadarr _ _) as [r r4k]. simpl.
  destruct (_ || _); simpl; [|done].
  by destruct (mediaUpdater _ _ _).
Qed.

Lemma runShow_unfold (env : Services) (st : State) :
  let m := media (world st) in
  let objs := seasonObjs (world st) in
  let p := mediaExistsInPlex env m objs (caches st) in
  let s := mediaExistsInSonarr env m objs p.2 in
  let showExists := p.1.1.1.1 || s.1.1.1.1 in
  let showExists4k := p.1.1.1.2 || s.1.1.1.2 in
  let loop :=
    forOf (Media.seasons m)
      (runSeason p.1.1.2 p.1.2 s.1.1.2 s.1.2) (∅, ∅)
      {| caches := s.2; world := world st |} in
  let m' := media (world loop.2) in
  runShow env st =
  ((showExists, showExists4k, loop.1.1, loop.1.2),
   {| caches := caches loop.2;
      world :=
        if (negb showExists && availableOrPartial (Media.status m'))
           || (negb showExists4k && availableOrPartial (Media.status4k m'))
        then exec (mediaUpdater showExists showExists4k) (world loop.2)
        else world loop.2 |}).
Proof.
  simpl. unfold runShow, mbind, St_bind, mret, St_ret, gets, withCaches,
    withWorld, exec.
  destruct (mediaExistsInPlex _ _ _ _) as [[[[p p4k] pm] pm4k] c1]. simpl.
  destruct (mediaExistsInSonarr _ _ _ _) as [[[[s s4k] sm] sm4k] c2]. simpl.
  destruct (forOf _ _ _ _) as [[seasonMap seasonMap4k] st2]. simpl.
  destruct (_ || _); simpl; [|by destruct st2].
  by destruct (mediaUpdater _ _ _).
Qed.

Lemma runSeason_unfold (pm pm4k : option (gmap Z bool)) (sm sm4k : gmap Z bool)
    (ref : nat) (maps : gmap Z bool * gmap Z bool) (st : State) :
  runSeason pm pm4k sm sm4k ref maps st =
  match seasonObjs (world st) !! ref with
  | None => (maps, st)
  | Some season =>
    let n := Season.seasonNumber season in
    let v := readFlagOpt pm n || readFlag sm n in
    let v4k := readFlagOpt pm4k n || readFlag sm4k n in
    ((<[n := v]> maps.1, <[n := v4k]> maps.2),
     {| caches := caches st;
        world :=
          if (negb v && availableOrPartial (Season.status season))
             || (negb v4k && availableOrPartial (Season.status season))
          then exec (seasonUpdater ref v v4k) (world st)
          else world st |})
  end.
Proof.
  unfold runSeason, mbind, St_bind, mret, St_ret, gets, withWorld, exec.
  destruct (seasonObjs (world st) !! ref) as [season|]; [|done].
  simpl. unfold readFlag at 1 3 5 7 9 11.
  rewrite !lookup_insert_eq. simpl.
  destruct (_ || _); simpl; [|by destruct st].
  by destruct (seasonUpdater _ _ _ _).
Qed.

(** ** Loops *)

(** Induction over [forOf]: the invariant speaks of the elements already
    visited. *)
Lemma forOf_ind {S A B : Type} (I : list A → B → S → Prop)
    (body : A → B → St S B) (l : list A) :
  (∀ visited x acc s,
     x ∈ l → I visited acc s →
     I (visited ++ [x]) (body x acc s).1 (body x acc s).2) →
  ∀ visited acc s,
    I visited acc s →
    I (visited ++ l) (forOf l body acc s).1 (forOf l body acc s).2.
Proof.
  induction l as [|x l IH]; intros Hstep visited acc s HI; simpl.
  - by rewrite app_nil_r.
  - unfold mbind, St_bind.
    pose proof (Hstep visited x acc s (list_elem_of_here x l) HI) as Hx.
    destruct (body x acc s) as [acc' s']. simpl in Hx.
    replace (visited ++ x :: l) with ((visited ++ [x]) ++ l)
      by (by rewrite <- app_assoc).
    apply IH; [|done].
    intros visited' y acc0 s0 Hy. apply Hstep. by apply list_elem_of_further.
Qed.

(** ** The columns of the entity *)

#[local] Instance sameColumns_equiv : Equivalence sameColumns.
Proof.
  unfold sameColumns. split.
  - by intros ?.
  - by intros ? ?.
  - intros ? ? ? ? ?. congruence.
Qed.

Lemma sameColumns_fields (m m' : Media.t) :
  sameColumns m m' →
  Media.id m' = Media.id m ∧ Media.mediaType m' = Media.mediaType m
  ∧ Media.status m' = Media.status m ∧ Media.status4k m' = Media.status4k m
  ∧ Media.ratingKey m' = Media.ratingKey m
  ∧ Media.ratingKey4k m' = Media.ratingKey4k m
  ∧ Media.externalServiceId m' = Media.externalServiceId m
  ∧ Media.externalServiceId4k m' = Media.externalServiceId4k m.
Proof.
  destruct m, m'. unfold sameColumns. simpl. intros [=]. by subst.
Qed.

Lemma seasonUpdater_columns (ref : nat) (e e4k : bool) (w : World) :
  sameColumns (media w) (media (exec (seasonUpdater ref e e4k) w)).
Proof.
  rewrite seasonUpdater_exec.
  destruct (seasonObjs w !! ref); [|done]. simpl.
  by destruct (resetSeason e e4k t).2.
Qed.

Lemma seasonUpdater_numbers (ref : nat) (e e4k : bool) (w : World) :
  Season.seasonNumber <$> seasonObjs (exec (seasonUpdater ref e e4k) w)
  = Season.seasonNumber <$> seasonObjs w.
Proof.
  rewrite seasonUpdater_exec.
  destruct (seasonObjs w !! ref) as [season|] eqn:Href; [|done]. simpl.
  assert (Season.seasonNumber <$> <[ref := (resetSeason e e4k season).1]>
                                   (seasonObjs w)
          = Season.seasonNumber <$> seasonObjs w) as Hn.
  { rewrite list_fmap_insert. apply list_insert_id.
    rewrite list_lookup_fmap, Href. simpl.
    by rewrite resetSeason_spec. }
  by destruct (resetSeason e e4k season).2.
Qed.

(** The statuses of a tier survive [seasonUpdater] when the season is not
    both available and missing for that tier. *)
Lemma seasonUpdater_statuses (tier4k : bool) (ref : nat) (e e4k : bool)
    (w : World) :
  (∀ season, seasonObjs w !! ref = Some season →
     availableOrPartial (seasonStatusOf tier4k season) = true →
     pick tier4k (e, e4k) = true) →
  seasonStatusOf tier4k <$> seasonObjs (exec (seasonUpdater ref e e4k) w)
  = seasonStatusOf tier4k <$> seasonObjs w.
Proof.
  intros H. rewrite seasonUpdater_exec.
  destruct (seasonObjs w !! ref) as [season|] eqn:Href; [|done]. simpl.
  specialize (H season eq_refl).
  assert (seasonStatusOf tier4k <$> <[ref := (resetSeason e e4k season).1]>
                                      (seasonObjs w)
          = seasonStatusOf tier4k <$> seasonObjs w) as Hn.
  { rewrite list_fmap_insert. apply list_insert_id.
    rewrite list_lookup_fmap, Href. simpl. f_equal.
    rewrite resetSeason_spec. simpl.
    destruct tier4k; simpl in *.
    - destruct (availableOrPartial (Season.status4k season)); [|done].
      by rewrite H.
    - destruct (availableOrPartial (Season.status season)); [|done].
      by rewrite H. }
  by destruct (resetSeason e e4k season).2.
Qed.

(** ** The season loop of [run] *)

Section SeasonLoop.
Context (pm pm4k : option (gmap Z bool)) (sm sm4k : gmap Z bool).

Let v (n : Z) : bool := readFlagOpt pm n || readFlag sm n.
Let v4k (n : Z) : bool := readFlagOpt pm4k n || readFlag sm4k n.

Lemma runSeason_frame (ref : nat) (maps : gmap Z bool * gmap Z bool)
    (st : State) :
  let r := runSeason pm pm4k sm sm4k ref maps st in
  caches r.2 = caches st
  ∧ sameColumns (media (world st)) (media (world r.2))
  ∧ Season.seasonNumber <$> seasonObjs (world r.2)
    = Season.seasonNumber <$> seasonObjs (world st).
Proof.
  simpl. rewrite runSeason_unfold.
  destruct (seasonObjs (world st) !! ref) as [season|]; [|done]. simpl.
  destruct (_ || _); [|done].
  split; [done|]. split.
  - apply seasonUpdater_columns.
  - apply seasonUpdater_numbers.
Qed.

(** What the loop leaves behind: the caches and the columns of the entity
    are untouched, and the maps hold the merged verdict of every season
    visited. *)
Lemma seasonLoop_spec (l : list nat) (st : State) :
  let loop := forOf l (runSeason pm pm4k sm sm4k) (∅, ∅) st in
  caches loop.2 = caches st
  ∧ sameColumns (media (world st)) (media (world loop.2))
  ∧ Season.seasonNumber <$> seasonObjs (world loop.2)
    = Season.seasonNumber <$> seasonObjs (world st)
  ∧ ∀ ref season,
      ref ∈ l → seasonObjs (world st) !! ref = Some season →
      loop.1.1 !! Season.seasonNumber season
      = Some (v (Season.seasonNumber season))
      ∧ loop.1.2 !! Season.seasonNumber season
        = Some (v4k (Season.seasonNumber season)).
Proof.
  pose (I := λ (visited : list nat) (maps : gmap Z bool * gmap Z bool)
               (s : State),
    caches s = caches st
    ∧ sameColumns (media (world st)) (media (world s))
    ∧ Season.seasonNumber <$> seasonObjs (world s)
      = Season.seasonNumber <$> seasonObjs (world st)
    ∧ ∀ ref season,
        ref ∈ visited → seasonObjs (world st) !! ref = Some season →
        maps.1 !! Season.seasonNumber season
        = Some (v (Season.seasonNumber season))
        ∧ maps.2 !! Season.seasonNumber season
          = Some (v4k (Season.seasonNumber season))).
  apply (forOf_ind I (runSeason pm pm4k sm sm4k) l) with (visited := []).
  - intros visited x acc s _ (Hc & Hm & Hn & Hmaps).
    destruct (runSeason_frame x acc s) as (Hc' & Hm' & Hn').
    split; [congruence|]. split; [by etransitivity|].
    split; [congruence|].
    intros ref season Hin Href.
    rewrite runSeason_unfold.
    destruct (seasonObjs (world s) !! x) as [cur|] eqn:Hx; simpl.
    + apply elem_of_app in Hin as [Hin|Hin].
      * destruct (Hmaps ref season Hin Href) as [H1 H2].
        destruct (decide (Season.seasonNumber cur
                          = Season.seasonNumber season)) as [->|Hne].
        -- by rewrite !lookup_insert_eq.
        -- by rewrite !lookup_insert_ne.
      * apply list_elem_of_singleton in Hin as ->.
        assert (Season.seasonNumber cur = Season.seasonNumber season) as ->.
        { apply (f_equal (λ l, l !! x)) in Hn.
          rewrite !list_lookup_fmap, Hx, Href in Hn. simpl in Hn.
          congruence. }
        by rewrite !lookup_insert_eq.
    + apply elem_of_app in Hin as [Hin|Hin]; [by apply (Hmaps ref season)|].
      apply list_elem_of_singleton in Hin as ->.
      apply (f_equal (λ l, l !! x)) in Hn.
      rewrite !list_lookup_fmap, Hx, Href in Hn. done.
  - split; [done|]. split; [done|]. split; [done|].
    intros ref season Hin. by apply elem_of_nil in Hin.
Qed.

(** The statuses of a tier survive the loop when every season visited
    that is available for the tier has a true merged verdict. *)
Lemma seasonLoop_statuses (tier4k : bool) (l : list nat) (st : State) :
  (∀ ref season,
     ref ∈ l → seasonObjs (world st) !! ref = Some season →
     availableOrPartial (seasonStatusOf tier4k season) = true →
     pick tier4k (v (Season.seasonNumber season),
                  v4k (Season.seasonNumber season)) = true) →
  let loop := forOf l (runSeason pm pm4k sm sm4k) (∅, ∅) st in
  seasonStatusOf tier4k <$> seasonObjs (world loop.2)
  = seasonStatusOf tier4k <$> seasonObjs (world st).
Proof.
  intros Hok.
  pose (I := λ (visited : list nat) (maps : gmap Z bool * gmap Z bool)
               (s : State),
    Season.seasonNumber <$> seasonObjs (world s)
    = Season.seasonNumber <$> seasonObjs (world st)
    ∧ seasonStatusOf tier4k <$> seasonObjs (world s)
      = seasonStatusOf tier4k <$> seasonObjs (world st)).
  apply (forOf_ind I (runSeason pm pm4k sm sm4k) l) with (visited := []);
    [|done].
  intros visited x acc s Hin [Hn Hs].
  destruct (runSeason_frame x acc s) as (_ & _ & Hn').
  split; [congruence|]. rewrite <- Hs.
  rewrite runSeason_unfold.
  destruct (seasonObjs (world s) !! x) as [cur|] eqn:Hx; [|done]. simpl.
  destruct (_ || _); [|done].
  apply seasonUpdater_statuses. intros season Hcur Hav.
  assert (season = cur) as -> by congruence.
  (* the object visited has the number and the status of the original *)
  apply (f_equal (λ l, l !! x)) in Hn. apply (f_equal (λ l, l !! x)) in Hs.
  rewrite !list_lookup_fmap, Hx in Hn. rewrite !list_lookup_fmap, Hx in Hs.
  simpl in Hn, Hs.
  destruct (seasonObjs (world st) !! x) as [orig|] eqn:Ho; [|done].
  simpl in Hn, Hs. injection Hn as Hn. injection Hs as Hs.
  rewrite Hn. apply (Hok x orig Hin Ho). by rewrite <- Hs.
Qed.

End SeasonLoop.

(** ** The existence checks, unfolded *)

Section ExistenceFacts.
Context (env : Services).

Lemma plexTry_flags (mediaType : MediaType) (ratingKey : option string)
    (c : Caches) :
  (plexTry env mediaType ratingKey c).1 = plexFlags env mediaType ratingKey.
Proof.
  unfold plexTry, plexFlags, mbind, St_bind, mret, St_ret, modify.
  destruct (truthyString ratingKey); [|done].
  destruct (plexClient env) as [client|].
  - destruct (PlexAPI.getMetadata client s); [|done].
    destruct (bool_decide (mediaType = tv)); [|done].
    by destruct (PlexAPI.getChildrenMetadata client s).
  - by destruct (bool_decide (mediaType = tv)).
Qed.

Lemma mediaExistsInPlex_unfold (m : Media.t) (objs : list Season.t)
    (c : Caches) :
  let f := plexFlags env (Media.mediaType m) (Media.ratingKey m) in
  let f4k := plexFlags env (Media.mediaType m) (Media.ratingKey4k m) in
  let c2 := (plexTry env (Media.mediaType m) (Media.ratingKey4k m)
               (plexTry env (Media.mediaType m) (Media.ratingKey m) c).2).2 in
  mediaExistsInPlex env m objs c =
  if bool_decide (Media.mediaType m = movie)
  then ((f.1, f4k.1, None, None), c2)
  else
    let maps := seasonMaps (seasonExistsInPlex m) (seasonsOf m objs)
                  f.2 f4k.2 c2 in
    ((f.1, f4k.1, Some maps.1.1, Some maps.1.2), maps.2).
Proof.
  simpl. unfold mediaExistsInPlex, mbind, St_bind, mret, St_ret.
  rewrite <- (plexTry_flags _ _ c).
  destruct (plexTry env _ (Media.ratingKey m) c) as [[e p] c1]. simpl.
  rewrite <- (plexTry_flags _ _ c1).
  destruct (plexTry env _ (Media.ratingKey4k m) c1) as [[e4k p4k] c2]. simpl.
  destruct (bool_decide (Media.mediaType m = movie)); [done|].
  by destruct (seasonMaps _ _ _ _ _) as [[map map4k] c3].
Qed.

Lemma sonarrTry_flags (tier4k : bool) (server : DVRSettings.t)
    (externalServiceId : option Z) (flags : bool * bool) (c : Caches) :
  (sonarrTry env tier4k server externalServiceId flags c).1
  = sonarrFlags env tier4k externalServiceId flags server.
Proof.
  unfold sonarrTry, sonarrFlags, mbind, St_bind, mret, St_ret, modify.
  destruct (if Bool.eqb _ _ then _ else _); [|done].
  by destruct (getSeriesById env server z).
Qed.

(** The server loop of [mediaExistsInSonarr]: each tier folds its own flags
    over the servers. *)
Lemma sonarrServers_flags (m : Media.t) (servers : list DVRSettings.t)
    (flags flags4k : bool * bool) (c : Caches) :
  (forOf servers
     (λ server '(flags, flags4k),
        flags' ← sonarrTry env false server (Media.externalServiceId m) flags;
        flags4k' ← sonarrTry env true server (Media.externalServiceId4k m)
                     flags4k;
        mret (flags', flags4k'))
     (flags, flags4k) c).1
  = (fold_left (sonarrFlags env false (Media.externalServiceId m)) servers flags,
     fold_left (sonarrFlags env true (Media.externalServiceId4k m)) servers
       flags4k).
Proof.
  revert flags flags4k c.
  induction servers as [|server servers IH]; intros flags flags4k c; [done|].
  simpl. unfold mbind, St_bind, mret, St_ret.
  rewrite <- (sonarrTry_flags false server _ flags c).
  destruct (sonarrTry env false server _ flags c) as [f c1]. simpl.
  rewrite <- (sonarrTry_flags true server _ flags4k c1).
  destruct (sonarrTry env true server _ flags4k c1) as [f4k c2]. simpl.
  apply IH.
Qed.

Lemma mediaExistsInSonarr_unfold (m : Media.t) (objs : list Season.t)
    (c : Caches) :
  let f := fold_left (sonarrFlags env false (Media.externalServiceId m))
             (sonarrServers env) (false, false) in
  let f4k := fold_left (sonarrFlags env true (Media.externalServiceId4k m))
               (sonarrServers env) (false, false) in
  ∃ c2,
    let maps := seasonMaps (seasonExistsInSonarr m) (seasonsOf m objs)
                  f.2 f4k.2 c2 in
    mediaExistsInSonarr env m objs c
    = ((f.1, f4k.1, maps.1.1, maps.1.2), maps.2).
Proof.
  simpl. unfold mediaExistsInSonarr, mbind, St_bind, mret, St_ret.
  pose proof (sonarrServers_flags m (sonarrServers env) (false, false)
                (false, false) c) as H.
  destruct (forOf _ _ _ c) as [[[e p] [e4k p4k]] c2]. simpl in H.
  injection H as <- <-. exists c2. simpl.
  by destruct (seasonMaps _ _ _ _ _) as [[map map4k] c3].
Qed.

(** [mediaExistsInRadarr]: each tier folds its own flag over the servers. *)
Lemma radarrServers_flags (m : Media.t) (servers : list DVRSettings.t)
    (e e4k : bool) :
  fold_left
    (λ '(existsInRadarr, existsInRadarr4k) server,
       (radarrTry env false server (Media.externalServiceId m) existsInRadarr,
        radarrTry env true server (Media.externalServiceId4k m)
          existsInRadarr4k))
    servers (e, e4k)
  = (fold_left (λ e server,
                  radarrTry env false server (Media.externalServiceId m) e)
       servers e,
     fold_left (λ e server,
                  radarrTry env true server (Media.externalServiceId4k m) e)
       servers e4k).
Proof.
  revert e e4k. induction servers as [|server servers IH]; intros e e4k.
  - done.
  - simpl. apply IH.
Qed.

Lemma mediaExistsInRadarr_unfold (m : Media.t) :
  mediaExistsInRadarr env m
  = (fold_left (λ e server,
                  radarrTry env false server (Media.externalServiceId m) e)
       (radarrServers env) false,
     fold_left (λ e server,
                  radarrTry env true server (Media.externalServiceId4k m) e)
       (radarrServers env) false).
Proof. apply radarrServers_flags. Qed.

End ExistenceFacts.

(** ** The item transition *)

Lemma runMedia_exec (env : Services) (st : State) :
  exec (runMedia env) st =
  match Media.mediaType (media (world st)) with
  | movie => exec (runMovie env) st
  | tv => exec (runShow env) st
  end.
Proof.
  unfold exec, runMedia, mbind, St_bind, mret, St_ret, gets. simpl.
  destruct (Media.mediaType (media (world st))).
  - by destruct (runMovie env st).
  - by destruct (runShow env st).
Qed.

Lemma storedStatus_save (tier4k : bool) (m : Media.t) (objs : list Season.t)
    (d : Database) :
  storedStatus tier4k (Media.id m) (save m objs d) = Some (statusOf tier4k m).
Proof.
  unfold storedStatus, save, setMediaTable. simpl.
  by rewrite lookup_insert_eq.
Qed.

Lemma storedStatus_removeRequests (tier4k : bool) (id : Z)
    (requests : list MediaRequest.t) (d : Database) :
  storedStatus tier4k id (removeRequests requests d) = storedStatus tier4k id d.
Proof. done. Qed.

(** After [mediaUpdater] the row of the item holds the statuses of the
    entity. *)
Lemma mediaUpdater_stored (tier4k e e4k : bool) (w : World) :
  let w' := exec (mediaUpdater e e4k) w in
  Media.id (media w') = Media.id (media w)
  ∧ storedStatus tier4k (Media.id (media w)) (db w')
    = Some (statusOf tier4k (media w')).
Proof.
  simpl. rewrite mediaUpdater_exec. simpl.
  set (m1 := if _ && negb e then _ else media w).
  set (m2 := if _ && negb e4k then _ else m1).
  assert (Media.id m2 = Media.id (media w)) as Hid.
  { subst m2 m1.
    repeat match goal with
           | |- context [if ?b then _ else _] => destruct b
           end; reflexivity. }
  split; [done|].
  rewrite <- Hid at 1.
  destruct (_ && bool_decide _).
  - rewrite storedStatus_removeRequests. apply storedStatus_save.
  - apply storedStatus_save.
Qed.

Lemma findMediaStatus_downgraded (requests : list MediaRequest.t)
    (is4k : bool) :
  downgraded (findMediaStatus requests is4k).
Proof.
  unfold findMediaStatus, downgraded.
  destruct (existsb _ _); [tauto|]. destruct (existsb _ _); tauto.
Qed.

(** The status [mediaUpdater] writes on a tier that is available and does
    not exist. *)
Lemma mediaUpdater_status (tier4k e e4k : bool) (w : World) :
  availableOrPartial (statusOf tier4k (media w)) = true →
  pick tier4k (e, e4k) = false →
  statusOf tier4k (media (exec (mediaUpdater e e4k) w))
  = if bool_decide (Media.mediaType (media w) = tv)
    then findMediaStatus (findRequests (Media.id (media w)) (db w)) tier4k
    else MediaStatus.UNKNOWN.
Proof.
  intros Hav Hex. rewrite mediaUpdater_exec. simpl.
  destruct tier4k; simpl in *; subst.
  - (* 4K: the non-4K branch leaves [status4k] alone *)
    assert (Hkeep : ∀ (b : bool) s,
      Media.status4k (if b then resetNon4k s (media w) else media w)
      = Media.status4k (media w)) by (by intros [] ?).
    rewrite Hkeep, Hav. simpl. by rewrite andb_true_r.
  - rewrite Hav. simpl.
    assert (Hkeep : ∀ (b : bool) s s4k m,
      Media.status (if b then reset4k s s4k m else m) = Media.status m)
      by (by intros [] ? ? ?).
    rewrite Hkeep. simpl. by rewrite andb_true_r.
Qed.

(** A tier that is available and does not exist leaves [mediaUpdater]
    downgraded. *)
Lemma mediaUpdater_downgrades (tier4k e e4k : bool) (w : World) :
  availableOrPartial (statusOf tier4k (media w)) = true →
  pick tier4k (e, e4k) = false →
  downgraded (statusOf tier4k (media (exec (mediaUpdater e e4k) w))).
Proof.
  intros Hav Hex. rewrite mediaUpdater_status by done.
  destruct (bool_decide _); [apply findMediaStatus_downgraded | by left].
Qed.

(** A tier that exists is left alone by [mediaUpdater]. *)
Lemma mediaUpdater_keeps (tier4k e e4k : bool) (w : World) :
  pick tier4k (e, e4k) = true →
  statusOf tier4k (media (exec (mediaUpdater e e4k) w))
  = statusOf tier4k (media w).
Proof.
  intros Hex. rewrite mediaUpdater_exec. simpl.
  destruct tier4k; simpl in *; subst.
  - rewrite andb_false_r. by destruct (_ && negb e).
  - rewrite andb_false_r. by destruct (_ && negb e4k).
Qed.

(** ** One item of a run: the item transition *)

(** An item whose tier is available and gone is downgraded once the test of
    [run] lets it through to [mediaUpdater]; a movie is reset to UNKNOWN. *)
Lemma runMedia_downgrades (env : Services) (st : State)
    (tier4k : bool) :
  let m := media (world st) in
  availableOrPartial (statusOf tier4k m) = true →
  pick tier4k (itemExists env st) = false →
  Media.mediaType m = tv
  ∨ statusOf tier4k m = MediaStatus.AVAILABLE
  ∨ (statusOf (negb tier4k) m = MediaStatus.AVAILABLE
     ∧ pick (negb tier4k) (itemExists env st) = false) →
  let w' := world (exec (runMedia env) st) in
  downgraded (statusOf tier4k (media w'))
  ∧ (Media.mediaType m = movie
     → statusOf tier4k (media w') = MediaStatus.UNKNOWN)
  ∧ storedStatus tier4k (Media.id m) (db w')
    = Some (statusOf tier4k (media w')).
Proof.
  intros m Hav Hex Hgate w'.
  assert (∀ w e e4k,
            availableOrPartial (statusOf tier4k (media w)) = true →
            pick tier4k (e, e4k) = false →
            Media.id (media w) = Media.id m →
            Media.mediaType (media w) = Media.mediaType m →
            let w2 := exec (mediaUpdater e e4k) w in
            downgraded (statusOf tier4k (media w2))
            ∧ (Media.mediaType m = movie
               → statusOf tier4k (media w2) = MediaStatus.UNKNOWN)
            ∧ storedStatus tier4k (Media.id m) (db w2)
              = Some (statusOf tier4k (media w2))) as Hupd.
  { intros w e e4k Hav' Hex' Hid Hty. simpl.
    pose proof (mediaUpdater_downgrades tier4k e e4k w Hav' Hex') as Hd.
    destruct (mediaUpdater_stored tier4k e e4k w) as [_ Hs].
    rewrite Hid in Hs. split; [done|]. split; [|done].
    intros Hmovie. rewrite mediaUpdater_status by done.
    by rewrite Hty, Hmovie. }
  subst w'. rewrite runMedia_exec. unfold itemExists in *.
  fold m in Hex, Hgate |- *.
  destruct (Media.mediaType m) eqn:Hty.
  - (* a movie: the test of [run] reads AVAILABLE only *)
    unfold exec, eval in *. rewrite runMovie_unfold in *. simpl in *.
    fold m in Hex, Hgate |- *.
    set (movieExists := _ || (mediaExistsInRadarr env m).1) in *.
    set (movieExists4k := _ || (mediaExistsInRadarr env m).2) in *.
    assert ((negb movieExists
             && bool_decide (Media.status m = MediaStatus.AVAILABLE))
            || (negb movieExists4k
                && bool_decide (Media.status4k m = MediaStatus.AVAILABLE))
            = true) as ->.
    { destruct Hgate as [?|[Ha|[Ha Hex']]]; [done| |];
        destruct tier4k; simpl in *; rewrite ?Hex, ?Hex', ?Ha; simpl;
        rewrite ?bool_decide_eq_true_2 by done;
        by rewrite ?orb_true_r. }
    by apply Hupd.
  - (* a show *)
    unfold exec, eval in *. rewrite runShow_unfold in *. simpl in *.
    fold m in Hex |- *.
    set (p := mediaExistsInPlex env m _ _) in *.
    set (s := mediaExistsInSonarr env m _ _) in *.
    set (loop := forOf _ _ _ _) in *.
    destruct (seasonLoop_spec p.1.1.2 p.1.2 s.1.1.2 s.1.2 (Media.seasons m)
                {| caches := s.2; world := world st |})
      as (_ & Hcols & _).
    fold loop in Hcols. simpl in Hcols. fold m in Hcols.
    apply sameColumns_fields in Hcols
      as (Hid & Hty' & Hst & Hst4k & _).
    assert (statusOf tier4k (media (world loop.2)) = statusOf tier4k m) as Hs.
    { by destruct tier4k. }
    set (showExists := _ || s.1.1.1.1) in *.
    set (showExists4k := _ || s.1.1.1.2) in *.
    assert ((negb showExists
             && availableOrPartial (Media.status (media (world loop.2))))
            || (negb showExists4k
                && availableOrPartial (Media.status4k (media (world loop.2))))
            = true) as ->.
    { rewrite Hst, Hst4k.
      destruct tier4k; simpl in *; rewrite Hex, Hav; simpl;
        by rewrite ?orb_true_r. }
    apply Hupd; [by rewrite Hs| |done|congruence].
    by destruct tier4k.
Qed.


(** ** Probes that are skipped *)

Lemma radarrTry_skipped (env : Services) (tier4k : bool)
    (servers : list DVRSettings.t) (e : bool) :
  fold_left (λ e server, radarrTry env tier4k server None e) servers e = e.
Proof.
  induction servers as [|server servers IH]; [done|]. simpl.
  unfold radarrTry at 2. simpl. by destruct (Bool.eqb _ _).
Qed.

(** The verdicts of a movie, tier by tier. *)
Lemma itemExists_movie (env : Services) (st : State) (tier4k : bool) :
  let m := media (world st) in
  Media.mediaType m = movie →
  pick tier4k (itemExists env st)
  = (plexFlags env movie (ratingKeyOf tier4k m)).1
    || fold_left (λ e server,
                    radarrTry env tier4k server (externalServiceIdOf tier4k m) e)
         (radarrServers env) false.
Proof.
  intros m Hty. unfold itemExists, eval. fold m. rewrite Hty.
  rewrite runMovie_unfold. simpl. fold m.
  rewrite mediaExistsInPlex_unfold, mediaExistsInRadarr_unfold, Hty. simpl.
  by destruct tier4k.
Qed.

(** ** Probes that fail transiently *)

Section TransientFacts.
Context (env : Services).

Lemma plexFlags_transient (m : Media.t) (tier4k : bool) :
  plexProbe env m tier4k = Some true →
  plexFlags env (Media.mediaType m) (ratingKeyOf tier4k m) = (true, true)
  ∧ is_Some (truthyString (ratingKeyOf tier4k m)).
Proof.
  unfold plexProbe, plexFlags.
  destruct (truthyString _) as [key|]; [|done]. simpl.
  destruct (plexClient env) as [client|]; [|done]. simpl.
  destruct (PlexAPI.getMetadata client key) as [?|message]; [done|].
  simpl. intros [= Ht]. unfold plexCatch. rewrite Ht. eauto.
Qed.

Lemma plexFlags_not_probed (m : Media.t) (tier4k : bool) :
  plexProbe env m tier4k = None →
  plexFlags env (Media.mediaType m) (ratingKeyOf tier4k m) = (false, false).
Proof.
  unfold plexProbe, plexFlags.
  destruct (truthyString _) as [key|]; [|done]. simpl.
  by destruct (plexClient env) as [client|].
Qed.

(** [preventSeasonSearch] of a tier after its [try] in
    [mediaExistsInPlex]. *)
Lemma plexFlags_prevent (m : Media.t) (tier4k : bool) :
  (plexFlags env (Media.mediaType m) (ratingKeyOf tier4k m)).2
  = plexFailsTransiently env m tier4k.
Proof.
  unfold plexFlags, plexFailsTransiently, plexCatch.
  destruct (truthyString _) as [key|]; [|done].
  destruct (plexClient env) as [client|]; [|done].
  destruct (PlexAPI.getMetadata client key) as [?|message].
  - destruct (bool_decide _); [|done]. simpl.
    destruct (PlexAPI.getChildrenMetadata client key) as [?|message];
      [done|]. simpl. by destruct (transient message).
  - by destruct (transient message).
Qed.

Lemma sonarrFlags_all_transient (tier4k : bool) (ext : option Z) (id : Z)
    (servers : list DVRSettings.t) (flags : bool * bool) :
  truthyNumber ext = Some id →
  (∀ b, b ∈ sonarrProbes env tier4k id servers → b = true) →
  fold_left (sonarrFlags env tier4k ext) servers flags
  = if bool_decide (sonarrProbes env tier4k id servers = [])
    then flags else (true, true).
Proof.
  intros Hid. revert flags.
  induction servers as [|server servers IH]; intros flags Hall; [done|].
  simpl. unfold sonarrProbes in *. simpl in *.
  unfold sonarrFlags at 2. rewrite Hid.
  destruct (Bool.eqb (DVRSettings.is4k server) tier4k); simpl in *.
  - assert (failsTransiently (getSeriesById env server id) = true) as Ht.
    { apply Hall. left. }
    destruct (getSeriesById env server id) as [?|message]; [done|].
    simpl in Ht. rewrite Ht.
    rewrite IH by (intros b Hb; apply Hall; by right).
    by destruct (bool_decide _).
  - by apply IH.
Qed.

Lemma sonarrFlags_not_probed (tier4k : bool) (ext : option Z)
    (servers : list DVRSettings.t) (flags : bool * bool) :
  truthyNumber ext = None →
  fold_left (sonarrFlags env tier4k ext) servers flags = flags.
Proof.
  intros Hid. induction servers as [|server servers IH]; [done|].
  simpl. unfold sonarrFlags at 2. rewrite Hid.
  by destruct (Bool.eqb _ _).
Qed.

Lemma sonarrFlags_not_transient (tier4k : bool) (ext : option Z) (id : Z)
    (servers : list DVRSettings.t) (flags : bool * bool) :
  truthyNumber ext = Some id →
  (∀ b, b ∈ sonarrProbes env tier4k id servers → b = false) →
  (fold_left (sonarrFlags env tier4k ext) servers flags).2 = flags.2.
Proof.
  intros Hid. revert flags.
  induction servers as [|server servers IH]; intros flags Hall; [done|].
  simpl. unfold sonarrProbes in *. simpl in *.
  unfold sonarrFlags at 2. rewrite Hid.
  destruct (Bool.eqb (DVRSettings.is4k server) tier4k); simpl in *.
  - assert (failsTransiently (getSeriesById env server id) = false) as Ht.
    { apply Hall. left. }
    rewrite IH by (intros b Hb; apply Hall; by right).
    destruct (getSeriesById env server id) as [sonarr|message]; simpl in *.
    + by destruct (_ >? _)%Z.
    + by rewrite Ht.
  - by apply IH.
Qed.

Lemma radarrTry_all_transient (tier4k : bool) (ext : option Z) (id : Z)
    (servers : list DVRSettings.t) (e : bool) :
  truthyNumber ext = Some id →
  (∀ b, b ∈ radarrProbes env tier4k id servers → b = true) →
  fold_left (λ e server, radarrTry env tier4k server ext e) servers e
  = if bool_decide (radarrProbes env tier4k id servers = []) then e else true.
Proof.
  intros Hid. revert e.
  induction servers as [|server servers IH]; intros e Hall; [done|].
  simpl. unfold radarrProbes in *. simpl in *.
  unfold radarrTry at 2. rewrite Hid.
  destruct (Bool.eqb (DVRSettings.is4k server) tier4k); simpl in *.
  - assert (failsTransiently (getMovie env server id) = true) as Ht.
    { apply Hall. left. }
    destruct (getMovie env server id) as [?|message]; [done|].
    simpl in Ht. rewrite Ht.
    rewrite IH by (intros b Hb; apply Hall; by right).
    by destruct (bool_decide _).
  - by apply IH.
Qed.

End TransientFacts.

(** ** The season maps of the existence checks *)

Lemma NoDup_fmap_eq {A B : Type} (f : A → B) (l : list A) (a b : A) :
  NoDup (f <$> l) → a ∈ l → b ∈ l → f a = f b → a = b.
Proof.
  induction l as [|x l IH]; intros Hnd Ha Hb Hf; [by apply elem_of_nil in Ha|].
  rewrite fmap_cons in Hnd. apply NoDup_cons in Hnd as [Hx Hnd].
  apply elem_of_cons in Ha as [->|Ha]; apply elem_of_cons in Hb as [->|Hb].
  - done.
  - exfalso. apply Hx. rewrite Hf. by apply list_elem_of_fmap_2.
  - exfalso. apply Hx. rewrite <- Hf. by apply list_elem_of_fmap_2.
  - by apply IH.
Qed.

Lemma seasonMaps_spec
    (seasonExists : Season.t → bool → bool → St Caches (bool * bool))
    (seasons : list Season.t) (p p4k : bool) (c : Caches) :
  (∀ season c, (seasonExists season p p4k c).2 = c) →
  negb p || negb p4k = true →
  NoDup (Season.seasonNumber <$> seasons) →
  let r := seasonMaps seasonExists seasons p p4k c in
  r.2 = c
  ∧ ∀ season, season ∈ seasons →
      r.1.1 !! Season.seasonNumber season
      = Some (seasonExists season p p4k c).1.1
      ∧ r.1.2 !! Season.seasonNumber season
        = Some (seasonExists season p p4k c).1.2.
Proof.
  intros Hpure Hrun Hnd. unfold seasonMaps. rewrite Hrun.
  pose (I := λ (visited : list Season.t) (maps : gmap Z bool * gmap Z bool)
               (c' : Caches),
    c' = c
    ∧ (∀ season, season ∈ visited → season ∈ seasons)
    ∧ ∀ season, season ∈ visited →
        maps.1 !! Season.seasonNumber season
        = Some (seasonExists season p p4k c).1.1
        ∧ maps.2 !! Season.seasonNumber season
          = Some (seasonExists season p p4k c).1.2).
  cbv zeta iota.
  match goal with
  | |- context [forOf _ ?body _ _] =>
      pose proof (forOf_ind I body seasons) as Hind
  end.
  destruct Hind with (visited := @nil Season.t)
                     (acc := ((∅, ∅) : gmap Z bool * gmap Z bool)) (s := c)
    as (Hc & _ & Hmaps).
  - intros visited x [map map4k] c' Hx (-> & Hsub & Hmaps).
    unfold mbind, St_bind, mret, St_ret.
    pose proof (Hpure x c) as Hp.
    destruct (seasonExists x p p4k c) as [[e e4k] c1] eqn:Hex. simpl in *.
    subst c1. split; [done|]. split.
    + intros season Hin. apply elem_of_app in Hin as [Hin|Hin]; [by apply Hsub|].
      by apply list_elem_of_singleton in Hin as ->.
    + intros season Hin.
      apply elem_of_app in Hin as [Hin|Hin].
      * destruct (decide (Season.seasonNumber x = Season.seasonNumber season))
          as [Heq|Hne].
        -- assert (x = season) as <-.
           { apply (NoDup_fmap_eq Season.seasonNumber seasons); auto. }
           rewrite Hex. simpl. by rewrite !lookup_insert_eq.
        -- simpl. rewrite !lookup_insert_ne by done. by apply Hmaps.
      * apply list_elem_of_singleton in Hin as ->.
        rewrite Hex. simpl. by rewrite !lookup_insert_eq.
  - split; [done|]. split; intros season Hin; by apply elem_of_nil in Hin.
  - split; [done|]. intros season Hin. by apply Hmaps.
Qed.

Lemma seasonsOf_elem (m : Media.t) (objs : list Season.t) (ref : nat)
    (season : Season.t) :
  ref ∈ Media.seasons m → objs !! ref = Some season →
  season ∈ seasonsOf m objs.
Proof.
  intros Hin Href. unfold seasonsOf. apply list_elem_of_omap. eauto.
Qed.

(** ** The verdicts under transient failures *)

Lemma itemExists_show (env : Services) (st : State) (tier4k : bool) :
  let m := media (world st) in
  Media.mediaType m = tv →
  pick tier4k (itemExists env st)
  = (plexFlags env tv (ratingKeyOf tier4k m)).1
    || (fold_left (sonarrFlags env tier4k (externalServiceIdOf tier4k m))
          (sonarrServers env) (false, false)).1.
Proof.
  intros m Hty. unfold itemExists, eval. fold m. rewrite Hty.
  rewrite runShow_unfold. simpl. fold m.
  rewrite mediaExistsInPlex_unfold, Hty. simpl.
  match goal with
  | |- context [mediaExistsInSonarr env m ?objs ?c] =>
      destruct (mediaExistsInSonarr_unfold env m objs c) as [c2 ->]
  end.
  simpl. by destruct tier4k.
Qed.

(** The item verdict of a tier whose probes all fail transiently. *)
Lemma itemExists_transient (env : Services) (st : State) (tier4k : bool) :
  allProbesTransient env (media (world st)) tier4k →
  pick tier4k (itemExists env st) = true.
Proof.
  set (m := media (world st)). intros (Hplex & Hall & Hsome).
  assert ((plexFlags env (Media.mediaType m) (ratingKeyOf tier4k m)).1 = true
          ∨ (plexProbe env m tier4k = None
             ∧ managerProbes env m tier4k ≠ [])) as Hcase.
  { destruct (plexProbe env m tier4k) as [[|]|] eqn:Hp.
    - left. by destruct (plexFlags_transient env m tier4k Hp) as [-> _].
    - done.
    - right. split; [done|]. destruct Hsome as [[? ?]|?]; done. }
  unfold managerProbes in *.
  destruct (Media.mediaType m) eqn:Hty.
  - rewrite itemExists_movie by done. fold m.
    destruct Hcase as [->|[_ Hne]]; [done|].
    destruct (truthyNumber _) as [id|] eqn:Hid; [|done].
    rewrite (radarrTry_all_transient env tier4k _ id) by done.
    rewrite bool_decide_eq_false_2 by done. apply orb_true_r.
  - rewrite itemExists_show by done. fold m.
    destruct Hcase as [->|[_ Hne]]; [done|].
    destruct (truthyNumber _) as [id|] eqn:Hid; [|done].
    rewrite (sonarrFlags_all_transient env tier4k _ id) by done.
    rewrite bool_decide_eq_false_2 by done. apply orb_true_r.
Qed.

Lemma plexSeasonExists_prevented (key : option string) (s : MediaStatus.t)
    (n : Z) (c : Caches) :
  is_Some (truthyString key) → availableOrPartial s = true →
  plexSeasonExists key s n true c = true.
Proof.
  intros [k Hk] Hav. unfold plexSeasonExists. rewrite Hk, Hav.
  apply orb_true_r.
Qed.

Lemma sonarrSeasonExists_prevented (tier4k : bool) (ext : option Z)
    (s : MediaStatus.t) (n : Z) (c : Caches) :
  is_Some (truthyNumber ext) → availableOrPartial s = true →
  sonarrSeasonExists tier4k ext s n true c = true.
Proof.
  intros [k Hk] Hav. unfold sonarrSeasonExists. rewrite Hk, Hav.
  apply orb_true_r.
Qed.

(** The Sonarr flags of a tier none of whose probes fails transiently. *)
Lemma sonarrFlags_quiet (env : Services) (m : Media.t) (tier4k : bool) :
  Media.mediaType m = tv →
  managerFailsTransiently env m tier4k = false →
  (fold_left (sonarrFlags env tier4k (externalServiceIdOf tier4k m))
     (sonarrServers env) (false, false)).2 = false.
Proof.
  intros Hty H. unfold managerFailsTransiently, managerProbes in H.
  rewrite Hty in H.
  destruct (truthyNumber (externalServiceIdOf tier4k m)) as [id|] eqn:Hid.
  - rewrite (sonarrFlags_not_transient env tier4k _ id); [done|done|].
    intros b Hb. destruct b; [|done].
    apply list_elem_of_In in Hb.
    assert (existsb (λ failed : bool, failed)
              (sonarrProbes env tier4k id (sonarrServers env)) = true)
      as Hex by (apply existsb_exists; eauto).
    congruence.
  - by rewrite sonarrFlags_not_probed.
Qed.

(** The merged verdict of a season that is available for a tier whose
    probes all fail transiently, one of them at a source where no call for
    the other tier fails transiently. *)
Lemma seasonVerdict_transient (env : Services) (st : State) (tier4k : bool)
    (ref : nat) (season : Season.t) :
  let m := media (world st) in
  Media.mediaType m = tv →
  allProbesTransient env m tier4k →
  otherTierAnswers env m tier4k →
  distinctSeasons (world st) →
  ref ∈ Media.seasons m →
  seasonObjs (world st) !! ref = Some season →
  availableOrPartial (seasonStatusOf tier4k season) = true →
  readFlagOpt (pick tier4k (plexVerdicts env st)) (Season.seasonNumber season)
  || readFlag (pick tier4k (sonarrVerdicts env st)) (Season.seasonNumber season)
  = true.
Proof.
  intros m Hty (Hplex & Hall & Hsome) Hquiet Hnd Hin Href Hav.
  pose proof (seasonsOf_elem m _ ref season Hin Href) as Hel.
  unfold plexVerdicts, sonarrVerdicts, eval, exec. fold m.
  rewrite mediaExistsInPlex_unfold, Hty. simpl.
  match goal with
  | |- context [mediaExistsInSonarr env m ?objs ?c] =>
      destruct (mediaExistsInSonarr_unfold env m objs c) as [c2 ->]
  end.
  simpl.
  destruct Hquiet as [[Hsome' Hq]|[Hne Hsq]].
  - (* Plex was asked and failed: its season search is prevented *)
    destruct (plexProbe env m tier4k) as [[|]|] eqn:Hp;
      [| done | by destruct Hsome'].
    rewrite <- plexFlags_prevent, Hty in Hq.
    destruct (plexFlags_transient env m tier4k Hp) as [Hf Hkey].
    rewrite Hty in Hf.
    apply orb_true_iff. left.
    match goal with
    | |- context [seasonMaps ?f ?l ?p ?p4k ?c] =>
        destruct (seasonMaps_spec f l p p4k c) as [_ Hmaps];
          [done | | done |]
    end.
    { destruct tier4k; simpl in *; rewrite Hf, Hq; done. }
    destruct (Hmaps season Hel) as [H1 H2].
    destruct tier4k; simpl in *; unfold readFlag.
    + rewrite H2. simpl. rewrite Hf. simpl.
      by apply plexSeasonExists_prevented.
    + rewrite H1. simpl. rewrite Hf. simpl.
      by apply plexSeasonExists_prevented.
  - (* Sonarr was asked and failed: its season search is prevented *)
    pose proof (sonarrFlags_quiet env m (negb tier4k) Hty Hsq) as Hsq'.
    apply orb_true_iff. right.
    unfold managerProbes in Hall, Hne. rewrite Hty in Hall, Hne.
    destruct (truthyNumber (externalServiceIdOf tier4k m)) as [id|] eqn:Hid;
      [|done].
    pose proof (sonarrFlags_all_transient env tier4k _ id (sonarrServers env)
                  (false, false) Hid Hall) as Hf.
    rewrite bool_decide_eq_false_2 in Hf by done.
    match goal with
    | |- context [seasonMaps ?f ?l ?p ?p4k ?c] =>
        destruct (seasonMaps_spec f l p p4k c) as [_ Hmaps];
          [done | | done |]
    end.
    { destruct tier4k; simpl in *; rewrite Hf, Hsq'; done. }
    destruct (Hmaps season Hel) as [H1 H2].
    destruct tier4k; simpl in *; unfold readFlag.
    + rewrite H2. simpl. rewrite Hf. simpl.
      apply sonarrSeasonExists_prevented; [by rewrite Hid | done].
    + rewrite H1. simpl. rewrite Hf. simpl.
      apply sonarrSeasonExists_prevented; [by rewrite Hid | done].
Qed.

(** ** The entity and its row *)

Lemma loaded_inSync (st : State) : loaded st → inSync (world st).
Proof.
  intros H. eexists. split; [exact H|]. split; [done|]. intros ?. by left.
Qed.

(** [save] writes over the season rows the objects the array refers to: rows
    that hold the objects as they were before one of them, [ref], was
    changed end up holding the objects as they are, provided the array ends
    with [ref]. *)
Lemma save_rows (objs : list Season.t) (ref : nat) (season' : Season.t)
    (l : list nat) :
  let objs' := <[ref := season']> objs in
  foldl (λ rows r,
           match objs' !! r with
           | Some season => <[r := season]> rows
           | None => rows
           end) objs (l ++ [ref])
  = objs'.
Proof.
  intros objs'. rewrite foldl_app. simpl.
  set (f := λ (rows : list Season.t) (r : nat),
              match objs' !! r with
              | Some season => <[r := season]> rows
              | None => rows
              end).
  assert (∀ rows, rows = objs ∨ rows = objs' →
                  foldl f rows l = objs ∨ foldl f rows l = objs') as Hl.
  { induction l as [|r l IH]; intros rows Hrows; [done|]. simpl.
    apply IH. unfold f. destruct (objs' !! r) as [x|] eqn:Hr; [|done].
    destruct Hrows as [-> | ->].
    - destruct (decide (r = ref)) as [->|Hne].
      + right. subst objs'.
        apply list_lookup_insert_Some in Hr as [(_ & -> & _)|[? _]]; done.
      + left. apply list_insert_id. subst objs'.
        by rewrite list_lookup_insert_ne in Hr.
    - right. by apply list_insert_id. }
  destruct (objs' !! ref) as [x|] eqn:Hr.
  - assert ((ref < length objs)%nat ∧ x = season') as [Hlt ->].
    { subst objs'.
      apply list_lookup_insert_Some in Hr as [(_ & -> & ?)|[? _]]; done. }
    destruct (Hl objs (or_introl eq_refl)) as [-> | ->].
    + done.
    + subst objs'. apply list_insert_insert_eq.
  - assert (objs' = objs) as Heq.
    { subst objs'. apply list_insert_ge.
      apply lookup_ge_None in Hr. by rewrite length_insert in Hr. }
    destruct (Hl objs (or_introl eq_refl)) as [-> | ->]; done.
Qed.

(** [save] of unchanged objects leaves the season rows as they are. *)
Lemma save_rows_id (objs : list Season.t) (l : list nat) :
  foldl (λ rows r,
           match objs !! r with
           | Some season => <[r := season]> rows
           | None => rows
           end) objs l
  = objs.
Proof.
  induction l as [|r l IH]; [done|]. simpl.
  destruct (objs !! r) as [x|] eqn:Hr; [|done].
  by rewrite list_insert_id.
Qed.

Lemma lookup_update (id : Z) (f : Media.t → Media.t) (d : Database) :
  mediaTable (update id f d) !! id
  = (λ row, {| columns := f (columns row); seasonRows := seasonRows row |})
      <$> mediaTable d !! id.
Proof. apply lookup_alter_eq. Qed.

Lemma seasonUpdater_inSync (ref : nat) (e e4k : bool) (w : World) :
  inSync w → inSync (exec (seasonUpdater ref e e4k) w).
Proof.
  intros (row & Hrow & Hrows & Hst). rewrite seasonUpdater_exec.
  destruct (seasonObjs w !! ref) as [season|] eqn:Href; [|by exists row].
  simpl. destruct (resetSeason e e4k season) as [season' deleted] eqn:Hreset.
  simpl. destruct deleted.
  - (* the season was reset: saved, then the cascade on the row *)
    set (m' := Media.set_seasons _ (media w)).
    set (objs' := <[ref := season']> (seasonObjs w)).
    set (d1 := save m' objs' (db w)).
    assert (mediaTable d1 !! Media.id (media w)
            = Some {| columns := m'; seasonRows := objs' |}) as H1.
    { subst d1. unfold save, setMediaTable. simpl.
      rewrite lookup_insert_eq, Hrow, Hrows. f_equal. f_equal.
      apply save_rows. }
    set (d2 := if _ && negb e then _ else d1).
    assert (∃ c, mediaTable d2 !! Media.id (media w)
                 = Some {| columns := c; seasonRows := objs' |}
                 ∧ statusKept (Media.status m') (Media.status c)
                 ∧ Media.status4k c = Media.status4k m') as (c2 & H2 & Hk & Hk4).
    { subst d2. destruct (bool_decide _ && negb e) eqn:Hc.
      - eexists. rewrite lookup_update, H1. simpl. split; [done|].
        apply andb_true_iff in Hc as [Hc _].
        apply bool_decide_eq_true in Hc. split; [by right|done].
      - exists m'. split; [done|]. split; [by left|done]. }
    set (d3 := if _ && negb e4k then _ else d2).
    assert (∃ c, mediaTable d3 !! Media.id (media w)
                 = Some {| columns := c; seasonRows := objs' |}
                 ∧ statusKept (Media.status m') (Media.status c)
                 ∧ statusKept (Media.status4k m') (Media.status4k c))
      as (c3 & H3 & Hk3 & Hk34).
    { subst d3. destruct (bool_decide _ && negb e4k) eqn:Hc.
      - eexists. rewrite lookup_update, H2. simpl. split; [done|].
        apply andb_true_iff in Hc as [Hc _].
        apply bool_decide_eq_true in Hc. split; [done|by right].
      - exists c2. split; [done|]. split; [done|]. left. done. }
    exists {| columns := c3; seasonRows := objs' |}. simpl.
    split; [by destruct (0 <? _)%nat|]. split; [done|].
    by intros [].
  - (* nothing was reset: the object is written back as it was *)
    pose proof (resetSeason_unchanged e e4k season) as Hun.
    rewrite Hreset in Hun. simpl in Hun. rewrite Hun by done.
    rewrite list_insert_id by done.
    exists row. by destruct w.
Qed.

(** After [mediaUpdater] the row of the item holds the entity and its
    season objects. *)
Lemma mediaUpdater_inSync (e e4k : bool) (w : World) :
  inSync w →
  let w' := exec (mediaUpdater e e4k) w in
  mediaTable (db w') !! Media.id (media w)
  = Some {| columns := media w'; seasonRows := seasonObjs w' |}.
Proof.
  intros (row & Hrow & Hrows & _). simpl. rewrite mediaUpdater_exec. simpl.
  set (m1 := if _ && negb e then _ else media w).
  set (m2 := if _ && negb e4k then _ else m1).
  assert (Media.id m2 = Media.id (media w)) as Hid.
  { subst m2 m1.
    repeat match goal with
           | |- context [if ?b then _ else _] => destruct b
           end; reflexivity. }
  assert (mediaTable (save m2 (seasonObjs w) (db w)) !! Media.id (media w)
          = Some {| columns := m2; seasonRows := seasonObjs w |}) as Hs.
  { unfold save, setMediaTable. simpl.
    rewrite Hid, lookup_insert_eq, Hrow, Hrows. f_equal. f_equal.
    apply save_rows_id. }
  by destruct (_ && bool_decide _).
Qed.

Lemma mediaUpdater_preserves_inSync (e e4k : bool) (w : World) :
  inSync w → inSync (exec (mediaUpdater e e4k) w).
Proof.
  intros H. pose proof (mediaUpdater_inSync e e4k w H) as Hrow.
  destruct (mediaUpdater_stored false e e4k w) as [Hid _]. simpl in *.
  eexists. rewrite Hid. split; [exact Hrow|]. split; [done|].
  intros ?. by left.
Qed.

Lemma mediaUpdater_seasonObjs (e e4k : bool) (w : World) :
  seasonObjs (exec (mediaUpdater e e4k) w) = seasonObjs w.
Proof. by rewrite mediaUpdater_exec. Qed.

Lemma seasonLoop_inSync (pm pm4k : option (gmap Z bool))
    (sm sm4k : gmap Z bool) (l : list nat) (st : State) :
  inSync (world st) →
  inSync (world (forOf l (runSeason pm pm4k sm sm4k) (∅, ∅) st).2).
Proof.
  intros H.
  apply (forOf_ind (λ _ _ s, inSync (world s)) (runSeason pm pm4k sm sm4k) l)
    with (visited := []); [|done].
  intros _ x acc s _ Hs. rewrite runSeason_unfold.
  destruct (seasonObjs (world s) !! x); [|done]. simpl.
  destruct (_ || _); [|done]. by apply seasonUpdater_inSync.
Qed.

(** ** One item of a run: what it leaves behind *)

(** The entity and its row stay in step over the processing of an item. *)
Lemma runMedia_inSync (env : Services) (st : State) :
  loaded st → inSync (world (exec (runMedia env) st)).
Proof.
  intros H%loaded_inSync. rewrite runMedia_exec.
  destruct (Media.mediaType (media (world st))).
  - unfold exec. rewrite runMovie_unfold. simpl.
    destruct (_ || _); [|done]. by apply mediaUpdater_preserves_inSync.
  - unfold exec. rewrite runShow_unfold. simpl.
    match goal with
    | |- context [forOf ?l (runSeason ?a ?b ?c ?d) _ ?s] =>
        pose proof (seasonLoop_inSync a b c d l s H) as Hloop
    end.
    destruct (_ || _); [|done]. by apply mediaUpdater_preserves_inSync.
Qed.

(** A tier that exists keeps its status in the entity, whose identity
    never changes. *)
Lemma runMedia_keeps (env : Services) (st : State) (tier4k : bool) :
  pick tier4k (itemExists env st) = true →
  let m' := media (world (exec (runMedia env) st)) in
  statusOf tier4k m' = statusOf tier4k (media (world st))
  ∧ Media.id m' = Media.id (media (world st)).
Proof.
  intros Hex. simpl. rewrite runMedia_exec. unfold itemExists, eval in Hex.
  set (m := media (world st)) in *.
  destruct (Media.mediaType m).
  - unfold exec. rewrite runMovie_unfold in *. simpl in *. fold m in Hex |- *.
    set (movieExists := _ || (mediaExistsInRadarr env m).1) in *.
    set (movieExists4k := _ || (mediaExistsInRadarr env m).2) in *.
    destruct ((negb movieExists && _) || _); [|done].
    split; [by apply mediaUpdater_keeps|].
    by destruct (mediaUpdater_stored false movieExists movieExists4k (world st))
      as [-> _].
  - unfold exec. rewrite runShow_unfold in *. simpl in *. fold m in Hex |- *.
    set (p := mediaExistsInPlex env m _ _) in *.
    set (s := mediaExistsInSonarr env m _ _) in *.
    set (loop := forOf _ _ _ _) in *.
    destruct (seasonLoop_spec p.1.1.2 p.1.2 s.1.1.2 s.1.2 (Media.seasons m)
                {| caches := s.2; world := world st |})
      as (_ & Hcols & _).
    fold loop in Hcols. simpl in Hcols. fold m in Hcols.
    apply sameColumns_fields in Hcols as (Hid & _ & Hst & Hst4k & _).
    set (showExists := _ || s.1.1.1.1) in *.
    set (showExists4k := _ || s.1.1.1.2) in *.
    assert (statusOf tier4k (media (world loop.2)) = statusOf tier4k m) as Hs
      by (by destruct tier4k).
    destruct ((negb showExists && _) || _); [|done].
    rewrite mediaUpdater_keeps by done.
    by destruct (mediaUpdater_stored false showExists showExists4k
                   (world loop.2)) as [-> _].
Qed.

(** The season objects a show is left with are those the season loop left;
    [mediaUpdater] does not touch them. *)
Lemma runShow_seasonObjs (env : Services) (st : State) :
  Media.mediaType (media (world st)) = tv →
  let m := media (world st) in
  let objs := seasonObjs (world st) in
  let p := mediaExistsInPlex env m objs (caches st) in
  let s := mediaExistsInSonarr env m objs p.2 in
  seasonObjs (world (exec (runMedia env) st))
  = seasonObjs (world (forOf (Media.seasons m)
                         (runSeason p.1.1.2 p.1.2 s.1.1.2 s.1.2) (∅, ∅)
                         {| caches := s.2; world := world st |}).2).
Proof.
  intros Hty. simpl. rewrite runMedia_exec, Hty. unfold exec.
  rewrite runShow_unfold. simpl.
  destruct (_ || _); [|done]. apply mediaUpdater_seasonObjs.
Qed.

(** The merged verdict of a season is the verdict of Plex or the verdict of
    Sonarr for the season. *)
Lemma seasonVerdicts_merge (env : Services) (st : State) (tier4k : bool)
    (ref : nat) (season : Season.t) :
  ref ∈ Media.seasons (media (world st)) →
  seasonObjs (world st) !! ref = Some season →
  let n := Season.seasonNumber season in
  pick tier4k (seasonVerdicts env st) !! n
  = Some (readFlagOpt (pick tier4k (plexVerdicts env st)) n
          || readFlag (pick tier4k (sonarrVerdicts env st)) n).
Proof.
  intros Hin Href n.
  unfold seasonVerdicts, plexVerdicts, sonarrVerdicts, eval, exec.
  rewrite runShow_unfold. simpl.
  set (m := media (world st)). set (objs := seasonObjs (world st)).
  set (p := mediaExistsInPlex env m objs (caches st)).
  set (s := mediaExistsInSonarr env m objs p.2).
  destruct (seasonLoop_spec p.1.1.2 p.1.2 s.1.1.2 s.1.2 (Media.seasons m)
              {| caches := s.2; world := world st |})
    as (_ & _ & _ & Hmaps).
  destruct (Hmaps ref season Hin Href) as [H H4k].
  destruct p as [[[[e e4k] pm] pm4k] c1].
  destruct s as [[[[se se4k] sm] sm4k] c2].
  by destruct tier4k.
Qed.

(** ** The joined requests of a tier *)

(** For a tier the entity records as available, the query of [mediaUpdater]
    returns every request of the item for that tier. *)
Lemma joined_requests_of_available_tier (w : World) (tier4k : bool)
    (r : MediaRequest.t) :
  inSync w →
  availableOrPartial (statusOf tier4k (media w)) = true →
  r ∈ findRequests (Media.id (media w)) (db w) ∧ MediaRequest.is4k r = tier4k
  ↔ r ∈ requestTable (db w)
    ∧ MediaRequest.media r = Media.id (media w)
    ∧ MediaRequest.is4k r = tier4k.
Proof.
  intros (row & Hrow & _ & Hst) Hav.
  assert (availableOrPartial (statusOf tier4k (columns row)) = true) as Hrowav.
  { destruct (Hst tier4k) as [-> | [_ ->]]; done. }
  unfold findRequests. rewrite list_elem_of_In, filter_In, <- list_elem_of_In.
  rewrite Hrow, andb_true_iff, Z.eqb_eq.
  split.
  - intros [(Hin & Hm & _) Ht]. done.
  - intros (Hin & Hm & Ht). split; [|done]. split; [done|]. split; [done|].
    rewrite Ht. destruct tier4k; simpl in *; rewrite Hrowav; simpl;
      by rewrite ?orb_true_r.
Qed.

(** ** The assignments to the statuses move one way *)

Lemma oneWay_refl (s : MediaStatus.t) : oneWay s s.
Proof. by left. Qed.

Lemma oneWay_trans (a b c : MediaStatus.t) :
  oneWay a b → oneWay b c → oneWay a c.
Proof.
  intros [-> | [Ha Hb]] Hbc; [done|].
  destruct Hbc as [-> | [Hb' _]]; [by right|].
  exfalso. by destruct Hb as [-> | [-> | ->]].
Qed.

(** [mediaUpdater] never raises a status of the entity. *)
Lemma mediaUpdater_one_way (tier4k e e4k : bool) (w : World) :
  oneWay (statusOf tier4k (media w))
    (statusOf tier4k (media (exec (mediaUpdater e e4k) w))).
Proof.
  destruct (pick tier4k (e, e4k)) eqn:Hex.
  - left. by apply mediaUpdater_keeps.
  - destruct (availableOrPartial (statusOf tier4k (media w))) eqn:Hav.
    + right. split; [done|]. by apply mediaUpdater_downgrades.
    + left. rewrite mediaUpdater_exec. simpl.
      destruct tier4k; simpl in *.
      * assert (Hkeep : ∀ (b : bool) s,
          Media.status4k (if b then resetNon4k s (media w) else media w)
          = Media.status4k (media w)) by (by intros [] ?).
        rewrite Hkeep, Hav. simpl. apply Hkeep.
      * rewrite Hav. simpl. by destruct (_ && negb e4k).
Qed.

(** [seasonUpdater] never raises a status of a season object: a status
    stays or is reset to UNKNOWN from AVAILABLE or PARTIALLY_AVAILABLE. *)
Lemma seasonUpdater_one_way (tier4k : bool) (ref : nat) (e e4k : bool)
    (w : World) :
  Forall2 (λ s s', oneWay (seasonStatusOf tier4k s) (seasonStatusOf tier4k s'))
    (seasonObjs w) (seasonObjs (exec (seasonUpdater ref e e4k) w)).
Proof.
  assert (∀ l : list Season.t,
            Forall2 (λ s s', oneWay (seasonStatusOf tier4k s)
                               (seasonStatusOf tier4k s')) l l) as Hrefl.
  { intros l. apply Forall2_same_length_lookup. split; [done|].
    intros i s s' H1 H2. assert (s = s') as -> by congruence.
    apply oneWay_refl. }
  rewrite seasonUpdater_exec.
  destruct (seasonObjs w !! ref) as [season|] eqn:Href; [|apply Hrefl].
  simpl.
  assert (Forall2 (λ s s', oneWay (seasonStatusOf tier4k s)
                             (seasonStatusOf tier4k s'))
            (seasonObjs w)
            (<[ref := (resetSeason e e4k season).1]> (seasonObjs w))) as H.
  { apply Forall2_same_length_lookup. split; [by rewrite length_insert|].
    intros i s s' H1 H2.
    destruct (decide (i = ref)) as [->|Hne].
    - rewrite list_lookup_insert_eq in H2 by (by eapply lookup_lt_Some).
      assert (s = season) as -> by congruence.
      injection H2 as <-. rewrite resetSeason_spec. simpl.
      destruct tier4k; simpl.
      + destruct (availableOrPartial (Season.status4k season)) eqn:Hav;
          destruct e4k; simpl; try apply oneWay_refl.
        right. split; [done|]. by left.
      + destruct (availableOrPartial (Season.status season)) eqn:Hav;
          destruct e; simpl; try apply oneWay_refl.
        right. split; [done|]. by left.
    - rewrite list_lookup_insert_ne in H2 by done.
      assert (s = s') as -> by congruence. apply oneWay_refl. }
  by destruct (resetSeason e e4k season).2.
Qed.

(** Over the processing of an item no status of the entity or of its season
    objects is raised: each one stays or leaves AVAILABLE or
    PARTIALLY_AVAILABLE for UNKNOWN, PENDING or PROCESSING. *)
Lemma runMedia_one_way (env : Services) (st : State) (tier4k : bool) :
  let w' := world (exec (runMedia env) st) in
  oneWay (statusOf tier4k (media (world st))) (statusOf tier4k (media w'))
  ∧ Forall2 (λ s s', oneWay (seasonStatusOf tier4k s)
                       (seasonStatusOf tier4k s'))
      (seasonObjs (world st)) (seasonObjs w').
Proof.
  set (R := λ s s', oneWay (seasonStatusOf tier4k s) (seasonStatusOf tier4k s')).
  assert (∀ l : list Season.t, Forall2 R l l) as Hrefl.
  { intros l. apply Forall2_same_length_lookup. split; [done|].
    intros i s s' H1 H2. assert (s = s') as -> by congruence.
    apply oneWay_refl. }
  simpl. rewrite runMedia_exec.
  destruct (Media.mediaType (media (world st))).
  - unfold exec. rewrite runMovie_unfold. simpl.
    match goal with |- context [if ?b then _ else _] => destruct b end.
    + split; [apply mediaUpdater_one_way|].
      rewrite mediaUpdater_seasonObjs. apply Hrefl.
    + split; [apply oneWay_refl | apply Hrefl].
  - unfold exec. rewrite runShow_unfold. simpl.
    set (m := media (world st)).
    set (p := mediaExistsInPlex env m _ _).
    set (s := mediaExistsInSonarr env m _ _).
    set (loop := forOf _ _ _ _).
    destruct (seasonLoop_spec p.1.1.2 p.1.2 s.1.1.2 s.1.2 (Media.seasons m)
                {| caches := s.2; world := world st |})
      as (_ & Hcols & _).
    fold loop in Hcols. simpl in Hcols. fold m in Hcols.
    apply sameColumns_fields in Hcols as (_ & _ & Hst & Hst4k & _).
    assert (statusOf tier4k (media (world loop.2)) = statusOf tier4k m) as Hs
      by (by destruct tier4k).
    assert (Forall2 R (seasonObjs (world st)) (seasonObjs (world loop.2)))
      as Hloop.
    { subst loop.
      apply (forOf_ind
               (λ _ _ s', Forall2 R (seasonObjs (world st))
                            (seasonObjs (world s')))
               (runSeason p.1.1.2 p.1.2 s.1.1.2 s.1.2) (Media.seasons m))
        with (visited := []); [|apply Hrefl].
      intros _ x acc s' _ Hacc. rewrite runSeason_unfold.
      destruct (seasonObjs (world s') !! x); [|done]. simpl.
      match goal with |- context [if ?b then _ else _] => destruct b end;
        [|done].
      eapply Forall2_trans; [|exact Hacc|apply seasonUpdater_one_way].
      intros a b c. apply oneWay_trans. }
    match goal with |- context [if ?b then _ else _] => destruct b end.
    + rewrite mediaUpdater_seasonObjs. split; [|done].
      rewrite <- Hs. apply mediaUpdater_one_way.
    + split; [|done]. rewrite Hs. apply oneWay_refl.
Qed.

(** Between the start and the end of the processing of an item the stored
    status of a tier stays, is downgraded, or goes from AVAILABLE to
    PARTIALLY_AVAILABLE. *)
Lemma runMedia_stored_one_way (env : Services) (st : State) (tier4k : bool) :
  loaded st →
  let m := media (world st) in
  ∃ stored,
    storedStatus tier4k (Media.id m) (db (world (exec (runMedia env) st)))
    = Some stored
    ∧ (oneWay (statusOf tier4k m) stored
       ∨ (statusOf tier4k m = MediaStatus.AVAILABLE
          ∧ stored = MediaStatus.PARTIALLY_AVAILABLE)).
Proof.
  intros Hloaded m.
  destruct (runMedia_inSync env st Hloaded) as (row & Hrow & _ & Hst).
  destruct (runMedia_one_way env st tier4k) as [Hone _].
  assert (Media.id (media (world (exec (runMedia env) st))) = Media.id m)
    as Hid.
  { rewrite runMedia_exec. fold m. destruct (Media.mediaType m).
    - unfold exec. rewrite runMovie_unfold. simpl.
      match goal with |- context [if ?b then _ else _] => destruct b end;
        [|done].
      match goal with
      | |- context [mediaUpdater ?e ?e4k] =>
          by destruct (mediaUpdater_stored false e e4k (world st)) as [-> _]
      end.
    - unfold exec. rewrite runShow_unfold. simpl. fold m.
      match goal with
      | |- context [forOf ?l (runSeason ?a ?b ?c ?d) _ ?s] =>
          destruct (seasonLoop_spec a b c d l s) as (_ & Hcols & _)
      end.
      apply sameColumns_fields in Hcols as (Hid & _). simpl in Hid.
      match goal with |- context [if ?b then _ else _] => destruct b end;
        [|done].
      match goal with
      | |- context [exec (mediaUpdater ?e ?e4k) ?w] =>
          by destruct (mediaUpdater_stored false e e4k w) as [-> _]
      end. }
  rewrite Hid in Hrow.
  exists (statusOf tier4k (columns row)). unfold storedStatus. rewrite Hrow.
  split; [done|].
  destruct (Hst tier4k) as [-> | [Ha ->]]; [by left|].
  destruct Hone as [Heq | [Hav Hd]].
  - right. subst m. split; [congruence|done].
  - exfalso. rewrite Ha in Hd. by destruct Hd as [? | [? | ?]].
Qed.

(** ** The season cascade when nothing changes for the 4K tier *)

(** [seasonUpdater] on a season that exists in non-4K and is not available
    in 4K changes nothing. *)
Lemma seasonUpdater_noop (ref : nat) (e4k : bool) (w : World)
    (season : Season.t) :
  seasonObjs w !! ref = Some season →
  availableOrPartial (Season.status4k season) = false →
  exec (seasonUpdater ref true e4k) w = w.
Proof.
  intros Href Hav. rewrite seasonUpdater_exec, Href.
  rewrite resetSeason_spec. simpl. rewrite Hav, andb_false_r. simpl.
  replace (Season.mk _ _ _) with season by (by destruct season).
  rewrite list_insert_id by done. by destruct w.
Qed.

(** [seasonUpdater] on a season of a fully available show that is lost in
    non-4K and not available in 4K. *)
Lemma seasonUpdater_lost_non4k (ref : nat) (e4k : bool) (w : World)
    (season : Season.t) :
  seasonObjs w !! ref = Some season →
  Season.status season = MediaStatus.AVAILABLE →
  availableOrPartial (Season.status4k season) = false →
  Media.status (media w) = MediaStatus.AVAILABLE →
  availableOrPartial (Media.status4k (media w)) = false →
  let w' := exec (seasonUpdater ref false e4k) w in
  seasonObjs w' = <[ref := Season.set_status MediaStatus.UNKNOWN season]>
                    (seasonObjs w)
  ∧ sameColumns (media w) (media w')
  ∧ storedStatus false (Media.id (media w)) (db w')
    = Some MediaStatus.PARTIALLY_AVAILABLE
  ∧ seasonRequestTable (db w')
    = seasonRequestTable
        (removeSeasonRequests
           (lostSeasonRequests (Media.id (media w))
              (Season.seasonNumber season) (db w))
           (db w)).
Proof.
  intros Href Hs Hs4k Hm Hm4k. simpl.
  rewrite seasonUpdater_exec, Href. rewrite resetSeason_spec. simpl.
  rewrite Hs, Hs4k, Hm. simpl.
  assert (bool_decide (Media.status4k (media w) = MediaStatus.AVAILABLE)
          = false) as ->.
  { apply bool_decide_eq_false_2. intros H. by rewrite H in Hm4k. }
  simpl.
  match goal with
  | |- context [List.filter ?f (findSeasonRequests ?i ?n ?d)] =>
      replace (List.filter f (findSeasonRequests i n d))
        with (lostSeasonRequests i n d)
  end.
  2: { unfold lostSeasonRequests. apply filter_ext. intros [sr rq].
       change (availableOrPartial MediaStatus.AVAILABLE) with true.
       by rewrite !andb_true_r, andb_false_r, orb_false_r. }
  split; [done|]. split; [done|]. split.
  - assert (∀ d, storedStatus false (Media.id (media w))
                   (update (Media.id (media w))
                      (Media.set_status MediaStatus.PARTIALLY_AVAILABLE) d)
                 = (λ _, MediaStatus.PARTIALLY_AVAILABLE)
                     <$> mediaTable d !! Media.id (media w)) as Hupd.
    { intros d. unfold storedStatus. rewrite lookup_update.
      by destruct (mediaTable d !! _). }
    destruct (0 <? _)%nat.
    + change (storedStatus false ?i (removeSeasonRequests ?l ?d))
        with (storedStatus false i d).
      rewrite Hupd. unfold save, setMediaTable. simpl.
      by rewrite lookup_insert_eq.
    + rewrite Hupd. unfold save, setMediaTable. simpl.
      by rewrite lookup_insert_eq.
  - destruct (0 <? length _)%nat eqn:Hlen; [done|].
    apply Nat.ltb_ge in Hlen. apply Nat.le_0_r, nil_length_inv in Hlen.
    rewrite Hlen. simpl.
    induction (seasonRequestTable (db w)) as [|x l IH]; [done|].
    simpl. by rewrite <- IH.
Qed.

Lemma lostSeasonRequests_elem (id n : Z) (d : Database)
    (sr : SeasonRequest.t) (rq : MediaRequest.t) :
  (sr, rq) ∈ lostSeasonRequests id n d
  ↔ sr ∈ seasonRequestTable d
    ∧ SeasonRequest.seasonNumber sr = n
    ∧ List.find (λ r, (MediaRequest.id r =? SeasonRequest.request sr)%Z)
        (requestTable d) = Some rq
    ∧ MediaRequest.media rq = id
    ∧ MediaRequest.is4k rq = false.
Proof.
  unfold lostSeasonRequests, findSeasonRequests.
  rewrite list_elem_of_In, filter_In, <- list_elem_of_In, list_elem_of_omap.
  split.
  - intros [(sr' & Hin & Hjoin) H4k].
    destruct (SeasonRequest.seasonNumber sr' =? n)%Z eqn:Hn; [|done].
    apply Z.eqb_eq in Hn.
    destruct (List.find _ (requestTable d)) as [rq'|] eqn:Hfind; [|done].
    simpl in Hjoin.
    destruct (MediaRequest.media rq' =? id)%Z eqn:Hm; [|done].
    apply Z.eqb_eq in Hm. injection Hjoin as -> ->.
    by apply negb_true_iff in H4k.
  - intros (Hin & Hn & Hfind & Hm & H4k). split; [|by rewrite H4k].
    exists sr. split; [done|].
    rewrite <- Hn, Z.eqb_refl, Hfind. simpl. by rewrite <- Hm, Z.eqb_refl.
Qed.

Section RemoveSeasonRequests.
Context (id n : Z) (d : Database).

Let remaining : list SeasonRequest.t :=
  seasonRequestTable (removeSeasonRequests (lostSeasonRequests id n d) d).

Lemma remaining_elem (sr : SeasonRequest.t) :
  sr ∈ remaining
  ↔ sr ∈ seasonRequestTable d
    ∧ ¬ ∃ sr' rq, (sr', rq) ∈ lostSeasonRequests id n d
                  ∧ SeasonRequest.id sr' = SeasonRequest.id sr.
Proof.
  unfold remaining, removeSeasonRequests. simpl.
  rewrite list_elem_of_In, filter_In, <- list_elem_of_In.
  rewrite negb_true_iff, <- not_true_iff_false, existsb_exists.
  split; intros [Hin Hno]; (split; [done|]).
  - intros (sr' & rq & Hel & Hid). apply Hno. exists (sr', rq).
    rewrite <- list_elem_of_In. split; [done|]. by apply Z.eqb_eq.
  - intros ([sr' rq] & Hel & Hid). apply Hno. exists sr', rq.
    rewrite list_elem_of_In. split; [done|]. by apply Z.eqb_eq.
Qed.

(** No non-4K request of the item for season [n] is left. *)
Lemma lost_requests_removed (sr : SeasonRequest.t) (rq : MediaRequest.t) :
  sr ∈ remaining →
  SeasonRequest.seasonNumber sr = n →
  List.find (λ r, (MediaRequest.id r =? SeasonRequest.request sr)%Z)
    (requestTable d) = Some rq →
  MediaRequest.media rq = id →
  MediaRequest.is4k rq = true.
Proof.
  intros [Hin Hno]%remaining_elem Hn Hfind Hm.
  destruct (MediaRequest.is4k rq) eqn:H4k; [done|].
  exfalso. apply Hno. exists sr, rq. split; [|done].
  by apply lostSeasonRequests_elem.
Qed.

(** The requests of the other seasons are left. *)
Lemma other_requests_kept (sr : SeasonRequest.t) :
  NoDup (SeasonRequest.id <$> seasonRequestTable d) →
  sr ∈ seasonRequestTable d →
  SeasonRequest.seasonNumber sr ≠ n →
  sr ∈ remaining.
Proof.
  intros Hnd Hin Hn. apply remaining_elem. split; [done|].
  intros (sr' & rq & Hel & Hid).
  apply lostSeasonRequests_elem in Hel as (Hin' & Hn' & _).
  assert (sr' = sr) as ->
    by (by apply (NoDup_fmap_eq SeasonRequest.id (seasonRequestTable d))).
  done.
Qed.

End RemoveSeasonRequests.

Lemma forOf_pair {S A B : Type} (body : A → B → St S B) (a b : A) (acc : B)
    (s : S) :
  (forOf [a; b] body acc s).2
  = (body b (body a acc s).1 (body a acc s).2).2.
Proof.
  simpl. unfold mbind, St_bind, mret, St_ret.
  destruct (body a acc s) as [acc1 s1]. simpl.
  by destruct (body b acc1 s1).
Qed.

Lemma runSeason_world (pm pm4k : option (gmap Z bool)) (sm sm4k : gmap Z bool)
    (ref : nat) (maps : gmap Z bool * gmap Z bool) (st : State)
    (season : Season.t) :
  seasonObjs (world st) !! ref = Some season →
  let n := Season.seasonNumber season in
  let v := readFlagOpt pm n || readFlag sm n in
  let v4k := readFlagOpt pm4k n || readFlag sm4k n in
  world (runSeason pm pm4k sm sm4k ref maps st).2
  = if (negb v && availableOrPartial (Season.status season))
       || (negb v4k && availableOrPartial (Season.status season))
    then exec (seasonUpdater ref v v4k) (world st)
    else world st.
Proof. intros Href. rewrite runSeason_unfold, Href. done. Qed.

(** The season cascade, when no 4K status of the show or of its two seasons
    is available: the pass amounts to one call of [seasonUpdater] on the
    lost season.  The lost season becomes UNKNOWN, the stored status of the
    show becomes PARTIALLY_AVAILABLE, the non-4K requests of the lost season
    are deleted, and the other season and its requests are untouched. *)
Lemma season_cascade_without_4k_change (env : Services) (st : State)
    (lost other : nat) (sl so : Season.t) :
  let m := media (world st) in
  let objs := seasonObjs (world st) in
  let d := db (world st) in
  Media.mediaType m = tv →
  Media.status m = MediaStatus.AVAILABLE →
  availableOrPartial (Media.status4k m) = false →
  Media.seasons m = [lost; other] ∨ Media.seasons m = [other; lost] →
  lost ≠ other →
  objs !! lost = Some sl →
  objs !! other = Some so →
  Season.status sl = MediaStatus.AVAILABLE →
  Season.status so = MediaStatus.AVAILABLE →
  availableOrPartial (Season.status4k sl) = false →
  availableOrPartial (Season.status4k so) = false →
  pick false (itemExists env st) = true →
  pick false (seasonVerdicts env st) !! Season.seasonNumber sl = Some false →
  pick false (seasonVerdicts env st) !! Season.seasonNumber so = Some true →
  NoDup (SeasonRequest.id <$> seasonRequestTable d) →
  let w' := world (exec (runMedia env) st) in
  seasonObjs w' = <[lost := Season.set_status MediaStatus.UNKNOWN sl]> objs
  ∧ seasonObjs w' !! other = Some so
  ∧ storedStatus false (Media.id m) (db w')
    = Some MediaStatus.PARTIALLY_AVAILABLE
  ∧ (∀ sr rq,
       sr ∈ seasonRequestTable (db w') →
       SeasonRequest.seasonNumber sr = Season.seasonNumber sl →
       List.find (λ r, (MediaRequest.id r =? SeasonRequest.request sr)%Z)
         (requestTable d) = Some rq →
       MediaRequest.media rq = Media.id m →
       MediaRequest.is4k rq = true)
  ∧ (∀ sr,
       sr ∈ seasonRequestTable d →
       SeasonRequest.seasonNumber sr ≠ Season.seasonNumber sl →
       sr ∈ seasonRequestTable (db w')).
Proof.
  intros m objs d Hty Hm Hm4k Hseasons Hne Hsl Hso Hs Hs' Hs4k Hs4k'
    Hex Hvl Hvo Hnd w'.
  (* the pass is one call of [seasonUpdater] on the lost season *)
  assert (∃ e4k, w' = exec (seasonUpdater lost false e4k) (world st))
    as [e4k Hw'].
  { subst w'. rewrite runMedia_exec. fold m. rewrite Hty.
    unfold itemExists, seasonVerdicts, eval in Hex, Hvl, Hvo.
    fold m in Hex. rewrite Hty in Hex.
    unfold exec. rewrite runShow_unfold in *. simpl in *.
    fold m objs in Hex, Hvl, Hvo |- *.
    set (p := mediaExistsInPlex env m objs (caches st)) in *.
    set (s := mediaExistsInSonarr env m objs p.2) in *.
    set (loop := forOf (Media.seasons m) _ _ _) in *.
    destruct (seasonLoop_spec p.1.1.2 p.1.2 s.1.1.2 s.1.2 (Media.seasons m)
                {| caches := s.2; world := world st |})
      as (_ & Hcols & _ & Hmaps).
    fold loop in Hcols, Hmaps. simpl in Hcols, Hmaps.
    fold m objs in Hcols, Hmaps.
    assert (lost ∈ Media.seasons m ∧ other ∈ Media.seasons m) as [Hinl Hino].
    { destruct Hseasons as [-> | ->]; split;
        repeat first [apply list_elem_of_here | apply list_elem_of_further]. }
    destruct (Hmaps lost sl Hinl Hsl) as [Hl _].
    destruct (Hmaps other so Hino Hso) as [Ho _].
    rewrite Hl in Hvl. rewrite Ho in Hvo.
    injection Hvl as Hvl. injection Hvo as Hvo.
    set (e4k := readFlagOpt p.1.2 (Season.seasonNumber sl)
                || readFlag s.1.2 (Season.seasonNumber sl)).
    exists e4k.
    destruct (seasonUpdater_lost_non4k lost e4k (world st) sl Hsl Hs Hs4k
                Hm Hm4k) as (Hobjs & _).
    assert (world loop.2 = exec (seasonUpdater lost false e4k) (world st))
      as Hloop.
    { subst loop. destruct Hseasons as [-> | ->]; rewrite forOf_pair.
      - (* the lost season first *)
        set (r := runSeason _ _ _ _ lost _ _).
        assert (world r.2 = exec (seasonUpdater lost false e4k) (world st))
          as Hr.
        { subst r. rewrite (runSeason_world _ _ _ _ _ _ _ sl) by done.
          fold e4k. rewrite Hvl, Hs. done. }
        rewrite (runSeason_world _ _ _ _ _ _ _ so)
          by (by rewrite Hr, Hobjs, list_lookup_insert_ne).
        rewrite Hvo, Hr. simpl.
        match goal with |- context [if ?b then _ else _] => destruct b end;
          [|done].
        eapply seasonUpdater_noop; [|exact Hs4k'].
        by rewrite Hobjs, list_lookup_insert_ne.
      - (* the other season first: nothing happens to it *)
        set (r := runSeason _ _ _ _ other _ _).
        assert (world r.2 = world st) as Hr.
        { subst r. rewrite (runSeason_world _ _ _ _ _ _ _ so) by done.
          rewrite Hvo. simpl.
          match goal with |- context [if ?b then _ else _] => destruct b end;
            [|done].
          by eapply seasonUpdater_noop. }
        rewrite (runSeason_world _ _ _ _ _ _ _ sl) by (by rewrite Hr).
        fold e4k. by rewrite Hvl, Hs, Hr. }
    apply sameColumns_fields in Hcols as (_ & _ & _ & Hst4k & _).
    rewrite Hst4k, Hm4k, Hex. simpl. by rewrite andb_false_r. }
  destruct (seasonUpdater_lost_non4k lost e4k (world st) sl Hsl Hs Hs4k Hm Hm4k)
    as (Hobjs & _ & Hstored & Hreq).
  rewrite <- Hw' in Hobjs, Hstored, Hreq. fold m objs d in Hobjs, Hstored, Hreq.
  split; [done|]. split; [by rewrite Hobjs, list_lookup_insert_ne|].
  split; [done|]. rewrite Hreq. split.
  - intros sr rq. apply lost_requests_removed.
  - intros sr. by apply other_requests_kept.
Qed.

(** ** Seasons that are reset *)

Lemma seasonUpdater_other (ref ref' : nat) (e e4k : bool) (w : World) :
  ref ≠ ref' →
  seasonObjs (exec (seasonUpdater ref e e4k) w) !! ref' = seasonObjs w !! ref'.
Proof.
  intros Hne. rewrite seasonUpdater_exec.
  destruct (seasonObjs w !! ref) as [season|]; [|done]. simpl.
  destruct (resetSeason e e4k season).2; simpl;
    by rewrite list_lookup_insert_ne.
Qed.

(** A season whose non-4K status is available (the test of [run] reads no
    other) is reset for every tier in which it is available and has a false
    verdict. *)
Lemma lost_season_reset (env : Services) (st : State) (tier4k : bool)
    (ref : nat) (season : Season.t) :
  ref ∈ Media.seasons (media (world st)) →
  seasonObjs (world st) !! ref = Some season →
  Media.mediaType (media (world st)) = tv →
  availableOrPartial (Season.status season) = true →
  availableOrPartial (seasonStatusOf tier4k season) = true →
  pick tier4k (seasonVerdicts env st) !! Season.seasonNumber season
  = Some false →
  ∃ season',
    seasonObjs (world (exec (runMedia env) st)) !! ref = Some season'
    ∧ seasonStatusOf tier4k season' = MediaStatus.UNKNOWN.
Proof.
  intros Hin Href Hty Hgate Hav Hv.
  rewrite (seasonVerdicts_merge env st tier4k ref season Hin Href) in Hv.
  injection Hv as Hv.
  rewrite runShow_seasonObjs by done.
  unfold plexVerdicts, sonarrVerdicts, eval, exec in Hv.
  set (m := media (world st)) in *. set (objs := seasonObjs (world st)) in *.
  set (p := mediaExistsInPlex env m objs (caches st)) in *.
  set (s := mediaExistsInSonarr env m objs p.2) in *.
  assert (pick tier4k
            (readFlagOpt p.1.1.2 (Season.seasonNumber season)
             || readFlag s.1.1.2 (Season.seasonNumber season),
             readFlagOpt p.1.2 (Season.seasonNumber season)
             || readFlag s.1.2 (Season.seasonNumber season)) = false) as Hv'.
  { destruct p as [[[[? ?] ?] ?] ?], s as [[[[? ?] ?] ?] ?].
    by destruct tier4k. }
  clear Hv.
  pose (I := λ (visited : list nat) (_ : gmap Z bool * gmap Z bool)
               (s' : State),
    (ref ∉ visited → seasonObjs (world s') !! ref = Some season)
    ∧ (ref ∈ visited →
       ∃ season', seasonObjs (world s') !! ref = Some season'
                  ∧ seasonStatusOf tier4k season' = MediaStatus.UNKNOWN)).
  destruct (forOf_ind I (runSeason p.1.1.2 p.1.2 s.1.1.2 s.1.2)
              (Media.seasons m)) with (visited := @nil nat)
              (acc := ((∅, ∅) : gmap Z bool * gmap Z bool))
              (s := {| caches := s.2; world := world st |})
    as [_ Hdone].
  - intros visited x acc s' _ [Hnot Hvis]. unfold I.
    destruct (decide (x = ref)) as [->|Hne].
    + (* the season itself is visited *)
      split.
      { intros H. exfalso. apply H, elem_of_app. right.
        apply list_elem_of_here. }
      intros _.
      destruct (decide (ref ∈ visited)) as [Hold|Hnew].
      * (* again: it stays UNKNOWN *)
        destruct (Hvis Hold) as (cur & Hcur & Hun).
        rewrite runSeason_unfold, Hcur. simpl.
        match goal with |- context [if ?b then _ else _] => destruct b end;
          [|by exists cur].
        match goal with
        | |- context [seasonUpdater ref ?e ?e4k] =>
            pose proof (seasonUpdater_one_way tier4k ref e e4k (world s'))
              as Hone
        end.
        apply Forall2_same_length_lookup in Hone as [Hlen Hone].
        match goal with
        | |- ∃ _, ?l !! ref = _ ∧ _ =>
            destruct (lookup_lt_is_Some_2 l ref) as [cur' Hcur']
        end.
        { rewrite <- Hlen. by eapply lookup_lt_Some. }
        exists cur'. split; [done|].
        destruct (Hone ref cur cur' Hcur Hcur') as [-> | [Habs _]]; [done|].
        by rewrite Hun in Habs.
      * (* for the first time: it is as loaded, and is reset *)
        specialize (Hnot Hnew).
        rewrite runSeason_unfold, Hnot. simpl.
        rewrite Hgate, !andb_true_r.
        assert (negb (readFlagOpt p.1.1.2 (Season.seasonNumber season)
                      || readFlag s.1.1.2 (Season.seasonNumber season))
                || negb (readFlagOpt p.1.2 (Season.seasonNumber season)
                         || readFlag s.1.2 (Season.seasonNumber season))
                = true) as ->.
        { destruct tier4k; simpl in Hv'; rewrite Hv'; simpl;
            by rewrite ?orb_true_r. }
        rewrite seasonUpdater_exec, Hnot. simpl.
        eexists. split.
        { destruct (resetSeason _ _ season).2; simpl;
            apply list_lookup_insert_eq; by eapply lookup_lt_Some. }
        rewrite resetSeason_spec. simpl.
        destruct tier4k; simpl in *; by rewrite Hav, Hv'.
    + (* another season is visited *)
      assert (seasonObjs
                (world (runSeason p.1.1.2 p.1.2 s.1.1.2 s.1.2 x acc s').2)
              !! ref = seasonObjs (world s') !! ref) as Hsame.
      { rewrite runSeason_unfold.
        destruct (seasonObjs (world s') !! x); [|done]. simpl.
        match goal with |- context [if ?b then _ else _] => destruct b end;
          [|done].
        by apply seasonUpdater_other. }
      rewrite Hsame. split.
      * intros H. apply Hnot. intros Hold. apply H, elem_of_app. by left.
      * intros H. apply Hvis. apply elem_of_app in H as [H|H]; [done|].
        apply list_elem_of_singleton in H. congruence.
  - split; [done|]. intros H. by apply elem_of_nil in H.
  - by apply Hdone.
Qed.

(** After a movie was processed its row holds the statuses of the entity. *)
Lemma runMovie_stored (env : Services) (st : State) (tier4k : bool) :
  let m := media (world st) in
  loaded st →
  Media.mediaType m = movie →
  let w' := world (exec (runMedia env) st) in
  storedStatus tier4k (Media.id m) (db w') = Some (statusOf tier4k (media w')).
Proof.
  intros m Hloaded Hty w'. subst w'. rewrite runMedia_exec. fold m.
  rewrite Hty. unfold exec. rewrite runMovie_unfold. simpl. fold m.
  destruct (_ || _).
  - apply mediaUpdater_stored.
  - unfold storedStatus. fold m. unfold loaded in Hloaded. simpl in Hloaded.
    fold m in Hloaded. by rewrite Hloaded.
Qed.


(** ** Further lemmas *)

Lemma mediaUpdater_fields (e e4k : bool) (w : World) :
  let w' := exec (mediaUpdater e e4k) w in
  seasonObjs w' = seasonObjs w
  ∧ Media.id (media w') = Media.id (media w)
  ∧ Media.mediaType (media w') = Media.mediaType (media w)
  ∧ Media.tmdbId (media w') = Media.tmdbId (media w)
  ∧ Media.seasons (media w') = Media.seasons (media w)
  ∧ seasonRequestTable (db w') = seasonRequestTable (db w)
  ∧ (∀ id, id ≠ Media.id (media w) →
       mediaTable (db w') !! id = mediaTable (db w) !! id)
  ∧ (Media.mediaType (media w) = tv →
     requestTable (db w') = requestTable (db w)).
Proof.
  simpl. rewrite mediaUpdater_exec. simpl.
  set (m1 := if availableOrPartial (Media.status (media w)) && negb e
             then _ else _).
  set (m2 := if availableOrPartial (Media.status4k m1) && negb e4k
             then _ else _).
  assert (Media.id m2 = Media.id (media w)
          ∧ Media.mediaType m2 = Media.mediaType (media w)
          ∧ Media.tmdbId m2 = Media.tmdbId (media w)
          ∧ Media.seasons m2 = Media.seasons (media w)) as (Hid & Hty & Htm & Hs).
  { subst m2 m1.
    by repeat match goal with
              | |- context [if ?b then _ else _] => destruct b
              end. }
  split; [done|]. split; [done|]. split; [done|]. split; [done|].
  split; [done|]. split; [|split].
  - by destruct ((0 <? _)%nat && _).
  - intros id Hne.
    assert (mediaTable (save m2 (seasonObjs w) (db w)) !! id
            = mediaTable (db w) !! id) as Hsave.
    { simpl. rewrite lookup_insert_ne; [done|]. by rewrite Hid. }
    by destruct ((0 <? _)%nat && _).
  - intros Htv. rewrite Htv. simpl. by rewrite andb_false_r.
Qed.

Lemma findSeasonRequests_elem (id n : Z) (d : Database)
    (sr : SeasonRequest.t) (rq : MediaRequest.t) :
  (sr, rq) ∈ findSeasonRequests id n d
  ↔ sr ∈ seasonRequestTable d
    ∧ SeasonRequest.seasonNumber sr = n
    ∧ List.find (λ r, (MediaRequest.id r =? SeasonRequest.request sr)%Z)
        (requestTable d) = Some rq
    ∧ MediaRequest.media rq = id.
Proof.
  unfold findSeasonRequests. rewrite list_elem_of_omap. split.
  - intros (sr' & Hin & Hjoin).
    destruct (SeasonRequest.seasonNumber sr' =? n)%Z eqn:Hn; [|done].
    apply Z.eqb_eq in Hn.
    destruct (List.find _ (requestTable d)) as [rq'|] eqn:Hfind; [|done].
    simpl in Hjoin.
    destruct (MediaRequest.media rq' =? id)%Z eqn:Hm; [|done].
    apply Z.eqb_eq in Hm. by injection Hjoin as -> ->.
  - intros (Hin & Hn & Hfind & Hm).
    exists sr. split; [done|].
    rewrite <- Hn, Z.eqb_refl, Hfind. simpl. by rewrite <- Hm, Z.eqb_refl.
Qed.

Lemma seasonRequestTable_update (id : Z) (f : Media.t → Media.t)
    (d : Database) :
  seasonRequestTable (update id f d) = seasonRequestTable d
  ∧ requestTable (update id f d) = requestTable d.
Proof. done. Qed.

Lemma radarrTry_fold (env : Services) (tier4k : bool) (ext : option Z)
    (servers : list DVRSettings.t) (e : bool) :
  fold_left (λ e server, radarrTry env tier4k server ext e) servers e = true
  ↔ e = true
    ∨ ∃ server id,
        server ∈ servers ∧ DVRSettings.is4k server = tier4k
        ∧ truthyNumber ext = Some id
        ∧ radarrKeeps (getMovie env server id) = true.
Proof.
  revert e. induction servers as [|server servers IH]; intros e; simpl.
  - split; [by left|]. intros [?|(? & ? & Hin & _)]; [done|].
    by apply elem_of_nil in Hin.
  - rewrite IH. unfold radarrTry at 1. split.
    + intros [He|(s & id & Hin & ?)].
      * destruct (Bool.eqb (DVRSettings.is4k server) tier4k) eqn:Htier;
          [|by left].
        apply eqb_prop in Htier.
        destruct (truthyNumber ext) as [id|] eqn:Hid; [|by left].
        destruct (getMovie env server id) as [radarr|message] eqn:Hget.
        -- destruct (RadarrMovie.hasFile radarr) eqn:Hfile; [|by left].
           right. exists server, id. split; [apply list_elem_of_here|].
           by rewrite Hget.
        -- destruct (transient message) eqn:Htr; [|by left].
           right. exists server, id. split; [apply list_elem_of_here|].
           by rewrite Hget.
      * right. exists s, id. split; [by apply list_elem_of_further|done].
    + intros [->|(s & id & Hin & Htier & Hid & Hkeep)].
      * left. by repeat case_match.
      * apply elem_of_cons in Hin as [->|Hin].
        -- left. rewrite Htier, eqb_reflx, Hid.
           destruct (getMovie env server id); simpl in Hkeep; by rewrite Hkeep.
        -- right. by exists s, id.
Qed.

Lemma sonarrFlags_fold (env : Services) (tier4k : bool) (ext : option Z)
    (servers : list DVRSettings.t) (flags : bool * bool) :
  (fold_left (sonarrFlags env tier4k ext) servers flags).1 = true
  ↔ flags.1 = true
    ∨ ∃ server id,
        server ∈ servers ∧ DVRSettings.is4k server = tier4k
        ∧ truthyNumber ext = Some id
        ∧ sonarrKeeps (getSeriesById env server id) = true.
Proof.
  revert flags. induction servers as [|server servers IH]; intros flags; simpl.
  - split; [by left|]. intros [?|(? & ? & Hin & _)]; [done|].
    by apply elem_of_nil in Hin.
  - rewrite IH. unfold sonarrFlags at 1. split.
    + intros [He|(s & id & Hin & ?)].
      * destruct (Bool.eqb (DVRSettings.is4k server) tier4k) eqn:Htier;
          [|by left].
        apply eqb_prop in Htier.
        destruct (truthyNumber ext) as [id|] eqn:Hid; [|by left].
        destruct (getSeriesById env server id) as [sonarr|message] eqn:Hget.
        -- destruct (SonarrSeries.episodeFileCount sonarr >? 0)%Z eqn:Hfile;
             [|by left].
           right. exists server, id. split; [apply list_elem_of_here|].
           by rewrite Hget.
        -- destruct (transient message) eqn:Htr; [|by left].
           right. exists server, id. split; [apply list_elem_of_here|].
           by rewrite Hget.
      * right. exists s, id. split; [by apply list_elem_of_further|done].
    + intros [He|(s & id & Hin & Htier & Hid & Hkeep)].
      * left. by repeat case_match.
      * apply elem_of_cons in Hin as [->|Hin].
        -- left. rewrite Htier, eqb_reflx, Hid.
           destruct (getSeriesById env server id); simpl in Hkeep;
             by rewrite Hkeep.
        -- right. by exists s, id.
Qed.

(** Every entry of the season maps is the answer computed for a season of
    that number. *)
Lemma seasonMaps_entries
    (seasonExists : Season.t → bool → bool → St Caches (bool * bool))
    (seasons : list Season.t) (p p4k : bool) (c : Caches) :
  (∀ season c, (seasonExists season p p4k c).2 = c) →
  let r := seasonMaps seasonExists seasons p p4k c in
  ∀ (tier4k : bool) (n : Z) (b : bool),
    pick tier4k r.1 !! n = Some b →
    ∃ season, season ∈ seasons ∧ Season.seasonNumber season = n
              ∧ pick tier4k (seasonExists season p p4k c).1 = b.
Proof.
  intros Hpure. unfold seasonMaps.
  destruct (negb p || negb p4k).
  2: { intros tier4k n b Hlook. exfalso.
       unfold mret, St_ret in Hlook.
       destruct tier4k; simpl in Hlook; by rewrite lookup_empty in Hlook. }
  pose (I := λ (visited : list Season.t) (maps : gmap Z bool * gmap Z bool)
               (c' : Caches),
    c' = c
    ∧ ∀ (tier4k : bool) (n : Z) (b : bool),
        pick tier4k maps !! n = Some b →
        ∃ season, season ∈ visited ∧ Season.seasonNumber season = n
                  ∧ pick tier4k (seasonExists season p p4k c).1 = b).
  cbv zeta iota.
  match goal with
  | |- context [forOf _ ?body _ _] =>
      pose proof (forOf_ind I body seasons) as Hind
  end.
  destruct Hind with (visited := @nil Season.t)
                     (acc := ((∅, ∅) : gmap Z bool * gmap Z bool)) (s := c)
    as (Hc & Hmaps).
  - intros visited x [map map4k] c' Hx (-> & Hmaps).
    unfold mbind, St_bind, mret, St_ret.
    pose proof (Hpure x c) as Hp.
    destruct (seasonExists x p p4k c) as [[e e4k] c1] eqn:Hex. simpl in *.
    subst c1. split; [done|].
    intros tier4k n b Hlook.
    destruct (decide (Season.seasonNumber x = n)) as [Heq|Hne].
    + exists x.
      split; [apply elem_of_app; right; by apply list_elem_of_singleton|].
      split; [done|]. rewrite Hex. subst n.
      destruct tier4k; simpl in *; rewrite lookup_insert_eq in Hlook;
        by injection Hlook.
    + destruct (Hmaps tier4k n b) as (season & Hin & Hn & Hb).
      { destruct tier4k; simpl in *; by rewrite lookup_insert_ne in Hlook. }
      exists season. split; [apply elem_of_app; by left|done].
  - split; [done|]. intros tier4k n b Hlook. exfalso.
    destruct tier4k; simpl in Hlook; by rewrite lookup_empty in Hlook.
  - simpl in Hmaps. intros tier4k n b Hlook.
    destruct (Hmaps tier4k n b Hlook) as (season & Hin & ?).
    by exists season.
Qed.

Lemma seasonsOf_elem_inv (m : Media.t) (objs : list Season.t)
    (season : Season.t) :
  season ∈ seasonsOf m objs →
  ∃ ref, ref ∈ Media.seasons m ∧ objs !! ref = Some season.
Proof. unfold seasonsOf. by rewrite list_elem_of_omap. Qed.

Lemma readFlag_true (map : gmap Z bool) (n : Z) :
  readFlag map n = true → map !! n = Some true.
Proof. unfold readFlag. by destruct (map !! n) as [[|]|]. Qed.

(** A true merged verdict comes from a season of that number that one of
    the two season checks found. *)
Lemma season_verdict_source (env : Services) (st : State) (tier4k : bool)
    (ref : nat) (season : Season.t) :
  let m := media (world st) in
  let objs := seasonObjs (world st) in
  ref ∈ Media.seasons m →
  objs !! ref = Some season →
  pick tier4k (seasonVerdicts env st) !! Season.seasonNumber season
  = Some true →
  ∃ ref' season' p c,
    ref' ∈ Media.seasons m ∧ objs !! ref' = Some season'
    ∧ Season.seasonNumber season' = Season.seasonNumber season
    ∧ (plexSeasonExists (ratingKeyOf tier4k m)
         (seasonStatusOf tier4k season') (Season.seasonNumber season') p c
       = true
       ∨ sonarrSeasonExists tier4k (externalServiceIdOf tier4k m)
           (seasonStatusOf tier4k season') (Season.seasonNumber season') p c
         = true).
Proof.
  intros m objs Hin Href Hv.
  rewrite (seasonVerdicts_merge env st tier4k ref season) in Hv by done.
  injection Hv as Hv. apply orb_true_iff in Hv.
  unfold plexVerdicts, sonarrVerdicts, eval, exec in Hv. fold m objs in Hv.
  rewrite mediaExistsInPlex_unfold in Hv.
  assert (∀ (P : Prop) (f : Season.t → bool → bool → St Caches (bool * bool))
            l p p4k c,
            (∀ season c, (f season p p4k c).2 = c) →
            readFlag (pick tier4k (seasonMaps f l p p4k c).1)
              (Season.seasonNumber season) = true →
            (∀ season', season' ∈ l →
               Season.seasonNumber season' = Season.seasonNumber season →
               pick tier4k (f season' p p4k c).1 = true → P) → P) as Hsrc.
  { intros P f l p p4k c Hpure Hflag HP.
    apply readFlag_true in Hflag.
    destruct (seasonMaps_entries f l p p4k c Hpure tier4k _ _ Hflag)
      as (season' & Hel & Hn & Hb).
    by apply (HP season'). }
  assert (∀ p p4k c season',
            pick tier4k (seasonExistsInSonarr m season' p p4k c).1 = true →
            sonarrSeasonExists tier4k (externalServiceIdOf tier4k m)
              (seasonStatusOf tier4k season') (Season.seasonNumber season')
              (pick tier4k (p, p4k)) c = true) as Hson
    by (intros p p4k c season'; by destruct tier4k).
  assert (∀ p p4k c season',
            pick tier4k (seasonExistsInPlex m season' p p4k c).1 = true →
            plexSeasonExists (ratingKeyOf tier4k m)
              (seasonStatusOf tier4k season') (Season.seasonNumber season')
              (pick tier4k (p, p4k)) c = true) as Hplex
    by (intros p p4k c season'; by destruct tier4k).
  match type of Hv with
  | context [mediaExistsInSonarr env m ?objs ?c] =>
      destruct (mediaExistsInSonarr_unfold env m objs c) as [c2 Heq]
  end.
  rewrite Heq in Hv. clear Heq.
  destruct (bool_decide (Media.mediaType m = movie)); simpl in Hv;
    destruct Hv as [Hv|Hv]; try (by destruct tier4k).
  - assert (readFlag (pick tier4k (seasonMaps (seasonExistsInSonarr m)
              (seasonsOf m objs)
              (fold_left (sonarrFlags env false (Media.externalServiceId m))
                 (sonarrServers env) (false, false)).2
              (fold_left (sonarrFlags env true (Media.externalServiceId4k m))
                 (sonarrServers env) (false, false)).2 c2).1)
              (Season.seasonNumber season) = true) as Hflag
      by (by destruct tier4k).
    eapply Hsrc; [|exact Hflag|]; [done|].
    intros season' Hel Hn Hb.
    apply seasonsOf_elem_inv in Hel as (ref' & Hin' & Href').
    eexists ref', season', _, _. split; [done|]. split; [done|].
    split; [done|]. right. by apply Hson.
  - match type of Hv with
    | context [seasonMaps ?f ?l ?p ?p4k ?c] =>
        assert (readFlag (pick tier4k (seasonMaps f l p p4k c).1)
                  (Season.seasonNumber season) = true) as Hflag
          by (by destruct tier4k)
    end.
    eapply Hsrc; [|exact Hflag|]; [done|].
    intros season' Hel Hn Hb.
    apply seasonsOf_elem_inv in Hel as (ref' & Hin' & Href').
    eexists ref', season', _, _. split; [done|]. split; [done|].
    split; [done|]. left. by apply Hplex.
  - match type of Hv with
    | context [seasonMaps ?f ?l ?p ?p4k ?c] =>
        assert (readFlag (pick tier4k (seasonMaps f l p p4k c).1)
                  (Season.seasonNumber season) = true) as Hflag
          by (by destruct tier4k)
    end.
    eapply Hsrc; [|exact Hflag|]; [done|].
    intros season' Hel Hn Hb.
    apply seasonsOf_elem_inv in Hel as (ref' & Hin' & Href').
    eexists ref', season', _, _. split; [done|]. split; [done|].
    split; [done|]. right. by apply Hson.
Qed.

Lemma no_manager_verdict (env : Services) (st : State) (tier4k : bool) :
  let m := media (world st) in
  truthyNumber (externalServiceIdOf tier4k m) = None →
  pick tier4k (itemExists env st)
  = (plexFlags env (Media.mediaType m) (ratingKeyOf tier4k m)).1.
Proof.
  intros m Hid. destruct (Media.mediaType m) eqn:Hty.
  - rewrite itemExists_movie by done. fold m.
    rewrite <- (orb_false_r (plexFlags _ _ _).1) at 2. f_equal.
    apply not_true_is_false. intros Htrue.
    apply radarrTry_fold in Htrue as [?|(server & id & _ & _ & Hsome & _)];
      [done|]. by rewrite Hid in Hsome.
  - rewrite itemExists_show by done. fold m.
    rewrite <- (orb_false_r (plexFlags _ _ _).1) at 2. f_equal.
    apply not_true_is_false. intros Htrue.
    apply sonarrFlags_fold in Htrue as [?|(server & id & _ & _ & Hsome & _)];
      [done|]. by rewrite Hid in Hsome.
Qed.

Lemma includes_infix (needle pre post : string) :
  includes needle (pre +:+ needle +:+ post) = true.
Proof.
  assert (∀ s, String.prefix needle s = true → includes needle s = true)
    as Hprefix by (intros s Hs; destruct s; simpl in *; by rewrite Hs).
  induction pre as [|a pre IH]; simpl.
  - apply Hprefix. clear. induction needle as [|a needle IH]; simpl.
    + by destruct post.
    + destruct (Ascii.ascii_dec a a); [done|congruence].
  - rewrite IH. apply orb_true_r.
Qed.

Lemma runMedia_untouched (env : Services) (st : State) :
  let m := media (world st) in
  let objs := seasonObjs (world st) in
  (∀ tier4k,
     availableOrPartial (statusOf tier4k m) = true →
     pick tier4k (itemExists env st) = true) →
  (∀ tier4k ref season,
     ref ∈ Media.seasons m →
     objs !! ref = Some season →
     availableOrPartial (seasonStatusOf tier4k season) = true →
     pick tier4k (seasonVerdicts env st) !! Season.seasonNumber season
     = Some true) →
  world (exec (runMedia env) st) = world st.
Proof.
  intros m objs Hitem Hseasons. rewrite runMedia_exec. fold m.
  destruct (Media.mediaType m) eqn:Hty.
  - (* a movie *)
    pose proof (Hitem false) as H1. pose proof (Hitem true) as H2.
    unfold itemExists in H1, H2. fold m in H1, H2. rewrite Hty in H1, H2.
    unfold exec, eval in *. rewrite runMovie_unfold in *. fold m in H1, H2 |- *.
    simpl in *.
    set (e := _ || _) in *. set (e4k := _ || _) in *.
    destruct (bool_decide (Media.status m = MediaStatus.AVAILABLE)) eqn:Hs.
    + apply bool_decide_eq_true in Hs. rewrite H1 by (by rewrite Hs). simpl.
      destruct (bool_decide (Media.status4k m = MediaStatus.AVAILABLE))
        eqn:Hs4.
      * apply bool_decide_eq_true in Hs4. by rewrite H2 by (by rewrite Hs4).
      * by rewrite andb_false_r.
    + rewrite andb_false_r. simpl.
      destruct (bool_decide (Media.status4k m = MediaStatus.AVAILABLE))
        eqn:Hs4.
      * apply bool_decide_eq_true in Hs4. by rewrite H2 by (by rewrite Hs4).
      * by rewrite andb_false_r.
  - (* a show *)
    assert (∀ tier4k ref season,
              ref ∈ Media.seasons m →
              objs !! ref = Some season →
              availableOrPartial (seasonStatusOf tier4k season) = true →
              readFlagOpt (pick tier4k (plexVerdicts env st))
                (Season.seasonNumber season)
              || readFlag (pick tier4k (sonarrVerdicts env st))
                   (Season.seasonNumber season) = true) as Htrue.
    { intros tier4k ref season Hin Href Hav.
      pose proof (Hseasons tier4k ref season Hin Href Hav) as Hv.
      rewrite (seasonVerdicts_merge env st tier4k ref season) in Hv by done.
      by injection Hv. }
    pose proof (Hitem false) as H1. pose proof (Hitem true) as H2.
    unfold itemExists in H1, H2. fold m in H1, H2. rewrite Hty in H1, H2.
    unfold plexVerdicts, sonarrVerdicts in Htrue.
    unfold exec, eval in *. rewrite runShow_unfold in *.
    fold m objs in H1, H2, Htrue |- *. simpl in *.
    set (p := mediaExistsInPlex env m objs (caches st)) in *.
    set (s := mediaExistsInSonarr env m objs p.2) in *.
    set (loop := forOf (Media.seasons m) _ _ _) in *.
    assert (world loop.2 = world st) as Hloop.
    { subst loop.
      pose (I := λ (visited : list nat) (_ : gmap Z bool * gmap Z bool)
                   (st' : State), world st' = world st).
      apply (forOf_ind I (runSeason p.1.1.2 p.1.2 s.1.1.2 s.1.2)
               (Media.seasons m)) with (visited := []); [|done].
      intros visited ref acc st' Hin Hw. unfold I in *.
      rewrite runSeason_unfold, Hw. fold objs.
      destruct (objs !! ref) as [season|] eqn:Href; [|done].
      simpl.
      pose proof (Htrue false ref season Hin Href) as Hv.
      pose proof (Htrue true ref season Hin Href) as Hv4k.
      destruct p as [[[[e e4k] pm] pm4k] c1].
      destruct s as [[[[se se4k] sm] sm4k] c2]. simpl in *.
      destruct (availableOrPartial (Season.status season)) eqn:Hav;
        [|by rewrite !andb_false_r].
      rewrite Hv by done. simpl. rewrite andb_true_r.
      destruct (readFlagOpt pm4k _ || readFlag sm4k _) eqn:Hflag; [done|].
      simpl. apply (seasonUpdater_noop ref false (world st) season Href).
      destruct (availableOrPartial (Season.status4k season)); [|done].
      by specialize (Hv4k eq_refl). }
    rewrite Hloop. fold m.
    destruct p as [[[[e e4k] pm] pm4k] c1].
    destruct s as [[[[se se4k] sm] sm4k] c2]. simpl in *.
    destruct (availableOrPartial (Media.status m)) eqn:Hs.
    + rewrite H1 by done. simpl.
      destruct (availableOrPartial (Media.status4k m)) eqn:Hs4.
      * by rewrite H2.
      * by rewrite andb_false_r.
    + rewrite andb_false_r. simpl.
      destruct (availableOrPartial (Media.status4k m)) eqn:Hs4.
      * by rewrite H2.
      * by rewrite andb_false_r.
Qed.

Lemma plexTry_movie_caches (env : Services) (key : option string)
    (c : Caches) :
  (plexTry env movie key c).2 = c.
Proof.
  unfold plexTry, mbind, St_bind, mret, St_ret, modify.
  repeat case_match; simplify_eq; done.
Qed.

Lemma fold_left_ext_in {A B : Type} (f g : A → B → A) (l : list B) (a : A) :
  (∀ x a, x ∈ l → f a x = g a x) → fold_left f l a = fold_left g l a.
Proof.
  revert a. induction l as [|x l IH]; intros a Hext; [done|].
  simpl. rewrite (Hext x a) by apply list_elem_of_here.
  apply IH. intros y b Hin. apply Hext. by apply list_elem_of_further.
Qed.

Lemma forOf_ext_in {S A B : Type} (f g : A → B → St S B) (l : list A)
    (acc : B) (s : S) :
  (∀ x acc s, x ∈ l → f x acc s = g x acc s) →
  forOf l f acc s = forOf l g acc s.
Proof.
  revert acc s. induction l as [|x l IH]; intros acc s Hext; [done|].
  simpl. unfold mbind, St_bind.
  rewrite (Hext x acc s) by apply list_elem_of_here.
  destruct (g x acc s) as [acc' s'].
  apply IH. intros y b s0 Hin. apply Hext. by apply list_elem_of_further.
Qed.

Lemma elem_of_enabled (servers : list DVRSettings.t) (server : DVRSettings.t) :
  server ∈ List.filter DVRSettings.syncEnabled servers
  ↔ server ∈ servers ∧ DVRSettings.syncEnabled server = true.
Proof. by rewrite list_elem_of_In, filter_In, <- list_elem_of_In. Qed.

Section PlexSeasons.
Context (env : Services) (client : PlexAPI.t) (key : string)
        (plexMedia : PlexMetadata.t) (children : list PlexMetadata.t).
Hypothesis has_client : plexClient env = Some client.
Hypothesis has_metadata : PlexAPI.getMetadata client key = Resolved plexMedia.
Hypothesis has_children :
  PlexAPI.getChildrenMetadata client key = Resolved children.

Lemma plexTry_resolved (ratingKey : option string) (c : Caches) :
  truthyString ratingKey = Some key →
  plexTry env tv ratingKey c
  = ((true, false), setPlexSeasons key (Some children) c).
Proof.
  intros Hkey. unfold plexTry.
  by rewrite Hkey, has_client, has_metadata, has_children.
Qed.

Lemma plexTry_other_key (mediaType : MediaType) (ratingKey : option string)
    (c : Caches) :
  truthyString ratingKey ≠ Some key →
  plexSeasonsCache (plexTry env mediaType ratingKey c).2 !! key
  = plexSeasonsCache c !! key.
Proof.
  intros Hkey. unfold plexTry, mbind, St_bind, mret, St_ret, modify.
  destruct (truthyString ratingKey) as [key'|]; [|done].
  assert (key' ≠ key) by congruence.
  repeat case_match; simplify_eq; simpl; by rewrite ?lookup_insert_ne.
Qed.

Lemma plexTries_cache (m : Media.t) (tier4k : bool) (c : Caches) :
  Media.mediaType m = tv →
  truthyString (ratingKeyOf tier4k m) = Some key →
  plexSeasonsCache
    (plexTry env tv (Media.ratingKey4k m)
       (plexTry env tv (Media.ratingKey m) c).2).2 !! key
  = Some (Some children).
Proof.
  intros Hty Hkey. destruct tier4k; simpl in Hkey.
  - rewrite plexTry_resolved by done. simpl. apply lookup_insert_eq.
  - rewrite (plexTry_resolved (Media.ratingKey m)) by done. simpl.
    destruct (decide (truthyString (Media.ratingKey4k m) = Some key))
      as [Hsame|Hne].
    + rewrite plexTry_resolved by done. simpl. apply lookup_insert_eq.
    + rewrite plexTry_other_key by done. simpl. apply lookup_insert_eq.
Qed.

Lemma plex_season_lookup (st : State) (tier4k : bool) (ref : nat)
    (season : Season.t) :
  let m := media (world st) in
  let n := Season.seasonNumber season in
  Media.mediaType m = tv →
  distinctSeasons (world st) →
  ref ∈ Media.seasons m →
  seasonObjs (world st) !! ref = Some season →
  truthyString (ratingKeyOf tier4k m) = Some key →
  availableOrPartial (seasonStatusOf tier4k season) = true →
  readFlagOpt (pick tier4k (plexVerdicts env st)) n
  = existsb (λ child, (PlexMetadata.index child =? n)%Z) children.
Proof.
  intros m n Hty Hnd Hin Href Hkey Hav. subst n.
  pose proof (seasonsOf_elem m _ ref season Hin Href) as Hel.
  unfold plexVerdicts, eval. fold m.
  rewrite mediaExistsInPlex_unfold, Hty. simpl.
  assert ((plexFlags env tv (ratingKeyOf tier4k m)).2 = false) as Hflag.
  { rewrite <- (plexTry_flags env tv _ emptyCaches).
    by rewrite plexTry_resolved. }
  match goal with
  | |- context [seasonMaps ?f ?l ?p ?p4k ?c] =>
      destruct (seasonMaps_spec f l p p4k c) as [_ Hmaps]; [done| |done|];
        [|destruct (Hmaps season Hel) as [H1 H2]]
  end.
  { destruct tier4k; simpl in Hflag; rewrite Hflag; by rewrite ?orb_true_r. }
  pose proof (plexTries_cache m tier4k (caches st) Hty Hkey) as Hcache.
  assert (∀ l : list PlexMetadata.t,
            bool_decide
              (is_Some (List.find
                          (λ child, (PlexMetadata.index child
                                     =? Season.seasonNumber season)%Z) l))
            = existsb (λ child, (PlexMetadata.index child
                                 =? Season.seasonNumber season)%Z) l)
    as Hfind.
  { induction l as [|child l IH]; simpl; [done|].
    destruct (PlexMetadata.index child =? _)%Z; [|done].
    by apply bool_decide_eq_true_2. }
  destruct tier4k; simpl in *; unfold readFlag.
  - rewrite H2. simpl. unfold plexSeasonExists.
    rewrite Hkey, Hav, Hcache, Hflag. simpl. by rewrite orb_false_r, Hfind.
  - rewrite H1. simpl. unfold plexSeasonExists.
    rewrite Hkey, Hav, Hcache, Hflag. simpl. by rewrite orb_false_r, Hfind.
Qed.
End PlexSeasons.

Section SonarrSeasons.
Context (env : Services) (m : Media.t) (tier4k : bool) (id : Z).
Hypothesis has_id : truthyNumber (externalServiceIdOf tier4k m) = Some id.

Let step (server : DVRSettings.t) (acc : (bool * bool) * (bool * bool))
  : St Caches ((bool * bool) * (bool * bool)) :=
  let '(flags, flags4k) := acc in
  flags' ← sonarrTry env false server (Media.externalServiceId m) flags;
  flags4k' ← sonarrTry env true server (Media.externalServiceId4k m) flags4k;
  mret (flags', flags4k').

Lemma sonarrTry_cache (tier : bool) (server : DVRSettings.t)
    (flags : bool * bool) (c : Caches) :
  sonarrSeasonsCache
    (sonarrTry env tier server (externalServiceIdOf tier m) flags c).2
    !! (tier4k, id)
  = if Bool.eqb tier tier4k && Bool.eqb (DVRSettings.is4k server) tier4k
    then match getSeriesById env server id with
         | Resolved sonarr => Some (SonarrSeries.seasons sonarr)
         | Rejected _ => sonarrSeasonsCache c !! (tier4k, id)
         end
    else sonarrSeasonsCache c !! (tier4k, id).
Proof.
  unfold sonarrTry, mbind, St_bind, mret, St_ret, modify.
  destruct (Bool.eqb tier tier4k) eqn:Htier; simpl.
  - apply eqb_prop in Htier as ->.
    destruct (Bool.eqb (DVRSettings.is4k server) tier4k); [|done].
    rewrite has_id.
    destruct (getSeriesById env server id); simpl; [|done].
    apply lookup_insert_eq.
  - apply eqb_false_iff in Htier.
    destruct (if Bool.eqb _ tier then _ else _) as [id'|]; [|done].
    destruct (getSeriesById env server id'); simpl; [|done].
    rewrite lookup_insert_ne; [done|]. congruence.
Qed.

Lemma sonarr_step_cache (server : DVRSettings.t)
    (acc : (bool * bool) * (bool * bool)) (c : Caches) :
  sonarrSeasonsCache (step server acc c).2 !! (tier4k, id)
  = if Bool.eqb (DVRSettings.is4k server) tier4k
    then match getSeriesById env server id with
         | Resolved sonarr => Some (SonarrSeries.seasons sonarr)
         | Rejected _ => sonarrSeasonsCache c !! (tier4k, id)
         end
    else sonarrSeasonsCache c !! (tier4k, id).
Proof.
  destruct acc as [flags flags4k]. unfold step, mbind, St_bind, mret, St_ret.
  pose proof (sonarrTry_cache false server flags c) as H1.
  destruct (sonarrTry env false server (externalServiceIdOf false m) flags c)
    as [f c1] eqn:Hf.
  change (externalServiceIdOf false m) with (Media.externalServiceId m) in Hf.
  rewrite Hf. simpl in H1.
  pose proof (sonarrTry_cache true server flags4k c1) as H2.
  destruct (sonarrTry env true server (externalServiceIdOf true m) flags4k c1)
    as [f4k c2] eqn:Hf4.
  change (externalServiceIdOf true m) with (Media.externalServiceId4k m) in Hf4.
  rewrite Hf4. simpl in *. rewrite H2, H1.
  destruct tier4k, (DVRSettings.is4k server); simpl; try done;
    by destruct (getSeriesById env server id).
Qed.

Lemma sonarrAnswers_cons (server : DVRSettings.t)
    (servers : list DVRSettings.t) :
  sonarrAnswers env tier4k id (server :: servers)
  = (if Bool.eqb (DVRSettings.is4k server) tier4k
     then match getSeriesById env server id with
          | Resolved sonarr => [SonarrSeries.seasons sonarr]
          | Rejected _ => []
          end
     else [])
    ++ sonarrAnswers env tier4k id servers.
Proof.
  unfold sonarrAnswers. simpl.
  destruct (Bool.eqb (DVRSettings.is4k server) tier4k); [|done].
  simpl. by destruct (getSeriesById env server id).
Qed.

Lemma sonarr_loop_cache (servers : list DVRSettings.t)
    (acc : (bool * bool) * (bool * bool)) (c : Caches) :
  sonarrSeasonsCache (forOf servers step acc c).2 !! (tier4k, id)
  = match last (sonarrAnswers env tier4k id servers) with
    | Some seasons => Some seasons
    | None => sonarrSeasonsCache c !! (tier4k, id)
    end.
Proof.
  revert acc c. induction servers as [|server servers IH]; intros acc c.
  - done.
  - simpl forOf. unfold mbind, St_bind.
    pose proof (sonarr_step_cache server acc c) as Hstep.
    destruct (step server acc c) as [acc' c']. simpl in Hstep.
    rewrite IH, Hstep, sonarrAnswers_cons.
    set (rest := sonarrAnswers env tier4k id servers).
    destruct (Bool.eqb (DVRSettings.is4k server) tier4k); [|done].
    destruct (getSeriesById env server id) as [sonarr|]; [|done].
    simpl. destruct rest as [|a rest]; [done|]. rewrite last_cons_cons.
    destruct (last (a :: rest)) eqn:Hlast; [done|].
    by apply last_None in Hlast.
Qed.
End SonarrSeasons.

Lemma plexTry_sonarrCache (env : Services) (mediaType : MediaType)
    (ratingKey : option string) (c : Caches) :
  sonarrSeasonsCache (plexTry env mediaType ratingKey c).2
  = sonarrSeasonsCache c.
Proof.
  unfold plexTry, mbind, St_bind, mret, St_ret, modify.
  repeat case_match; simplify_eq; done.
Qed.

Lemma seasonMaps_pure
    (seasonExists : Season.t → bool → bool → St Caches (bool * bool))
    (seasons : list Season.t) (p p4k : bool) (c : Caches) :
  (∀ season p p4k c, (seasonExists season p p4k c).2 = c) →
  (seasonMaps seasonExists seasons p p4k c).2 = c.
Proof.
  intros Hpure. unfold seasonMaps. destruct (negb p || negb p4k); [|done].
  generalize ((∅, ∅) : gmap Z bool * gmap Z bool).
  induction seasons as [|season seasons IH]; intros [map map4k]; [done|].
  simpl. unfold mbind, St_bind, mret, St_ret.
  pose proof (Hpure season p p4k c) as Hc.
  destruct (seasonExists season p p4k c) as [[e e4k] c']. simpl in Hc.
  subst c'. apply IH.
Qed.

Lemma mediaExistsInPlex_sonarrCache (env : Services) (m : Media.t)
    (objs : list Season.t) (c : Caches) :
  sonarrSeasonsCache (mediaExistsInPlex env m objs c).2
  = sonarrSeasonsCache c.
Proof.
  rewrite mediaExistsInPlex_unfold. cbv zeta.
  destruct (bool_decide (Media.mediaType m = movie)); simpl.
  - by rewrite !plexTry_sonarrCache.
  - rewrite seasonMaps_pure by done. by rewrite !plexTry_sonarrCache.
Qed.

(** [mediaExistsInSonarr] with the caches its server loop leaves. *)
Lemma mediaExistsInSonarr_loop (env : Services) (m : Media.t)
    (objs : list Season.t) (c : Caches) :
  let f := fold_left (sonarrFlags env false (Media.externalServiceId m))
             (sonarrServers env) (false, false) in
  let f4k := fold_left (sonarrFlags env true (Media.externalServiceId4k m))
               (sonarrServers env) (false, false) in
  let c2 :=
    (forOf (sonarrServers env)
       (λ server '(flags, flags4k),
          flags' ← sonarrTry env false server (Media.externalServiceId m)
                     flags;
          flags4k' ← sonarrTry env true server (Media.externalServiceId4k m)
                       flags4k;
          mret (flags', flags4k'))
       ((false, false), (false, false)) c).2 in
  let maps := seasonMaps (seasonExistsInSonarr m) (seasonsOf m objs)
                f.2 f4k.2 c2 in
  mediaExistsInSonarr env m objs c = ((f.1, f4k.1, maps.1.1, maps.1.2), maps.2).
Proof.
  simpl. unfold mediaExistsInSonarr, mbind, St_bind, mret, St_ret.
  pose proof (sonarrServers_flags env m (sonarrServers env) (false, false)
                (false, false) c) as H.
  destruct (forOf _ _ _ c) as [[[e p] [e4k p4k]] c2]. simpl in H.
  injection H as <- <-. simpl.
  by destruct (seasonMaps _ _ _ _ _) as [[map map4k] c3].
Qed.

Lemma find_existsb {A : Type} (f : A → bool) (l : list A) :
  bool_decide (is_Some (List.find f l)) = existsb f l.
Proof.
  induction l as [|x l IH]; simpl; [done|].
  destruct (f x); [|done]. by apply bool_decide_eq_true_2.
Qed.

Lemma forOf_unit_app {S A : Type} (body : A → St S unit) (l1 l2 : list A)
    (s : S) :
  exec (forOf (l1 ++ l2) (λ x _, body x) ()) s
  = exec (forOf l2 (λ x _, body x) ())
      (exec (forOf l1 (λ x _, body x) ()) s).
Proof.
  revert s. induction l1 as [|x l1 IH]; intros s; [done|].
  simpl. unfold exec in *. simpl. unfold mbind, St_bind.
  destruct (body x s) as [[] s1]. apply IH.
Qed.

Lemma forOf_unit_cons {S A : Type} (body : A → St S unit) (x : A)
    (l : list A) (s : S) :
  exec (forOf (x :: l) (λ x _, body x) ()) s
  = exec (forOf l (λ x _, body x) ()) (exec (body x) s).
Proof.
  unfold exec. simpl. unfold mbind, St_bind. by destruct (body x s) as [[] s1].
Qed.

Section PaginationFacts.
Context {S : Type} (database : S → Database).
Context (body : Media.t * list Season.t → St S unit).

Let each (l : list (Media.t * list Season.t)) : St S unit :=
  forOf l (λ media _, body media) ().

Lemma loadAvailableMediaPaginated_step (fuel pageSize offset : nat) (s : S) :
  loadAvailableMediaPaginated database body (Datatypes.S fuel) pageSize offset
    s
  = let mediaPage := find whereOptions offset pageSize (database s) in
    let s' := exec (each mediaPage) s in
    if (0 <? length mediaPage)%nat
    then loadAvailableMediaPaginated database body fuel pageSize
           (offset + pageSize) s'
    else (true, s').
Proof.
  simpl. unfold mbind, St_bind, gets, exec, each.
  destruct (forOf _ _ _ s) as [[] s']. simpl.
  by destruct (0 <? _)%nat.
Qed.

(** A consumer that leaves the result of the query as it is. *)
Lemma stable_page (Inv : S → Prop) (result : list (Media.t * list Season.t)) :
  (∀ media s,
     Inv s → findAll whereOptions (database s) = result → media ∈ result →
     Inv (exec (body media) s)
     ∧ findAll whereOptions (database (exec (body media) s)) = result) →
  ∀ page s,
    (∀ media, media ∈ page → media ∈ result) →
    Inv s → findAll whereOptions (database s) = result →
    Inv (exec (each page) s)
    ∧ findAll whereOptions (database (exec (each page) s)) = result.
Proof.
  intros Hbody page. induction page as [|media page IH]; intros s Hsub Hinv Hres.
  - done.
  - unfold each. rewrite forOf_unit_cons.
    destruct (Hbody media s Hinv Hres) as [Hinv' Hres'].
    { apply Hsub, list_elem_of_here. }
    apply IH; [|done..]. intros x Hx. by apply Hsub, list_elem_of_further.
Qed.

Lemma pagination_stable (Inv : S → Prop)
    (result : list (Media.t * list Season.t)) (pageSize : nat) :
  (0 < pageSize)%nat →
  (∀ media s,
     Inv s → findAll whereOptions (database s) = result → media ∈ result →
     Inv (exec (body media) s)
     ∧ findAll whereOptions (database (exec (body media) s)) = result) →
  ∀ fuel offset s,
    Inv s → findAll whereOptions (database s) = result →
    (0 < fuel)%nat →
    (length result + pageSize ≤ offset + fuel * pageSize)%nat →
    loadAvailableMediaPaginated database body fuel pageSize offset s
    = (true, exec (each (drop offset result)) s).
Proof.
  intros Hpos Hbody fuel.
  induction fuel as [|fuel IH]; intros offset s Hinv Hres Hsome Hfuel.
  - lia.
  - rewrite loadAvailableMediaPaginated_step. cbv zeta.
    unfold find. rewrite Hres.
    set (page := take pageSize (drop offset result)).
    destruct (stable_page Inv result Hbody page s) as [Hinv' Hres']; [|done..|].
    { intros x Hx. subst page.
      apply (elem_of_sublist _ result) in Hx; [done|].
      etrans; [apply sublist_take|apply sublist_drop]. }
    destruct (0 <? length page)%nat eqn:Hlen.
    + apply Nat.ltb_lt in Hlen.
      assert (offset < length result)%nat as Hlt.
      { subst page. rewrite length_take, length_drop in Hlen. lia. }
      rewrite IH; [|done..|destruct fuel; lia|lia].
      f_equal. unfold each.
      rewrite <- forOf_unit_app. subst page.
      by rewrite <- drop_drop, take_drop.
    + apply Nat.ltb_ge in Hlen.
      assert (drop offset result = []) as Hnil.
      { subst page. rewrite length_take, length_drop in Hlen.
        apply length_zero_iff_nil. rewrite length_drop. lia. }
      subst page. by rewrite Hnil, take_nil.
Qed.
End PaginationFacts.

Lemma sublist_drop_S {A : Type} (l : list A) (n : nat) :
  drop (Datatypes.S n) l `sublist_of` drop n l.
Proof.
  revert n. induction l as [|x l IH]; intros n; [by rewrite !drop_nil|].
  destruct n as [|n]; [|apply IH]. simpl. rewrite drop_0. by constructor.
Qed.

Lemma sublist_drop_mono {A : Type} (l1 l2 : list A) (n : nat) :
  l1 `sublist_of` l2 → drop n l1 `sublist_of` drop n l2.
Proof.
  intros H. revert n. induction H as [|x l1 l2 H IH|x l1 l2 H IH]; intros n.
  - by rewrite drop_nil.
  - destruct n as [|n]; [rewrite !drop_0; by constructor|]. apply IH.
  - destruct n as [|n]; [rewrite !drop_0; by constructor|]. simpl.
    etrans; [apply sublist_drop_S|apply IH].
Qed.

Section YieldedFacts.
Context {S : Type} (database : S → Database).
Context (body : Media.t * list Season.t → St S unit).

Let each (l : list (Media.t * list Season.t)) : St S unit :=
  forOf l (λ media _, body media) ().

(** The state the generator leaves is the state the loop body leaves after
    it ran on the yielded items, in order. *)
Lemma yielded_exec (fuel pageSize offset : nat) (s : S) :
  (loadAvailableMediaPaginated database body fuel pageSize offset s).2
  = exec (each (yielded database body fuel pageSize offset s)) s.
Proof.
  revert offset s. induction fuel as [|fuel IH]; intros offset s; [done|].
  rewrite loadAvailableMediaPaginated_step. cbv zeta. simpl.
  unfold each. rewrite forOf_unit_app.
  destruct (0 <? _)%nat; [apply IH|done].
Qed.

Context (Inv : S → Prop) (pageSize : nat).

Hypothesis page_shrinks :
  ∀ offset s,
    Inv s →
    let s' := exec (each (find whereOptions offset pageSize (database s))) s in
    Inv s' ∧ resultIds (database s') `sublist_of` resultIds (database s).

Lemma yielded_sublist (fuel offset : nat) (s : S) :
  Inv s →
  (λ entity, Media.id entity.1)
    <$> yielded database body fuel pageSize offset s
  `sublist_of` drop offset (resultIds (database s)).
Proof.
  revert offset s. induction fuel as [|fuel IH]; intros offset s Hinv.
  - apply sublist_nil_l.
  - simpl. rewrite fmap_app.
    destruct (page_shrinks offset s Hinv) as [Hinv' Hsub].
    rewrite <- (take_drop pageSize (drop offset (resultIds (database s)))).
    apply sublist_app.
    + unfold find, resultIds. by rewrite fmap_take, fmap_drop.
    + destruct (0 <? _)%nat; [|apply sublist_nil_l].
      etrans; [by apply IH|]. rewrite drop_drop.
      by apply sublist_drop_mono.
Qed.
End YieldedFacts.

Lemma load_id (row : MediaRow) : Media.id (load row).1 = Media.id (columns row).
Proof. done. Qed.

Lemma load_where (row : MediaRow) :
  whereOptions (load row).1 = whereOptions (columns row).
Proof. done. Qed.

Lemma elem_of_rowIds (d : Database) (id : Z) :
  id ∈ rowIds d ↔ is_Some (mediaTable d !! id).
Proof.
  unfold rowIds. rewrite merge_sort_Permutation, elem_of_elements.
  apply elem_of_dom.
Qed.

Lemma NoDup_rowIds (d : Database) : NoDup (rowIds d).
Proof.
  unfold rowIds. rewrite merge_sort_Permutation. apply NoDup_elements.
Qed.

Lemma elem_of_rows (d : Database) (row : MediaRow) :
  row ∈ rows d ↔ ∃ id, mediaTable d !! id = Some row.
Proof.
  unfold rows. rewrite list_elem_of_omap. split.
  - intros (id & _ & ?). by exists id.
  - intros (id & Hid). exists id. split; [|done].
    apply elem_of_rowIds. by rewrite Hid.
Qed.

Lemma elem_of_findAll (d : Database) (entity : Media.t * list Season.t) :
  wellKeyed d →
  entity ∈ findAll whereOptions d →
  fresh d entity ∧ whereOptions entity.1 = true.
Proof.
  intros Hkeys. unfold findAll. rewrite list_elem_of_fmap.
  intros (row & -> & Hrow).
  apply list_elem_of_In, filter_In in Hrow as [Hrow Hwhere].
  apply list_elem_of_In, elem_of_rows in Hrow as (id & Hid).
  split; [|done]. exists row. split; [|done].
  by rewrite load_id, (Hkeys id row Hid).
Qed.

(** The rows after a write that touches the row of [k] only. *)
Lemma rows_change (d d' : Database) (k : Z) (row' : MediaRow) :
  wellKeyed d →
  is_Some (mediaTable d !! k) →
  mediaTable d' !! k = Some row' →
  (∀ id, id ≠ k → mediaTable d' !! id = mediaTable d !! id) →
  rows d'
  = (λ row, if bool_decide (Media.id (columns row) = k) then row' else row)
      <$> rows d.
Proof.
  intros Hkeys Hk Hk' Hother.
  assert (rowIds d' = rowIds d) as Hids.
  { unfold rowIds. f_equal. f_equal. apply set_eq. intros id.
    rewrite !elem_of_dom. destruct (decide (id = k)) as [->|Hne].
    - by rewrite Hk'.
    - by rewrite Hother. }
  unfold rows. rewrite Hids. clear Hids.
  induction (rowIds d) as [|id ids IH]; [done|].
  simpl. destruct (decide (id = k)) as [->|Hne].
  - rewrite Hk'. destruct Hk as [row Hrow]. rewrite Hrow. simpl.
    rewrite bool_decide_eq_true_2 by (by apply Hkeys). f_equal. apply IH.
  - rewrite Hother by done.
    destruct (mediaTable d !! id) as [row|] eqn:Hrow; [|apply IH].
    simpl. rewrite bool_decide_eq_false_2.
    + f_equal. apply IH.
    + by rewrite (Hkeys id row Hrow).
Qed.

Lemma wellKeyed_change (d d' : Database) (k : Z) (row' : MediaRow) :
  wellKeyed d →
  mediaTable d' !! k = Some row' →
  Media.id (columns row') = k →
  (∀ id, id ≠ k → mediaTable d' !! id = mediaTable d !! id) →
  wellKeyed d'.
Proof.
  intros Hkeys Hk' Hid Hother id row Hrow.
  destruct (decide (id = k)) as [->|Hne].
  - rewrite Hk' in Hrow. by injection Hrow as <-.
  - rewrite Hother in Hrow by done. by apply Hkeys.
Qed.

(** A write to the row of an item that satisfied the query does not make
    the result of the query longer. *)
Lemma findAll_length_change (d d' : Database) (k : Z) (row row' : MediaRow) :
  wellKeyed d →
  mediaTable d !! k = Some row →
  whereOptions (columns row) = true →
  mediaTable d' !! k = Some row' →
  (∀ id, id ≠ k → mediaTable d' !! id = mediaTable d !! id) →
  (length (findAll whereOptions d') ≤ length (findAll whereOptions d))%nat.
Proof.
  intros Hkeys Hk Hwhere Hk' Hother.
  unfold findAll. rewrite !length_fmap.
  rewrite (rows_change d d' k row') by done.
  assert (∀ r, r ∈ rows d → Media.id (columns r) = k → r = row) as Hrow.
  { intros r (id & Hid)%elem_of_rows Hrk.
    rewrite (Hkeys id r Hid) in Hrk. subst id. congruence. }
  induction (rows d) as [|r l IH]; [done|].
  rewrite fmap_cons. simpl.
  destruct (bool_decide (Media.id (columns r) = k)) eqn:Hrk.
  - apply bool_decide_eq_true in Hrk.
    rewrite (Hrow r) by (done || apply list_elem_of_here). rewrite Hwhere.
    destruct (whereOptions (columns row')); simpl.
    + apply le_n_S, IH. intros r' Hr'. apply Hrow.
      by apply list_elem_of_further.
    + apply le_S, IH. intros r' Hr'. apply Hrow.
      by apply list_elem_of_further.
  - destruct (whereOptions (columns r)); simpl.
    + apply le_n_S, IH. intros r' Hr'. apply Hrow.
      by apply list_elem_of_further.
    + apply IH. intros r' Hr'. apply Hrow. by apply list_elem_of_further.
Qed.

(** A write to the row of an item that satisfied the query takes no id into
    the result of the query. *)
Lemma findAll_ids_change (d d' : Database) (k : Z) (row row' : MediaRow) :
  wellKeyed d →
  mediaTable d !! k = Some row →
  whereOptions (columns row) = true →
  mediaTable d' !! k = Some row' →
  Media.id (columns row') = k →
  (∀ id, id ≠ k → mediaTable d' !! id = mediaTable d !! id) →
  resultIds d' `sublist_of` resultIds d.
Proof.
  intros Hkeys Hk Hwhere Hk' Hid' Hother.
  unfold resultIds, findAll. rewrite <- !list_fmap_compose.
  rewrite (rows_change d d' k row') by done.
  assert (∀ r, r ∈ rows d → Media.id (columns r) = k → r = row) as Hrow.
  { intros r (id & Hid)%elem_of_rows Hrk.
    rewrite (Hkeys id r Hid) in Hrk. subst id. congruence. }
  induction (rows d) as [|r l IH]; [done|].
  assert (∀ r, r ∈ l → Media.id (columns r) = k → r = row) as Hl.
  { intros r' Hr'. apply Hrow. by apply list_elem_of_further. }
  rewrite fmap_cons. simpl.
  destruct (bool_decide (Media.id (columns r) = k)) eqn:Hrk.
  - apply bool_decide_eq_true in Hrk.
    rewrite (Hrow r) by (done || apply list_elem_of_here). rewrite Hwhere.
    destruct (whereOptions (columns row')); simpl.
    + rewrite Hid'. rewrite <- (Hrow r) by (done || apply list_elem_of_here).
      rewrite Hrk. constructor. by apply IH.
    + constructor. by apply IH.
  - destruct (whereOptions (columns r)); simpl; [constructor|]; by apply IH.
Qed.

Lemma touchesOnly_save (k : Z) (d : Database) (w : World) (m' : Media.t)
    (objs : list Season.t) :
  touchesOnly k d w → Media.id m' = k →
  touchesOnly k d {| media := m'; seasonObjs := objs;
                     db := save m' objs (db w) |}.
Proof.
  intros (Hid & Hother & Hrow) Hid'. split; [done|]. simpl. split.
  - intros id Hne. rewrite Hid', lookup_insert_ne by done. by apply Hother.
  - rewrite Hid', lookup_insert_eq. by eexists.
Qed.

Lemma touchesOnly_db (k : Z) (d : Database) (w : World) (d' : Database) :
  touchesOnly k d w →
  (∀ id, id ≠ k → mediaTable d' !! id = mediaTable (db w) !! id) →
  (∀ row, mediaTable (db w) !! k = Some row →
     ∃ row', mediaTable d' !! k = Some row'
             ∧ Media.id (columns row') = Media.id (columns row)) →
  touchesOnly k d {| media := media w; seasonObjs := seasonObjs w; db := d' |}.
Proof.
  intros (Hid & Hother & row & Hrow & Hrid) Hother' Hrow'.
  split; [done|]. simpl. split.
  - intros id Hne. rewrite Hother' by done. by apply Hother.
  - destruct (Hrow' row Hrow) as (row' & ? & ?). exists row'.
    split; [done|]. congruence.
Qed.

Lemma touchesOnly_update (k : Z) (d : Database) (w : World)
    (f : Media.t → Media.t) :
  (∀ m, Media.id (f m) = Media.id m) →
  touchesOnly k d w →
  touchesOnly k d {| media := media w; seasonObjs := seasonObjs w;
                     db := update k f (db w) |}.
Proof.
  intros Hf H. apply touchesOnly_db; [done|..]; simpl.
  - intros id Hne. by rewrite lookup_alter_ne.
  - intros row Hrow. rewrite lookup_alter_eq, Hrow. simpl.
    eexists. split; [done|]. simpl. apply Hf.
Qed.

Lemma touchesOnly_seasonObjs (k : Z) (d : Database) (w : World)
    (objs : list Season.t) :
  touchesOnly k d w →
  touchesOnly k d {| media := media w; seasonObjs := objs; db := db w |}.
Proof. done. Qed.

Lemma seasonUpdater_touchesOnly (k : Z) (d : Database) (ref : nat)
    (e e4k : bool) (w : World) :
  touchesOnly k d w → touchesOnly k d (exec (seasonUpdater ref e e4k) w).
Proof.
  intros H. rewrite seasonUpdater_exec.
  destruct (seasonObjs w !! ref) as [season|]; [|done].
  cbv zeta. destruct (resetSeason e e4k season).2.
  2: { by apply touchesOnly_seasonObjs. }
  pose proof H as (Hid & _).
  set (m' := Media.set_seasons _ _).
  set (objs := <[ref := _]> _).
  pose proof (touchesOnly_save k d w m' objs H Hid) as H1.
  rewrite Hid.
  set (w1 := {| media := m'; seasonObjs := objs;
                db := save m' objs (db w) |}) in H1.
  change (save m' objs (db w)) with (db w1).
  assert (∀ (b : bool) f w2,
            (∀ m, Media.id (f m) = Media.id m) →
            seasonObjs w2 = objs → media w2 = m' →
            touchesOnly k d w2 →
            touchesOnly k d
              {| media := m'; seasonObjs := objs;
                 db := if b then update k f (db w2) else db w2 |}) as Hup.
  { intros b f w2 Hf <- <- H2. destruct b; [by apply touchesOnly_update|].
    by destruct w2. }
  pose proof (Hup (bool_decide (Media.status (media w) = MediaStatus.AVAILABLE)
                   && negb e)
                (Media.set_status MediaStatus.PARTIALLY_AVAILABLE) w1
                ltac:(done) eq_refl eq_refl H1) as H2.
  set (w2 := {| media := m'; seasonObjs := objs; db := _ |}) in H2.
  pose proof (Hup (bool_decide (Media.status4k (media w)
                                = MediaStatus.AVAILABLE) && negb e4k)
                (Media.set_status4k MediaStatus.PARTIALLY_AVAILABLE) w2
                ltac:(done) eq_refl eq_refl H2) as H3.
  simpl in H3.
  destruct (0 <? length _)%nat; [|exact H3].
  apply (touchesOnly_db k d _ _ H3); simpl; [done|].
  intros row Hrow. by exists row.
Qed.

Lemma mediaUpdater_touchesOnly (k : Z) (d : Database) (e e4k : bool)
    (w : World) :
  touchesOnly k d w → touchesOnly k d (exec (mediaUpdater e e4k) w).
Proof.
  intros H. pose proof H as (Hid & _).
  destruct (mediaUpdater_fields e e4k w) as (Hobjs & Hid' & _).
  rewrite mediaUpdater_exec in *. cbv zeta in *. simpl in Hid'.
  set (m2 := if availableOrPartial (Media.status4k _) && negb e4k
             then _ else _) in *.
  pose proof (touchesOnly_save k d w m2 (seasonObjs w) H
                ltac:(by rewrite Hid')) as H1.
  destruct (_ && bool_decide _); [|done].
  apply (touchesOnly_db k d _ _ H1); simpl; [done|].
  intros row Hrow. by exists row.
Qed.

Lemma seasonLoop_touchesOnly (k : Z) (d : Database)
    (pm pm4k : option (gmap Z bool)) (sm sm4k : gmap Z bool) (l : list nat)
    (st : State) :
  touchesOnly k d (world st) →
  touchesOnly k d (world (forOf l (runSeason pm pm4k sm sm4k) (∅, ∅) st).2).
Proof.
  intros H.
  pose (I := λ (_ : list nat) (_ : gmap Z bool * gmap Z bool) (st' : State),
          touchesOnly k d (world st')).
  apply (forOf_ind I (runSeason pm pm4k sm sm4k) l) with (visited := []);
    [|done].
  intros visited ref acc st' _ H'. unfold I in *.
  rewrite runSeason_unfold.
  destruct (seasonObjs (world st') !! ref) as [season|]; [|done].
  simpl. destruct (_ || _); [|done]. by apply seasonUpdater_touchesOnly.
Qed.

Lemma runMedia_touchesOnly (env : Services) (k : Z) (d : Database)
    (st : State) :
  touchesOnly k d (world st) →
  touchesOnly k d (world (exec (runMedia env) st)).
Proof.
  intros H. rewrite runMedia_exec.
  destruct (Media.mediaType (media (world st))).
  - unfold exec. rewrite runMovie_unfold. simpl.
    destruct (_ || _); [|done]. by apply mediaUpdater_touchesOnly.
  - unfold exec. rewrite runShow_unfold. simpl.
    match goal with
    | |- context [forOf ?l (runSeason ?a ?b ?c ?d0) _ ?s] =>
        pose proof (seasonLoop_touchesOnly k d a b c d0 l s H) as Hloop
    end.
    destruct (_ || _); [|done]. by apply mediaUpdater_touchesOnly.
Qed.

(** What the processing of an item that is what its row holds does to the
    media table. *)
Lemma runItem_rows (env : Services) (entity : Media.t * list Season.t)
    (c : Caches) (d : Database) :
  fresh d entity →
  let d' := (exec (runItem env entity) (c, d)).2 in
  let k := Media.id entity.1 in
  (∀ id, id ≠ k → mediaTable d' !! id = mediaTable d !! id)
  ∧ ∃ row', mediaTable d' !! k = Some row' ∧ Media.id (columns row') = k.
Proof.
  intros (row & Hrow & Hload). simpl.
  assert (touchesOnly (Media.id entity.1) d
            {| media := entity.1; seasonObjs := entity.2; db := d |}) as H.
  { split; [done|]. split; [done|]. exists row. split; [done|].
    by rewrite <- Hload. }
  apply (runMedia_touchesOnly env _ _
           {| caches := c;
              world := {| media := entity.1; seasonObjs := entity.2;
                          db := d |} |}) in H.
  by destruct H as (_ & ? & ?).
Qed.

Section RunInvariant.
Context (env : Services) (P : Database → Prop).

(** [P] holds of the store across the processing of one item. *)
Hypothesis item_keeps :
  ∀ entity c d,
    wellKeyed d → fresh d entity → whereOptions entity.1 = true →
    P d → P (exec (runItem env entity) (c, d)).2.

Lemma page_invariant (page : list (Media.t * list Season.t)) (s : RunState) :
  wellKeyed s.2 → P s.2 →
  NoDup ((λ entity, Media.id entity.1) <$> page) →
  (∀ entity, entity ∈ page → fresh s.2 entity ∧ whereOptions entity.1 = true) →
  let s' := exec (forOf page (λ media _, runItem env media) ()) s in
  wellKeyed s'.2 ∧ P s'.2.
Proof.
  revert s. induction page as [|entity page IH]; intros [c d] Hkeys HP Hnd Hpage.
  - done.
  - cbv zeta. rewrite forOf_unit_cons.
    rewrite fmap_cons in Hnd. apply NoDup_cons in Hnd as [Hnot Hnd].
    destruct (Hpage entity) as [Hfresh Hwhere]; [apply list_elem_of_here|].
    destruct (runItem_rows env entity c d Hfresh)
      as (Hother & row' & Hrow' & Hid').
    simpl in Hkeys, HP.
    pose proof (item_keeps entity c d Hkeys Hfresh Hwhere HP) as HP'.
    destruct (exec (runItem env entity) (c, d)) as [c' d'] eqn:Hexec.
    simpl in *.
    apply IH; simpl; [|done..|].
    + by apply (wellKeyed_change d d' (Media.id entity.1) row').
    + intros entity' Hin.
      destruct (Hpage entity') as [(row & Hrow & Hload) Hw];
        [by apply list_elem_of_further|].
      split; [|done]. exists row. split; [|done].
      rewrite Hother; [done|]. intros Heq. apply Hnot.
      rewrite <- Heq. by apply (list_elem_of_fmap_2 (λ e, Media.id e.1)).
Qed.

Lemma find_page (d : Database) (offset pageSize : nat) :
  wellKeyed d →
  let page := find whereOptions offset pageSize d in
  NoDup ((λ entity, Media.id entity.1) <$> page)
  ∧ ∀ entity, entity ∈ page → fresh d entity ∧ whereOptions entity.1 = true.
Proof.
  intros Hkeys page. split.
  - apply (sublist_NoDup _ ((λ entity, Media.id entity.1)
                              <$> findAll whereOptions d)).
    + unfold findAll. rewrite <- list_fmap_compose.
      apply (sublist_NoDup _ ((λ row, Media.id (columns row)) <$> rows d)).
      * unfold rows.
        assert (∀ ids, NoDup ids →
                  NoDup ((λ row, Media.id (columns row))
                           <$> omap (λ id, mediaTable d !! id) ids)) as H.
        { intros ids. induction 1 as [|id ids Hnot Hnd IH]; [constructor|].
          simpl. destruct (mediaTable d !! id) as [row|] eqn:Hrow; [|done].
          rewrite fmap_cons. apply NoDup_cons. split; [|done].
          rewrite (Hkeys id row Hrow). intros Hin.
          apply list_elem_of_fmap in Hin as (row2 & Hid2 & Hin).
          apply list_elem_of_omap in Hin as (id2 & Hin2 & Hrow2).
          rewrite (Hkeys id2 row2 Hrow2) in Hid2. by subst id2. }
        apply H, NoDup_rowIds.
      * apply fmap_sublist.
        induction (rows d) as [|r l IH]; [done|]. simpl.
        destruct (whereOptions (columns r)); by constructor.
    + apply fmap_sublist. subst page. unfold find.
      etrans; [apply sublist_take|apply sublist_drop].
  - intros entity Hin. apply elem_of_findAll; [done|].
    apply (elem_of_sublist _ _ _ Hin). subst page. unfold find.
    etrans; [apply sublist_take|apply sublist_drop].
Qed.

Lemma pass_invariant (fuel pageSize offset : nat) (s : RunState) :
  wellKeyed s.2 → P s.2 →
  let r := loadAvailableMediaPaginated snd (runItem env) fuel pageSize offset
             s in
  wellKeyed r.2.2 ∧ P r.2.2.
Proof.
  revert offset s. induction fuel as [|fuel IH]; intros offset s Hkeys HP.
  - done.
  - cbv zeta. rewrite loadAvailableMediaPaginated_step. cbv zeta.
    destruct (find_page s.2 offset pageSize Hkeys) as [Hnd Hpage].
    destruct (page_invariant _ s Hkeys HP Hnd Hpage) as [Hkeys' HP'].
    destruct (0 <? _)%nat; [|done]. by apply IH.
Qed.
End RunInvariant.

Lemma runItem_length (env : Services) (entity : Media.t * list Season.t)
    (c : Caches) (d : Database) :
  wellKeyed d → fresh d entity → whereOptions entity.1 = true →
  (length (findAll whereOptions (exec (runItem env entity) (c, d)).2)
   ≤ length (findAll whereOptions d))%nat.
Proof.
  intros Hkeys Hfresh Hwhere.
  destruct (runItem_rows env entity c d Hfresh) as (Hother & row' & Hrow' & _).
  destruct Hfresh as (row & Hrow & Hload).
  apply (findAll_length_change d _ (Media.id entity.1) row row'); try done.
  by rewrite <- load_where, Hload.
Qed.

Lemma runItem_ids (env : Services) (entity : Media.t * list Season.t)
    (c : Caches) (d : Database) :
  wellKeyed d → fresh d entity → whereOptions entity.1 = true →
  resultIds (exec (runItem env entity) (c, d)).2 `sublist_of` resultIds d.
Proof.
  intros Hkeys Hfresh Hwhere.
  destruct (runItem_rows env entity c d Hfresh)
    as (Hother & row' & Hrow' & Hid').
  destruct Hfresh as (row & Hrow & Hload).
  apply (findAll_ids_change d _ (Media.id entity.1) row row'); try done.
  by rewrite <- load_where, Hload.
Qed.

(** The items of a page of [run]: the store keeps its keys and no id enters
    the result of the query. *)
Lemma runItem_page (env : Services) (offset pageSize : nat) (s : RunState) :
  wellKeyed s.2 →
  let s' := exec (forOf (find whereOptions offset pageSize s.2)
                    (λ media _, runItem env media) ()) s in
  wellKeyed s'.2 ∧ resultIds s'.2 `sublist_of` resultIds s.2.
Proof.
  intros Hkeys.
  destruct (find_page s.2 offset pageSize Hkeys) as [Hnd Hpage].
  apply (page_invariant env (λ d, resultIds d `sublist_of` resultIds s.2));
    [|done|done|done|done].
  intros entity c d ? ? ? ?. etrans; [by apply runItem_ids|done].
Qed.

Lemma pass_finishes (env : Services) (bound pageSize : nat) :
  (0 < pageSize)%nat →
  ∀ fuel offset (s : RunState),
    wellKeyed s.2 →
    (length (findAll whereOptions s.2) ≤ bound)%nat →
    (0 < fuel)%nat →
    (bound + pageSize ≤ offset + fuel * pageSize)%nat →
    (loadAvailableMediaPaginated snd (runItem env) fuel pageSize offset s).1
    = true.
Proof.
  intros Hpos fuel.
  induction fuel as [|fuel IH]; intros offset s Hkeys Hlen Hsome Hfuel; [lia|].
  rewrite loadAvailableMediaPaginated_step. cbv zeta.
  destruct (find_page s.2 offset pageSize Hkeys) as [Hnd Hpage].
  destruct (page_invariant env
              (λ d, (length (findAll whereOptions d) ≤ bound)%nat)
              ltac:(intros e c d ? ? ? ?; simpl in *; etrans; [by apply runItem_length|done])
              _ s Hkeys Hlen Hnd Hpage) as [Hkeys' Hlen'].
  destruct (0 <? _)%nat eqn:Hpage_len; [|done].
  apply Nat.ltb_lt in Hpage_len.
  unfold find in Hpage_len. rewrite length_take, length_drop in Hpage_len.
  apply IH; [done|done| |lia].
  destruct fuel; [|lia]. lia.
Qed.

Lemma pass_fuel (env : Services) (pageSize : nat) (fuel : nat) :
  ∀ offset (s : RunState),
    (loadAvailableMediaPaginated snd (runItem env) fuel pageSize offset s).1
    = true →
    ∀ extra,
      loadAvailableMediaPaginated snd (runItem env) (fuel + extra) pageSize
        offset s
      = loadAvailableMediaPaginated snd (runItem env) fuel pageSize offset s.
Proof.
  induction fuel as [|fuel IH]; intros offset s Hdone extra; [done|].
  change (Datatypes.S fuel + extra)%nat with (Datatypes.S (fuel + extra)).
  rewrite !loadAvailableMediaPaginated_step in *. cbv zeta in *.
  destruct (0 <? _)%nat; [|done]. by apply IH.
Qed.

Lemma run_result (env : Services) (fuel : nat) (d : Database) :
  (length (findAll whereOptions d) / 50 + 2 ≤ fuel)%nat →
  wellKeyed d →
  let r := loadAvailableMediaPaginated snd (runItem env) fuel 50 0
             (emptyCaches, d) in
  r.1 = true ∧ run env fuel d = Some r.2.2.
Proof.
  intros Hfuel Hkeys r.
  assert (r.1 = true) as Hdone.
  { apply (pass_finishes env (length (findAll whereOptions d)) 50);
      [lia|done|done|lia|].
    pose proof (Nat.div_mod_eq (length (findAll whereOptions d)) 50).
    pose proof (Nat.mod_upper_bound (length (findAll whereOptions d)) 50).
    lia. }
  split; [done|]. unfold run. fold r.
  destruct r as [finished [c d']]. simpl in *. by rewrite Hdone.
Qed.

Lemma fuel_bound (n pageSize fuel : nat) :
  (0 < pageSize)%nat → (n / pageSize + 2 ≤ fuel)%nat →
  (0 < fuel)%nat ∧ (n + pageSize ≤ fuel * pageSize)%nat.
Proof.
  intros Hpos Hfuel. split; [lia|].
  pose proof (Nat.div_mod_eq n pageSize).
  pose proof (Nat.mod_upper_bound n pageSize). nia.
Qed.

Lemma NoDup_resultIds (d : Database) : wellKeyed d → NoDup (resultIds d).
Proof.
  intros Hkeys.
  destruct (find_page d 0 (length (findAll whereOptions d)) Hkeys) as [Hnd _].
  unfold find in Hnd. by rewrite drop_0, firstn_all in Hnd.
Qed.

(** ** C7: the next status of a downgraded tier *)

(** C7. When [mediaUpdater] downgrades a tier (the tier's status is
    AVAILABLE or PARTIALLY_AVAILABLE and the tier does not exist), the status
    it writes is, for a show, PROCESSING if a joined request of the tier is
    APPROVED, else PENDING if one is PENDING, else UNKNOWN; for a movie it is
    UNKNOWN whatever the requests are. *)
Theorem next_status_from_requests (tier4k e e4k : bool) (w : World) :
  availableOrPartial (statusOf tier4k (media w)) = true →
  pick tier4k (e, e4k) = false →
  let requests := findRequests (Media.id (media w)) (db w) in
  let w' := exec (mediaUpdater e e4k) w in
  match Media.mediaType (media w) with
  | tv => nextStatus requests tier4k (statusOf tier4k (media w'))
  | movie => statusOf tier4k (media w') = MediaStatus.UNKNOWN
  end.
Proof.
  intros Hav Hex. simpl. rewrite mediaUpdater_status by done.
  destruct (Media.mediaType (media w)); simpl; [done|].
  apply findMediaStatus_nextStatus.
Qed.

(** ** C1: an item that is gone is downgraded *)

(** C1, amended.  Take an item whose status for a tier is AVAILABLE or
    PARTIALLY_AVAILABLE and whose aggregated existence verdict for that tier
    is false.  If the item is a show, or its status for the tier is
    AVAILABLE, or its other tier is AVAILABLE with a false verdict, then
    after the item has been processed its status for the tier is UNKNOWN,
    PENDING or PROCESSING, in the entity and in the store. *)
Theorem unavailable_item_downgraded (env : Services) (st : State)
    (tier4k : bool) :
  let m := media (world st) in
  availableOrPartial (statusOf tier4k m) = true →
  pick tier4k (itemExists env st) = false →
  Media.mediaType m = tv
  ∨ statusOf tier4k m = MediaStatus.AVAILABLE
  ∨ (statusOf (negb tier4k) m = MediaStatus.AVAILABLE
     ∧ pick (negb tier4k) (itemExists env st) = false) →
  let w' := world (exec (runMedia env) st) in
  downgraded (statusOf tier4k (media w'))
  ∧ availableOrPartial (statusOf tier4k (media w')) = false
  ∧ storedStatus tier4k (Media.id m) (db w')
    = Some (statusOf tier4k (media w')).
Proof.
  intros m Hav Hex Hgate w'.
  destruct (runMedia_downgrades env st tier4k Hav Hex Hgate) as (Hd & _ & Hs).
  split; [done|]. split; [|done].
  fold w' in Hd. by destruct Hd as [-> | [-> | ->]].
Qed.

(** ** C4: the merged verdict of a season *)

(** C4, amended.  For every season of a show and each tier, the merged
    verdict [run] computes for the season is the verdict of Plex for the
    season or the verdict of Sonarr for the season; the existence of the
    show itself is not part of it. *)
Theorem season_verdict_merges_season_probes (env : Services) (st : State)
    (tier4k : bool) (ref : nat) (season : Season.t) :
  ref ∈ Media.seasons (media (world st)) →
  seasonObjs (world st) !! ref = Some season →
  let n := Season.seasonNumber season in
  pick tier4k (seasonVerdicts env st) !! n
  = Some (readFlagOpt (pick tier4k (plexVerdicts env st)) n
          || readFlag (pick tier4k (sonarrVerdicts env st)) n).
Proof. apply seasonVerdicts_merge. Qed.

(** ** C10: a movie without stored references *)

(** C10.  For a movie with no stored reference for a tier (no rating key and
    no external service id), no probe is issued for the tier, whatever the
    services would answer; the existence verdict of the tier is false; and
    if the status of the tier is AVAILABLE, processing the movie resets it
    to UNKNOWN, in the entity and in the store. *)
Theorem movie_without_references (env : Services) (st : State)
    (tier4k : bool) :
  let m := media (world st) in
  Media.mediaType m = movie →
  ratingKeyOf tier4k m = None →
  externalServiceIdOf tier4k m = None →
  plexProbe env m tier4k = None
  ∧ managerProbes env m tier4k = []
  ∧ pick tier4k (itemExists env st) = false
  ∧ (statusOf tier4k m = MediaStatus.AVAILABLE →
     let w' := world (exec (runMedia env) st) in
     statusOf tier4k (media w') = MediaStatus.UNKNOWN
     ∧ storedStatus tier4k (Media.id m) (db w') = Some MediaStatus.UNKNOWN).
Proof.
  intros m Hty Hkey Hid.
  assert (pick tier4k (itemExists env st) = false) as Hex.
  { rewrite itemExists_movie by done. fold m. rewrite Hkey, Hid.
    by rewrite radarrTry_skipped. }
  split; [by unfold plexProbe; rewrite Hkey|].
  split; [by unfold managerProbes; rewrite Hid|].
  split; [done|].
  intros Hav w'.
  destruct (runMedia_downgrades env st tier4k) as (_ & Hun & Hs);
    [by fold m; rewrite Hav | done | by right; left |].
  fold m w' in Hun, Hs. rewrite Hun in Hs by done. by rewrite Hun.
Qed.

(** ** Probes that fail transiently *)

(** What the engine keeps of a tier whose probes fail, the skipped season
    search of C3 apart.  Suppose every probe issued for a tier of an item
    loaded from the store fails with an error that is not a "not found"
    answer, and at least one is issued.  Then the existence verdict of the
    item for that tier is true and the item transition does not reset the
    tier: the entity keeps its status, and the store holds that status or,
    for a show recorded as AVAILABLE, PARTIALLY_AVAILABLE (the season
    cascade).  If moreover the item is a show with distinct season numbers
    and, at Plex or at Sonarr, a probe of the tier is issued while no call
    for the other tier fails transiently, then every season whose status for
    the tier is AVAILABLE or PARTIALLY_AVAILABLE has a true merged verdict
    for the tier, and no season changes its status for the tier, in the
    objects and in the store. *)
Lemma transient_failures_keep_tier (env : Services) (st : State)
    (tier4k : bool) :
  let m := media (world st) in
  loaded st →
  allProbesTransient env m tier4k →
  let w' := world (exec (runMedia env) st) in
  pick tier4k (itemExists env st) = true
  ∧ statusOf tier4k (media w') = statusOf tier4k m
  ∧ (∃ stored, storedStatus tier4k (Media.id m) (db w') = Some stored
               ∧ (stored = statusOf tier4k m
                  ∨ (Media.mediaType m = tv
                     ∧ statusOf tier4k m = MediaStatus.AVAILABLE
                     ∧ stored = MediaStatus.PARTIALLY_AVAILABLE)))
  ∧ (Media.mediaType m = tv →
     otherTierAnswers env m tier4k →
     distinctSeasons (world st) →
     (∀ ref season,
        ref ∈ Media.seasons m →
        seasonObjs (world st) !! ref = Some season →
        availableOrPartial (seasonStatusOf tier4k season) = true →
        pick tier4k (seasonVerdicts env st) !! Season.seasonNumber season
        = Some true)
     ∧ seasonStatusOf tier4k <$> seasonObjs w'
       = seasonStatusOf tier4k <$> seasonObjs (world st)
     ∧ storedSeasonStatuses tier4k (Media.id m) (db w')
       = Some (seasonStatusOf tier4k <$> seasonObjs (world st))).
Proof.
  intros m Hloaded Hall w'.
  pose proof (itemExists_transient env st tier4k Hall) as Hex.
  destruct (runMedia_keeps env st tier4k Hex) as [Hkeep Hid].
  destruct (runMedia_inSync env st Hloaded) as (row & Hrow & Hrows & Hst).
  fold w' in Hkeep, Hid, Hrow, Hrows, Hst. fold m in Hkeep, Hid.
  rewrite Hid in Hrow.
  split; [done|]. split; [done|]. split.
  { destruct (Media.mediaType m) eqn:Hty.
    - exists (statusOf tier4k (media w')). split; [|by left].
      by apply runMovie_stored.
    - exists (statusOf tier4k (columns row)). unfold storedStatus.
      rewrite Hrow. split; [done|]. rewrite <- Hkeep.
      destruct (Hst tier4k) as [?|[? ?]]; [by left|by right]. }
  intros Hty Hquiet Hnd.
  assert (∀ ref season,
            ref ∈ Media.seasons m →
            seasonObjs (world st) !! ref = Some season →
            availableOrPartial (seasonStatusOf tier4k season) = true →
            readFlagOpt (pick tier4k (plexVerdicts env st))
              (Season.seasonNumber season)
            || readFlag (pick tier4k (sonarrVerdicts env st))
                 (Season.seasonNumber season) = true) as Htrue.
  { intros ref season Hin Href Hav.
    by apply (seasonVerdict_transient env st tier4k ref season). }
  assert (seasonStatusOf tier4k <$> seasonObjs w'
          = seasonStatusOf tier4k <$> seasonObjs (world st)) as Hobjs.
  { subst w'. rewrite runShow_seasonObjs by done. fold m.
    set (p := mediaExistsInPlex env m _ _).
    set (s := mediaExistsInSonarr env m _ _).
    apply (seasonLoop_statuses p.1.1.2 p.1.2 s.1.1.2 s.1.2 tier4k
             (Media.seasons m) {| caches := s.2; world := world st |}).
    simpl. intros ref season Hin Href Hav.
    specialize (Htrue ref season Hin Href Hav).
    unfold plexVerdicts, sonarrVerdicts, eval, exec in Htrue.
    fold m p s in Htrue.
    destruct p as [[[[e e4k] pm] pm4k] c1].
    destruct s as [[[[se se4k] sm] sm4k] c2].
    by destruct tier4k. }
  split; [|split; [done|]].
  - intros ref season Hin Href Hav.
    rewrite (seasonVerdicts_merge env st tier4k ref season) by done.
    f_equal. by apply (Htrue ref season).
  - unfold storedSeasonStatuses. rewrite Hrow. simpl.
    by rewrite Hrows, Hobjs.
Qed.

(** * Statements on concrete items *)

Import Scenario.

(** ** C1 *)

(** C1, counterexample.  A movie recorded as PARTIALLY_AVAILABLE whose Plex
    probe is answered "not found" (no Radarr server is configured) has a
    false verdict, yet it is still PARTIALLY_AVAILABLE after the pass: the
    test of [run] for movies lets AVAILABLE through only. *)
Lemma partially_available_movie_is_kept :
  let st' := exec (runMedia emptyPlex) partialMovie in
  Media.mediaType (media (world partialMovie)) = movie
  ∧ availableOrPartial (statusOf false (media (world partialMovie))) = true
  ∧ pick false (itemExists emptyPlex partialMovie) = false
  ∧ statusOf false (media (world st')) = MediaStatus.PARTIALLY_AVAILABLE
  ∧ storedStatus false 1 (db (world st'))
    = Some MediaStatus.PARTIALLY_AVAILABLE
  ∧ ¬ downgraded (statusOf false (media (world st'))).
Proof.
  vm_compute. repeat split; try reflexivity.
  intros [H | [H | H]]; discriminate H.
Qed.

(** C1, witness: a movie recorded as AVAILABLE that left Plex. *)
Lemma gone_movie_is_downgraded :
  availableOrPartial (statusOf false (media (world goneMovie))) = true
  ∧ pick false (itemExists emptyPlex goneMovie) = false
  ∧ (let st' := exec (runMedia emptyPlex) goneMovie in
     downgraded (statusOf false (media (world st')))
     ∧ availableOrPartial (statusOf false (media (world st'))) = false
     ∧ storedStatus false 1 (db (world st'))
       = Some (statusOf false (media (world st')))).
Proof.
  assert (availableOrPartial (statusOf false (media (world goneMovie))) = true)
    as H1 by (vm_compute; reflexivity).
  assert (pick false (itemExists emptyPlex goneMovie) = false)
    as H2 by (vm_compute; reflexivity).
  split; [exact H1|]. split; [exact H2|].
  apply (unavailable_item_downgraded emptyPlex goneMovie false H1 H2).
  right. left. vm_compute. reflexivity.
Defined.

(** ** C2 *)

(** C2, the code at a failing input.  A show is available in both tiers
    and has an approved 4K request; its 4K copy left Plex, its non-4K copy
    is still there.  The pass sets the 4K status to PROCESSING, the next
    status computed from the requests, and clears every 4K reference all
    the same: the test on the references reads the non-4K next status. *)
Lemma references_4k_cleared_when_processing :
  let m := media (world showLost4k) in
  let m' := media (world (exec (runMedia plexSeason1) showLost4k)) in
  itemExists plexSeason1 showLost4k = (true, false)
  ∧ Media.status4k m = MediaStatus.AVAILABLE
  ∧ (Media.serviceId4k m, Media.externalServiceSlug4k m, Media.ratingKey4k m)
    = (Some 1, Some "show", Some "202")
  ∧ Media.status4k m' = MediaStatus.PROCESSING
  ∧ (Media.serviceId4k m', Media.externalServiceId4k m',
     Media.externalServiceSlug4k m', Media.ratingKey4k m')
    = (None, None, None, None)
  ∧ Media.status m' = MediaStatus.AVAILABLE.
Proof. vm_compute. repeat split; reflexivity. Qed.

(** ** C3 *)

(** C3, the code at a failing input.  A show is AVAILABLE in both tiers,
    with one season that is AVAILABLE in both; Plex cannot be reached (the
    one probe of each tier fails with a connection error) and there is no
    Sonarr server.  The item verdicts are true, but both
    [preventSeasonSearch] flags being set, the test
    [!preventSeasonSearch || !preventSeasonSearch4k] skips the season loop:
    the maps stay empty, the merged verdict of the season is false in both
    tiers, the season is reset to UNKNOWN in both, in the objects and in the
    store, and the stored status of the show is lowered to
    PARTIALLY_AVAILABLE, although no server answered "not found". *)
Lemma unreachable_plex_resets_seasons :
  let st := showBothTiers in
  let st' := exec (runMedia plexDown) st in
  plexProbe plexDown (media (world st)) false = Some true
  ∧ plexProbe plexDown (media (world st)) true = Some true
  ∧ itemExists plexDown st = (true, true)
  ∧ seasonObjs (world st)
    = [Season.mk 1 MediaStatus.AVAILABLE MediaStatus.AVAILABLE]
  ∧ seasonObjs (world st')
    = [Season.mk 1 MediaStatus.UNKNOWN MediaStatus.UNKNOWN]
  ∧ managerProbes plexDown (media (world st)) false = []
  ∧ managerProbes plexDown (media (world st)) true = []
  ∧ pick false (seasonVerdicts plexDown st) !! 1 = Some false
  ∧ pick true (seasonVerdicts plexDown st) !! 1 = Some false
  ∧ storedSeasonStatuses false 1 (db (world st'))
    = Some [MediaStatus.UNKNOWN]
  ∧ storedSeasonStatuses true 1 (db (world st'))
    = Some [MediaStatus.UNKNOWN]
  ∧ (Media.status (media (world st')), Media.status4k (media (world st')))
    = (MediaStatus.AVAILABLE, MediaStatus.AVAILABLE)
  ∧ storedStatus false 1 (db (world st'))
    = Some MediaStatus.PARTIALLY_AVAILABLE
  ∧ storedStatus true 1 (db (world st'))
    = Some MediaStatus.PARTIALLY_AVAILABLE.
Proof. vm_compute. repeat split; reflexivity. Qed.

(** By design a season is searched for in a tier only where it is AVAILABLE
    or PARTIALLY_AVAILABLE.  A show is AVAILABLE in both tiers; its season 1
    is available in non-4K only and left the non-4K Plex server; the one
    probe of the 4K tier fails with a connection error.  The merged 4K
    verdict of season 1 is false, and the stored 4K status of the show goes
    from AVAILABLE to PARTIALLY_AVAILABLE by the cascade of the non-4K
    loss. *)
Lemma transient_4k_failure_with_lost_non4k_season :
  let st := showSeason1Non4k in
  let st' := exec (runMedia plex4kDown) st in
  plexProbe plex4kDown (media (world st)) true = Some true
  ∧ managerProbes plex4kDown (media (world st)) true = []
  ∧ pick true (itemExists plex4kDown st) = true
  ∧ pick true (seasonVerdicts plex4kDown st) !! 1 = Some false
  ∧ storedStatus true 1 (db (world st)) = Some MediaStatus.AVAILABLE
  ∧ storedStatus true 1 (db (world st'))
    = Some MediaStatus.PARTIALLY_AVAILABLE.
Proof. vm_compute. repeat split; reflexivity. Qed.

(** [transient_failures_keep_tier] on a show without a 4K copy whose non-4K
    Plex server cannot be reached: season 1 keeps its status. *)
Lemma unreachable_non4k_plex_keeps_show :
  let st := showNon4kOnly in
  let m := media (world st) in
  let w' := world (exec (runMedia plexNon4kDown) st) in
  loaded st
  ∧ allProbesTransient plexNon4kDown m false
  ∧ Media.mediaType m = tv
  ∧ otherTierAnswers plexNon4kDown m false
  ∧ distinctSeasons (world st)
  ∧ pick false (itemExists plexNon4kDown st) = true
  ∧ statusOf false (media w') = MediaStatus.AVAILABLE
  ∧ pick false (seasonVerdicts plexNon4kDown st) !! 1 = Some true
  ∧ seasonStatusOf false <$> seasonObjs w' = [MediaStatus.AVAILABLE]
  ∧ storedSeasonStatuses false 1 (db w') = Some [MediaStatus.AVAILABLE].
Proof.
  intros st m w'.
  assert (loaded st) as Hloaded by (vm_compute; reflexivity).
  assert (allProbesTransient plexNon4kDown m false) as Hall.
  { split; [by vm_compute|]. split.
    - intros b Hb. vm_compute in Hb. by apply elem_of_nil in Hb.
    - left. vm_compute. eauto. }
  assert (Media.mediaType m = tv) as Hty by reflexivity.
  assert (otherTierAnswers plexNon4kDown m false) as Hquiet.
  { left. split; [vm_compute; eauto|reflexivity]. }
  assert (distinctSeasons (world st)) as Hnd.
  { unfold distinctSeasons. vm_compute. apply NoDup_singleton. }
  destruct (transient_failures_keep_tier plexNon4kDown st false Hloaded Hall)
    as (Hex & Hkeep & _ & Hseasons).
  destruct (Hseasons Hty Hquiet Hnd) as (Hverdict & Hobjs & Hrows).
  split; [exact Hloaded|]. split; [exact Hall|]. split; [exact Hty|].
  split; [exact Hquiet|]. split; [exact Hnd|]. split; [exact Hex|].
  split; [exact Hkeep|]. split; [|split; [exact Hobjs | exact Hrows]].
  apply (Hverdict 0%nat (Season.mk 1 MediaStatus.AVAILABLE MediaStatus.UNKNOWN)).
  - vm_compute. apply list_elem_of_here.
  - reflexivity.
  - reflexivity.
Defined.

(** ** C4 *)

(** C4, counterexample.  The non-4K show still exists in Plex, which lists
    season 2 only: the item verdict is true, neither Plex nor Sonarr has
    season 1, and the merged verdict of season 1 is false. *)
Lemma existing_show_with_lost_season :
  let st := showLostSeason1 in
  pick false (itemExists plexSeason2 st) = true
  ∧ readFlagOpt (pick false (plexVerdicts plexSeason2 st)) 1 = false
  ∧ readFlag (pick false (sonarrVerdicts plexSeason2 st)) 1 = false
  ∧ pick false (seasonVerdicts plexSeason2 st) !! 1 = Some false
  ∧ pick false (seasonVerdicts plexSeason2 st) !! 1
    ≠ Some (readFlagOpt (pick false (plexVerdicts plexSeason2 st)) 1
            || readFlag (pick false (sonarrVerdicts plexSeason2 st)) 1
            || pick false (itemExists plexSeason2 st)).
Proof. vm_compute. repeat split; try reflexivity. discriminate. Qed.

(** C4, witness: season 1 of the same show. *)
Lemma lost_season_verdict_merges_sources :
  let st := showLostSeason1 in
  let season := Season.mk 1 MediaStatus.AVAILABLE MediaStatus.AVAILABLE in
  0%nat ∈ Media.seasons (media (world st))
  ∧ seasonObjs (world st) !! 0%nat = Some season
  ∧ pick false (seasonVerdicts plexSeason2 st) !! 1
    = Some (readFlagOpt (pick false (plexVerdicts plexSeason2 st)) 1
            || readFlag (pick false (sonarrVerdicts plexSeason2 st)) 1).
Proof.
  intros st season.
  assert (0%nat ∈ Media.seasons (media (world st))) as Hin
    by (vm_compute; apply list_elem_of_here).
  assert (seasonObjs (world st) !! 0%nat = Some season) as Href by reflexivity.
  split; [exact Hin|]. split; [exact Href|].
  exact (season_verdict_merges_season_probes plexSeason2 st false 0%nat season
           Hin Href).
Defined.

(** ** C5 *)

(** C5, the code at a failing input.  A show is available in 4K only; Plex
    still has the 4K show but no longer its season 1.  The 4K verdict of
    season 1 is false and its 4K status is AVAILABLE, but [seasonUpdater]
    is not called: both halves of the test in [run] read the non-4K status
    of the season.  The season stays AVAILABLE in 4K. *)
Lemma lost_4k_season_is_kept :
  let st := show4kOnly in
  let st' := exec (runMedia plex4kNoSeason) st in
  seasonObjs (world st)
  = [Season.mk 1 MediaStatus.UNKNOWN MediaStatus.AVAILABLE]
  ∧ pick true (seasonVerdicts plex4kNoSeason st) !! 1 = Some false
  ∧ seasonObjs (world st')
    = [Season.mk 1 MediaStatus.UNKNOWN MediaStatus.AVAILABLE]
  ∧ storedSeasonStatuses true 1 (db (world st'))
    = Some [MediaStatus.AVAILABLE].
Proof. vm_compute. repeat split; reflexivity. Qed.

(** ** C6 *)

(** C6, the code at a failing input.  A movie is AVAILABLE in both tiers
    and has one request per tier; its 4K copy left Plex, its non-4K copy is
    still there.  The pass resets the 4K status only, and deletes both
    requests: the query joins every request whose tier is recorded as
    available, whether or not that tier still exists. *)
Lemma request_of_existing_tier_is_deleted :
  let st := movieLost4k in
  let st' := exec (runMedia plexNon4k) st in
  itemExists plexNon4k st = (true, false)
  ∧ requestTable (db (world st)) = movieRequests
  ∧ Media.status (media (world st')) = MediaStatus.AVAILABLE
  ∧ Media.status4k (media (world st')) = MediaStatus.UNKNOWN
  ∧ requestTable (db (world st')) = [].
Proof. vm_compute. repeat split; reflexivity. Qed.

(** ** C7 *)

(** C7, witness: [mediaUpdater] on the show whose 4K copy left Plex; the
    approved 4K request makes the next 4K status PROCESSING. *)
Lemma approved_request_gives_processing :
  let w := world showLost4k in
  availableOrPartial (statusOf true (media w)) = true
  ∧ pick true (true, false) = false
  ∧ nextStatus (findRequests (Media.id (media w)) (db w)) true
      (statusOf true (media (exec (mediaUpdater true false) w)))
  ∧ statusOf true (media (exec (mediaUpdater true false) w))
    = MediaStatus.PROCESSING.
Proof.
  intros w.
  assert (availableOrPartial (statusOf true (media w)) = true) as H1
    by reflexivity.
  assert (pick true (true, false) = false) as H2 by reflexivity.
  split; [exact H1|]. split; [exact H2|]. split.
  - exact (next_status_from_requests true true false w H1 H2).
  - vm_compute. reflexivity.
Defined.

(** ** C8 and C9 *)

(** C8, the code at a failing input.  A show is AVAILABLE in non-4K with
    seasons 1 and 2 both AVAILABLE in non-4K; season 1 left Plex (and, being
    the only 4K season, took the 4K copy of the show with it), season 2 and
    the non-4K show are still there.  After the pass season 1 is UNKNOWN,
    its season request is deleted, season 2 and its request are as before,
    but the stored non-4K status of the show is AVAILABLE, not
    PARTIALLY_AVAILABLE: [mediaUpdater], called for the 4K tier, saves the
    entity, whose non-4K status still reads AVAILABLE, over the row the
    cascade had updated. *)
Lemma season_cascade_is_overwritten :
  let st := showLostSeason1 in
  let st' := exec (runMedia plexSeason2) st in
  statusOf false (media (world st)) = MediaStatus.AVAILABLE
  ∧ seasonStatusOf false <$> seasonObjs (world st)
    = [MediaStatus.AVAILABLE; MediaStatus.AVAILABLE]
  ∧ pick false (itemExists plexSeason2 st) = true
  ∧ pick false (seasonVerdicts plexSeason2 st) !! 1 = Some false
  ∧ pick false (seasonVerdicts plexSeason2 st) !! 2 = Some true
  ∧ seasonRequestTable (db (world st)) = showSeasonRequests
  ∧ seasonStatusOf false <$> seasonObjs (world st')
    = [MediaStatus.UNKNOWN; MediaStatus.AVAILABLE]
  ∧ storedSeasonStatuses false 1 (db (world st'))
    = Some [MediaStatus.UNKNOWN; MediaStatus.AVAILABLE]
  ∧ seasonRequestTable (db (world st')) = [SeasonRequest.mk 21 10 2]
  ∧ storedStatus false 1 (db (world st')) = Some MediaStatus.AVAILABLE.
Proof. vm_compute. repeat split; reflexivity. Qed.

(** The same show without a 4K copy: the cascade stands, as
    [season_cascade_without_4k_change] says of every such show. *)
Lemma season_cascade_stands_without_4k :
  let st := showNo4k in
  let w' := world (exec (runMedia plexSeason2) st) in
  seasonObjs w'
  = [ Season.mk 1 MediaStatus.UNKNOWN MediaStatus.UNKNOWN;
      Season.mk 2 MediaStatus.AVAILABLE MediaStatus.UNKNOWN ]
  ∧ storedStatus false 1 (db w') = Some MediaStatus.PARTIALLY_AVAILABLE
  ∧ SeasonRequest.mk 21 10 2 ∈ seasonRequestTable (db w').
Proof.
  intros st w'.
  destruct (season_cascade_without_4k_change plexSeason2 st 0%nat 1%nat
              (Season.mk 1 MediaStatus.AVAILABLE MediaStatus.UNKNOWN)
              (Season.mk 2 MediaStatus.AVAILABLE MediaStatus.UNKNOWN))
    as (Hobjs & _ & Hstored & _ & Hkept);
    try (vm_compute; reflexivity).
  - by left.
  - done.
  - vm_compute. apply NoDup_cons. split; [|apply NoDup_singleton].
    intros H%list_elem_of_singleton. discriminate H.
  - split; [exact Hobjs|]. split; [exact Hstored|].
    apply Hkept; [|done].
    vm_compute. apply list_elem_of_further, list_elem_of_here.
Qed.

(** C9, the code at a failing input: the writes of the same pass on the
    stored non-4K status of the show.  [seasonUpdater] for season 1 moves it
    from AVAILABLE to PARTIALLY_AVAILABLE; [seasonUpdater] for season 2
    changes nothing; [mediaUpdater] then writes AVAILABLE over
    PARTIALLY_AVAILABLE. *)
Lemma stored_status_is_set_back_to_available :
  let st := showLostSeason1 in
  let w0 := world st in
  let w1 := exec (seasonUpdater 0 false false) w0 in
  let w2 := exec (seasonUpdater 1 true false) w1 in
  let w3 := exec (mediaUpdater true false) w2 in
  world (exec (runMedia plexSeason2) st) = w3
  ∧ storedStatus false 1 (db w0) = Some MediaStatus.AVAILABLE
  ∧ storedStatus false 1 (db w1) = Some MediaStatus.PARTIALLY_AVAILABLE
  ∧ storedStatus false 1 (db w2) = Some MediaStatus.PARTIALLY_AVAILABLE
  ∧ storedStatus false 1 (db w3) = Some MediaStatus.AVAILABLE.
Proof. vm_compute. repeat split; reflexivity. Qed.

(** ** C10 *)

(** C10, witness: a movie recorded as AVAILABLE with no reference. *)
Lemma unreferenced_movie_is_reset :
  let st := unreferencedMovie in
  let m := media (world st) in
  Media.mediaType m = movie
  ∧ ratingKeyOf false m = None
  ∧ externalServiceIdOf false m = None
  ∧ statusOf false m = MediaStatus.AVAILABLE
  ∧ pick false (itemExists emptyPlex st) = false
  ∧ (let w' := world (exec (runMedia emptyPlex) st) in
     statusOf false (media w') = MediaStatus.UNKNOWN
     ∧ storedStatus false (Media.id m) (db w') = Some MediaStatus.UNKNOWN).
Proof.
  intros st m.
  assert (Media.mediaType m = movie) as H1 by reflexivity.
  assert (ratingKeyOf false m = None) as H2 by reflexivity.
  assert (externalServiceIdOf false m = None) as H3 by reflexivity.
  assert (statusOf false m = MediaStatus.AVAILABLE) as H4 by reflexivity.
  destruct (movie_without_references emptyPlex st false H1 H2 H3)
    as (_ & _ & Hex & Hreset).
  repeat split; try done; by apply Hreset.
Defined.

(** * Further properties of the code *)

(** Facts about the catalogs of the examples. *)

Lemma distinct_two_seasons : distinctSeasons (world showLostSeason1).
Proof. apply (bool_decide_unpack _). vm_compute. exact I. Qed.

Lemma distinct_one_season : distinctSeasons (world sonarrShow).
Proof. apply (bool_decide_unpack _). vm_compute. exact I. Qed.

Lemma movies_lookup (ids : list Z) (id : Z) (row : MediaRow) :
  mediaTable (movies ids) !! id = Some row → row = movieRow id.
Proof.
  unfold movies. simpl. intros Hrow.
  apply elem_of_list_to_map_2, list_elem_of_fmap in Hrow as (id' & Heq & _).
  by injection Heq as -> ->.
Qed.

Lemma movies_wellKeyed (ids : list Z) : wellKeyed (movies ids).
Proof. intros id row Hrow. by rewrite (movies_lookup ids id row Hrow). Qed.

Lemma shelf_wellKeyed : wellKeyed shelf.
Proof.
  intros id row Hrow. unfold shelf in Hrow. cbn [mediaTable] in Hrow.
  apply elem_of_list_to_map_2, list_elem_of_fmap in Hrow as (entry & Heq & _).
  by injection Heq as -> ->.
Qed.

Lemma mixedCatalog_wellKeyed : wellKeyed mixedCatalog.
Proof.
  intros id row Hrow. unfold mixedCatalog in Hrow. simpl in Hrow.
  apply lookup_insert_Some in Hrow as [[<- <-]|[_ Hrow]]; [done|].
  by apply lookup_singleton_Some in Hrow as [<- <-].
Qed.

(** X1.  [findMediaStatus] depends only on which request statuses occur among
    the requests of the tier: the order of the requests, repeated requests,
    requests of the other tier and requests that are neither APPROVED nor
    PENDING do not change its result. *)
Theorem next_status_ignores_order_and_other_requests
    (requests requests' : list MediaRequest.t) (is4k : bool) :
  (∀ s, s ≠ MediaRequestStatus.DECLINED →
        hasRequest requests is4k s ↔ hasRequest requests' is4k s) →
  findMediaStatus requests is4k = findMediaStatus requests' is4k.
Proof.
  intros Hsame.
  pose proof (Hsame MediaRequestStatus.APPROVED ltac:(done)) as Ha.
  pose proof (Hsame MediaRequestStatus.PENDING ltac:(done)) as Hp.
  pose proof (findMediaStatus_nextStatus requests is4k) as H1.
  pose proof (findMediaStatus_nextStatus requests' is4k) as H2.
  inversion H1; inversion H2; try done; tauto.
Qed.

Lemma next_status_of_reordered_requests :
  let approved4k := MediaRequest.mk 11 1 true MediaRequestStatus.APPROVED in
  let pending := MediaRequest.mk 10 1 false MediaRequestStatus.PENDING in
  let declined := MediaRequest.mk 12 1 false MediaRequestStatus.DECLINED in
  findMediaStatus [approved4k; pending; declined] false
  = findMediaStatus [pending; pending; approved4k] false.
Proof.
  intros approved4k pending declined.
  apply next_status_ignores_order_and_other_requests.
  intros s Hs. unfold hasRequest. split.
  - intros (r & Hin & H4k & Hst). exists r.
    repeat (apply elem_of_cons in Hin as [->|Hin]); simpl in *; try done.
    + split; [|done]. by apply list_elem_of_here.
    + by apply elem_of_nil in Hin.
  - intros (r & Hin & H4k & Hst). exists r.
    repeat (apply elem_of_cons in Hin as [->|Hin]); simpl in *; try done.
    + split; [|done]. apply list_elem_of_further, list_elem_of_here.
    + split; [|done]. apply list_elem_of_further, list_elem_of_here.
    + by apply elem_of_nil in Hin.
Defined.

(** X2.  When [mediaUpdater] downgrades the non-4K tier, the four non-4K
    references (service id, external service id, slug, rating key) are kept
    exactly when the status it writes is PROCESSING, and are all set to null
    otherwise. *)
Theorem non4k_references_follow_next_status (e4k : bool) (w : World) :
  availableOrPartial (Media.status (media w)) = true →
  let m := media w in
  let m' := media (exec (mediaUpdater false e4k) w) in
  let kept := bool_decide (Media.status m' = MediaStatus.PROCESSING) in
  Media.serviceId m' = keepIf kept (Media.serviceId m)
  ∧ Media.externalServiceId m' = keepIf kept (Media.externalServiceId m)
  ∧ Media.externalServiceSlug m' = keepIf kept (Media.externalServiceSlug m)
  ∧ Media.ratingKey m' = keepIf kept (Media.ratingKey m).
Proof.
  intros Hav. simpl. rewrite mediaUpdater_exec. simpl. rewrite Hav. simpl.
  by destruct (availableOrPartial (Media.status4k (media w)) && negb e4k).
Qed.

Lemma non4k_references_kept_while_processing :
  let w := world showLostSeason1 in
  availableOrPartial (Media.status (media w)) = true
  ∧ Media.status (media (exec (mediaUpdater false true) w))
    = MediaStatus.PROCESSING
  ∧ Media.ratingKey (media (exec (mediaUpdater false true) w)) = Some "201".
Proof.
  split; [reflexivity|]. split; [reflexivity|].
  exact (proj2 (proj2 (proj2
    (non4k_references_follow_next_status true (world showLostSeason1)
       eq_refl)))).
Defined.

(** X3.  When [mediaUpdater] downgrades the 4K tier, the four 4K references
    are kept exactly when the item is a show whose non-4K tier is gone as well
    and has an APPROVED non-4K request among the joined requests (the test
    reads [mediaStatus]); in every other case, and always for a movie, they
    are set to null. *)
Theorem references_4k_follow_non4k_next_status (e : bool) (w : World) :
  availableOrPartial (Media.status4k (media w)) = true →
  let m := media w in
  let m' := media (exec (mediaUpdater e false) w) in
  let kept :=
    bool_decide (Media.mediaType m = tv) && negb e
    && bool_decide (findMediaStatus (findRequests (Media.id m) (db w)) false
                    = MediaStatus.PROCESSING) in
  Media.serviceId4k m' = keepIf kept (Media.serviceId4k m)
  ∧ Media.externalServiceId4k m' = keepIf kept (Media.externalServiceId4k m)
  ∧ Media.externalServiceSlug4k m' = keepIf kept (Media.externalServiceSlug4k m)
  ∧ Media.ratingKey4k m' = keepIf kept (Media.ratingKey4k m).
Proof.
  intros Hav. simpl. rewrite mediaUpdater_exec. simpl.
  destruct (availableOrPartial (Media.status (media w)) && negb e) eqn:Hgate;
    simpl; rewrite Hav; simpl;
    destruct (bool_decide (Media.mediaType (media w) = tv)), e; simpl; done.
Qed.

Lemma references_4k_of_movie_cleared :
  let w := world movieLost4k in
  availableOrPartial (Media.status4k (media w)) = true
  ∧ Media.ratingKey4k (media (exec (mediaUpdater true false) w)) = None.
Proof.
  split; [reflexivity|].
  exact (proj2 (proj2 (proj2
    (references_4k_follow_non4k_next_status true (world movieLost4k)
       eq_refl)))).
Defined.

(** X4.  [mediaUpdater] leaves alone the season objects, the id, type, TMDB id
    and season array of the entity, the season requests and the rows of every
    other item; for a show it deletes no request. *)
Theorem mediaUpdater_frame (e e4k : bool) (w : World) :
  let w' := exec (mediaUpdater e e4k) w in
  seasonObjs w' = seasonObjs w
  ∧ Media.id (media w') = Media.id (media w)
  ∧ Media.mediaType (media w') = Media.mediaType (media w)
  ∧ Media.tmdbId (media w') = Media.tmdbId (media w)
  ∧ Media.seasons (media w') = Media.seasons (media w)
  ∧ seasonRequestTable (db w') = seasonRequestTable (db w)
  ∧ (∀ id, id ≠ Media.id (media w) →
       mediaTable (db w') !! id = mediaTable (db w) !! id)
  ∧ (Media.mediaType (media w) = tv →
     requestTable (db w') = requestTable (db w)).
Proof. apply mediaUpdater_fields. Qed.

(** X5.  For a movie, with request ids that are distinct, the requests left
    after [mediaUpdater] are those that were not joined by its query: every
    request of the movie whose tier is stored as AVAILABLE or
    PARTIALLY_AVAILABLE is deleted, whichever tier was downgraded, and no
    other request is. *)
Theorem movie_requests_deleted (e e4k : bool) (w : World)
    (r : MediaRequest.t) :
  Media.mediaType (media w) = movie →
  NoDup (MediaRequest.id <$> requestTable (db w)) →
  r ∈ requestTable (db (exec (mediaUpdater e e4k) w))
  ↔ r ∈ requestTable (db w)
    ∧ ¬ (MediaRequest.media r = Media.id (media w)
         ∧ ∃ s, storedStatus (MediaRequest.is4k r) (Media.id (media w)) (db w)
                = Some s
                ∧ availableOrPartial s = true).
Proof.
  intros Hty Hnd. rewrite mediaUpdater_exec. simpl. rewrite Hty. simpl.
  rewrite andb_true_r.
  set (requests := findRequests (Media.id (media w)) (db w)).
  assert (∀ r, r ∈ requests
          ↔ r ∈ requestTable (db w)
            ∧ MediaRequest.media r = Media.id (media w)
            ∧ ∃ s, storedStatus (MediaRequest.is4k r) (Media.id (media w))
                     (db w) = Some s
                   ∧ availableOrPartial s = true) as Hjoined.
  { clear r. intros r. unfold requests, findRequests, storedStatus.
    rewrite list_elem_of_In, filter_In, <- list_elem_of_In, andb_true_iff, Z.eqb_eq.
    destruct (mediaTable (db w) !! Media.id (media w)) as [row|]; simpl.
    - unfold statusOf. destruct (MediaRequest.is4k r); simpl.
      + split.
        * intros [? [? ?]]. split; [done|]. split; [done|]. by eexists.
        * intros (? & ? & s & [= <-] & ?). done.
      + rewrite orb_false_r. split.
        * intros [? [? ?]]. split; [done|]. split; [done|]. by eexists.
        * intros (? & ? & s & [= <-] & ?). done.
    - split; [by intros [? [? ?]]|]. by intros (? & ? & s & ? & ?). }
  destruct (0 <? length requests)%nat eqn:Hlen; simpl.
  - rewrite list_elem_of_In, filter_In, <- list_elem_of_In, negb_true_iff.
    rewrite <- not_true_iff_false, existsb_exists.
    split.
    + intros [Hin Hnot]. split; [done|]. intros [Hm Hs].
      apply Hnot. exists r. rewrite Z.eqb_eq. split; [|done].
      apply list_elem_of_In, Hjoined. done.
    + intros [Hin Hnot]. split; [done|].
      intros (r' & Hin' & Heq). apply Z.eqb_eq in Heq.
      apply list_elem_of_In in Hin'.
      assert (r' = r) as ->.
      { apply (NoDup_fmap_eq MediaRequest.id (requestTable (db w)));
          [done| |done|done].
        by apply Hjoined in Hin' as [? _]. }
      apply Hjoined in Hin' as (_ & ? & ?). by apply Hnot.
  - apply Nat.ltb_ge in Hlen.
    assert (requests = []) as Hnil by (destruct requests; [done|simpl in Hlen; lia]).
    split.
    + intros Hin. split; [done|]. intros [Hm Hs].
      assert (r ∈ requests) as Hr by (by apply Hjoined).
      rewrite Hnil in Hr. by apply elem_of_nil in Hr.
    + by intros [? _].
Qed.

Lemma requests_of_both_tiers_deleted :
  let w := world movieLost4k in
  let kept := MediaRequest.mk 10 1 false MediaRequestStatus.APPROVED in
  Media.mediaType (media w) = movie
  ∧ NoDup (MediaRequest.id <$> requestTable (db w))
  ∧ kept ∉ requestTable (db (exec (mediaUpdater true false) w)).
Proof.
  split; [reflexivity|].
  assert (NoDup (MediaRequest.id <$> requestTable (db (world movieLost4k))))
    as Hnd by (apply (bool_decide_unpack _); vm_compute; exact I).
  split; [exact Hnd|].
  intros Hin.
  apply (movie_requests_deleted true false (world movieLost4k)) in Hin
    as [_ Hnot]; [|reflexivity|exact Hnd].
  apply Hnot. split; [reflexivity|].
  exists MediaStatus.AVAILABLE. split; reflexivity.
Defined.

(** X6.  [seasonUpdater] changes the season object it is handed, and no other:
    each tier of the season becomes UNKNOWN when it was AVAILABLE or
    PARTIALLY_AVAILABLE and its verdict is false, and keeps its status
    otherwise (the third block of resets adds nothing to the first two). *)
Theorem seasonUpdater_resets_lost_tiers (ref : nat) (e e4k : bool)
    (w : World) (season : Season.t) :
  seasonObjs w !! ref = Some season →
  let w' := exec (seasonUpdater ref e e4k) w in
  seasonObjs w'
  = <[ref := Season.mk (Season.seasonNumber season)
               (if availableOrPartial (Season.status season) && negb e
                then MediaStatus.UNKNOWN else Season.status season)
               (if availableOrPartial (Season.status4k season) && negb e4k
                then MediaStatus.UNKNOWN else Season.status4k season)]>
      (seasonObjs w).
Proof.
  intros Href. simpl. rewrite seasonUpdater_exec, Href. simpl.
  rewrite resetSeason_spec. simpl.
  by destruct (_ || _).
Qed.

Lemma lost_non4k_season_keeps_4k_status :
  let w := world showLostSeason1 in
  seasonObjs w !! 0%nat
  = Some (Season.mk 1 MediaStatus.AVAILABLE MediaStatus.AVAILABLE)
  ∧ seasonObjs (exec (seasonUpdater 0 false true) w)
    = [ Season.mk 1 MediaStatus.UNKNOWN MediaStatus.AVAILABLE;
        Season.mk 2 MediaStatus.AVAILABLE MediaStatus.UNKNOWN ].
Proof.
  split; [reflexivity|].
  exact (seasonUpdater_resets_lost_tiers 0 false true (world showLostSeason1)
           _ eq_refl).
Defined.

(** X7.  [seasonUpdater] is idempotent: called again with the same season and
    verdicts it changes nothing, neither the entity, nor the season objects,
    nor the store. *)
Theorem seasonUpdater_idempotent (ref : nat) (e e4k : bool) (w : World) :
  let w' := exec (seasonUpdater ref e e4k) w in
  exec (seasonUpdater ref e e4k) w' = w'.
Proof.
  simpl. rewrite (seasonUpdater_exec ref e e4k w).
  destruct (seasonObjs w !! ref) as [season|] eqn:Href.
  2: { by rewrite seasonUpdater_exec, Href. }
  simpl. rewrite resetSeason_spec. simpl.
  set (season' := Season.mk _ _ _).
  assert ((<[ref := season']> (seasonObjs w)) !! ref = Some season') as Href'.
  { apply list_lookup_insert_eq. by eapply lookup_lt_Some. }
  assert (resetSeason e e4k season' = (season', false)) as Hagain.
  { rewrite resetSeason_spec. subst season'. simpl.
    destruct (availableOrPartial (Season.status season)) eqn:H1, e,
      (availableOrPartial (Season.status4k season)) eqn:H2, e4k; simpl;
      rewrite ?H1, ?H2; done. }
  destruct (_ || _); rewrite seasonUpdater_exec; simpl;
    rewrite Href', Hagain; simpl; by rewrite list_insert_insert_eq.
Qed.

(** X8.  [seasonUpdater] writes nothing at all (entity, season objects, store)
    unless a tier of the season is AVAILABLE or PARTIALLY_AVAILABLE with a
    false verdict; when it does reset a tier, it appends the season to the
    array [media.seasons], which then holds it twice, and creates no season
    object. *)
Theorem seasonUpdater_writes_only_on_reset (ref : nat) (e e4k : bool)
    (w : World) (season : Season.t) :
  seasonObjs w !! ref = Some season →
  let reset :=
    (availableOrPartial (Season.status season) && negb e)
    || (availableOrPartial (Season.status4k season) && negb e4k) in
  let w' := exec (seasonUpdater ref e e4k) w in
  if reset
  then Media.seasons (media w') = Media.seasons (media w) ++ [ref]
       ∧ sameColumns (media w) (media w')
       ∧ length (seasonObjs w') = length (seasonObjs w)
  else w' = w.
Proof.
  intros Href. simpl. rewrite seasonUpdater_exec, Href. simpl.
  rewrite resetSeason_spec. simpl.
  destruct (_ || _) eqn:Hreset.
  - simpl. split; [done|]. split; [done|]. by rewrite length_insert.
  - apply orb_false_iff in Hreset as [H1 H2]. rewrite H1, H2.
    destruct w as [m objs d]. simpl in *. f_equal.
    apply list_insert_id. rewrite Href. by destruct season.
Qed.

Lemma existing_season_is_not_written :
  let w := world showLostSeason1 in
  seasonObjs w !! 1%nat
  = Some (Season.mk 2 MediaStatus.AVAILABLE MediaStatus.UNKNOWN)
  ∧ exec (seasonUpdater 1 true false) w = w.
Proof.
  split; [reflexivity|].
  exact (seasonUpdater_writes_only_on_reset 1 true false
           (world showLostSeason1) _ eq_refl).
Defined.

(** X9.  With season request ids that are distinct, the season requests left
    after [seasonUpdater] are those that are not for this season number, or
    whose owning request is not of this item, or whose tier did not lose the
    season: exactly the requests of the item, the season and a tier in which
    the season was available and has a false verdict are deleted. *)
Theorem season_requests_deleted (ref : nat) (e e4k : bool) (w : World)
    (season : Season.t) (sr : SeasonRequest.t) :
  seasonObjs w !! ref = Some season →
  NoDup (SeasonRequest.id <$> seasonRequestTable (db w)) →
  sr ∈ seasonRequestTable (db (exec (seasonUpdater ref e e4k) w))
  ↔ sr ∈ seasonRequestTable (db w)
    ∧ ¬ (SeasonRequest.seasonNumber sr = Season.seasonNumber season
         ∧ ∃ rq,
             List.find (λ r, (MediaRequest.id r =? SeasonRequest.request sr)%Z)
               (requestTable (db w)) = Some rq
             ∧ MediaRequest.media rq = Media.id (media w)
             ∧ availableOrPartial (seasonStatusOf (MediaRequest.is4k rq) season)
               = true
             ∧ pick (MediaRequest.is4k rq) (e, e4k) = false).
Proof.
  intros Href Hnd. rewrite seasonUpdater_exec, Href. simpl.
  rewrite resetSeason_spec. simpl.
  set (filtered := List.filter _ _).
  assert (∀ sr rq,
            (sr, rq) ∈ filtered
            ↔ sr ∈ seasonRequestTable (db w)
              ∧ SeasonRequest.seasonNumber sr = Season.seasonNumber season
              ∧ List.find
                  (λ r, (MediaRequest.id r =? SeasonRequest.request sr)%Z)
                  (requestTable (db w)) = Some rq
              ∧ MediaRequest.media rq = Media.id (media w)
              ∧ availableOrPartial
                  (seasonStatusOf (MediaRequest.is4k rq) season) = true
              ∧ pick (MediaRequest.is4k rq) (e, e4k) = false) as Hfiltered.
  { intros sr' rq. unfold filtered.
    rewrite list_elem_of_In, filter_In, <- list_elem_of_In,
      findSeasonRequests_elem.
    unfold seasonStatusOf, pick.
    destruct (MediaRequest.is4k rq); simpl;
      rewrite ?orb_false_r, ?andb_true_iff, ?negb_true_iff; tauto. }
  destruct (_ || _) eqn:Hreset; simpl.
  - set (d3 := if bool_decide (Media.status4k (media w) = _) && _
               then _ else _).
    assert (seasonRequestTable d3 = seasonRequestTable (db w)) as Htable.
    { subst d3.
      by repeat match goal with
                | |- context [if ?b then _ else _] => destruct b
                end. }
    destruct (0 <? length filtered)%nat eqn:Hlen.
    + simpl. rewrite Htable.
      rewrite list_elem_of_In, filter_In, <- list_elem_of_In.
      rewrite negb_true_iff, <- not_true_iff_false, existsb_exists.
      split; intros [Hin Hno]; (split; [done|]).
      * intros (Hn & rq & Hfind & Hm & Hav & Hex). apply Hno.
        exists (sr, rq). rewrite <- list_elem_of_In, Z.eqb_eq.
        split; [|done]. by apply Hfiltered.
      * intros ([sr' rq] & Hel & Hid).
        apply list_elem_of_In in Hel. apply Z.eqb_eq in Hid.
        apply Hfiltered in Hel as (Hin' & Hn & Hfind & Hm & Hav & Hex).
        assert (sr' = sr) as ->
          by (by apply (NoDup_fmap_eq SeasonRequest.id
                          (seasonRequestTable (db w)))).
        apply Hno. split; [done|]. by exists rq.
    + rewrite Htable. apply Nat.ltb_ge in Hlen.
      assert (filtered = []) as Hnil
        by (destruct filtered; [done|simpl in Hlen; lia]).
      split; [|by intros [? _]].
      intros Hin. split; [done|].
      intros (Hn & rq & Hfind & Hm & Hav & Hex).
      assert ((sr, rq) ∈ filtered) as Hel by (by apply Hfiltered).
      rewrite Hnil in Hel. by apply elem_of_nil in Hel.
  - split; [|by intros [? _]].
    intros Hin. split; [done|].
    intros (Hn & rq & Hfind & Hm & Hav & Hex).
    apply orb_false_iff in Hreset as [H1 H2].
    unfold seasonStatusOf, pick in Hav, Hex.
    destruct (MediaRequest.is4k rq); simpl in *.
    + by rewrite Hav, Hex in H2.
    + by rewrite Hav, Hex in H1.
Qed.

Lemma season_request_of_lost_season_deleted :
  let w := world showLostSeason1 in
  let lost := SeasonRequest.mk 20 10 1 in
  seasonObjs w !! 0%nat
  = Some (Season.mk 1 MediaStatus.AVAILABLE MediaStatus.AVAILABLE)
  ∧ NoDup (SeasonRequest.id <$> seasonRequestTable (db w))
  ∧ lost ∉ seasonRequestTable (db (exec (seasonUpdater 0 false true) w)).
Proof.
  split; [reflexivity|].
  assert (NoDup (SeasonRequest.id
                   <$> seasonRequestTable (db (world showLostSeason1))))
    as Hnd by (apply (bool_decide_unpack _); vm_compute; exact I).
  split; [exact Hnd|].
  intros Hin.
  apply (season_requests_deleted 0 false true (world showLostSeason1)
           (Season.mk 1 MediaStatus.AVAILABLE MediaStatus.AVAILABLE))
    in Hin as [_ Hnot]; [|reflexivity|exact Hnd].
  apply Hnot. split; [reflexivity|].
  exists (MediaRequest.mk 10 1 false MediaRequestStatus.APPROVED).
  repeat split; reflexivity.
Defined.

(** X10.  When [seasonUpdater] resets a tier of a season, it leaves the
    statuses of the entity in memory as they are, and the store then holds,
    for each tier, PARTIALLY_AVAILABLE when the entity says AVAILABLE and the
    verdict of the tier is false, and the status of the entity otherwise. *)
Theorem season_cascade_writes_store_only (tier4k : bool) (ref : nat)
    (e e4k : bool) (w : World) (season : Season.t) :
  seasonObjs w !! ref = Some season →
  (availableOrPartial (Season.status season) && negb e)
  || (availableOrPartial (Season.status4k season) && negb e4k) = true →
  let w' := exec (seasonUpdater ref e e4k) w in
  statusOf tier4k (media w') = statusOf tier4k (media w)
  ∧ storedStatus tier4k (Media.id (media w)) (db w')
    = Some (if bool_decide (statusOf tier4k (media w) = MediaStatus.AVAILABLE)
               && negb (pick tier4k (e, e4k))
            then MediaStatus.PARTIALLY_AVAILABLE
            else statusOf tier4k (media w)).
Proof.
  intros Href Hreset. simpl. rewrite seasonUpdater_exec, Href. simpl.
  rewrite resetSeason_spec. simpl. rewrite Hreset. simpl.
  split; [by destruct tier4k|].
  unfold storedStatus.
  assert (∀ l d, mediaTable (if (0 <? length l)%nat
                             then removeSeasonRequests l d else d)
                 = mediaTable d) as -> by (intros l d; by destruct (0 <? _)%nat).
  destruct (bool_decide (Media.status (media w) = MediaStatus.AVAILABLE)
            && negb e) eqn:H1,
    (bool_decide (Media.status4k (media w) = MediaStatus.AVAILABLE)
     && negb e4k) eqn:H2; simpl;
    rewrite ?lookup_alter_eq; simpl; rewrite ?lookup_alter_eq; simpl;
    rewrite lookup_insert_eq; simpl;
    destruct tier4k; simpl; by rewrite ?H1, ?H2.
Qed.

Lemma lost_season_leaves_entity_available :
  let w := world showLostSeason1 in
  let w' := exec (seasonUpdater 0 false true) w in
  seasonObjs w !! 0%nat
  = Some (Season.mk 1 MediaStatus.AVAILABLE MediaStatus.AVAILABLE)
  ∧ Media.status (media w') = MediaStatus.AVAILABLE
  ∧ storedStatus false 1 (db w') = Some MediaStatus.PARTIALLY_AVAILABLE.
Proof.
  split; [reflexivity|].
  exact (season_cascade_writes_store_only false 0 false true
           (world showLostSeason1) _ eq_refl eq_refl).
Defined.

(** X11.  The verdict of [mediaExistsInRadarr] for a tier is true exactly when
    the movie has an external service id for the tier (not null, not 0) and
    some configured server of that tier with the sync enabled answers with a
    movie that has a file, or fails with an error whose message does not
    contain 404; the server the item is recorded on plays no part. *)
Theorem movie_exists_in_radarr (env : Services) (m : Media.t)
    (tier4k : bool) :
  pick tier4k (mediaExistsInRadarr env m) = true
  ↔ ∃ server id,
      server ∈ settings_radarr env
      ∧ DVRSettings.syncEnabled server = true
      ∧ DVRSettings.is4k server = tier4k
      ∧ truthyNumber (externalServiceIdOf tier4k m) = Some id
      ∧ radarrKeeps (getMovie env server id) = true.
Proof.
  rewrite mediaExistsInRadarr_unfold.
  assert (pick tier4k
            (fold_left (λ e server,
                          radarrTry env false server
                            (Media.externalServiceId m) e)
               (radarrServers env) false,
             fold_left (λ e server,
                          radarrTry env true server
                            (Media.externalServiceId4k m) e)
               (radarrServers env) false)
          = fold_left (λ e server,
                         radarrTry env tier4k server
                           (externalServiceIdOf tier4k m) e)
              (radarrServers env) false) as -> by (by destruct tier4k).
  rewrite radarrTry_fold. unfold radarrServers. split.
  - intros [?|(server & id & Hin & ?)]; [done|].
    apply list_elem_of_In, filter_In in Hin as [Hin Hsync].
    exists server, id. by rewrite list_elem_of_In.
  - intros (server & id & Hin & Hsync & ?). right. exists server, id.
    split; [|done]. apply list_elem_of_In, filter_In.
    by rewrite <- list_elem_of_In.
Qed.

(** X12.  The item verdict of [mediaExistsInSonarr] for a tier is true exactly
    when the show has an external service id for the tier and some configured
    server of that tier with the sync enabled answers with a series that has
    episode files, or fails with an error whose message does not contain 404. *)
Theorem show_exists_in_sonarr (env : Services) (m : Media.t)
    (objs : list Season.t) (c : Caches) (tier4k : bool) :
  let '(existsInSonarr, existsInSonarr4k, _, _) :=
    eval (mediaExistsInSonarr env m objs) c in
  pick tier4k (existsInSonarr, existsInSonarr4k) = true
  ↔ ∃ server id,
      server ∈ settings_sonarr env
      ∧ DVRSettings.syncEnabled server = true
      ∧ DVRSettings.is4k server = tier4k
      ∧ truthyNumber (externalServiceIdOf tier4k m) = Some id
      ∧ sonarrKeeps (getSeriesById env server id) = true.
Proof.
  destruct (mediaExistsInSonarr_unfold env m objs c) as [c2 Heq].
  unfold eval. rewrite Heq. simpl.
  assert (∀ f f4k : bool * bool,
            pick tier4k (f.1, f4k.1) = (pick tier4k (f, f4k)).1) as ->
    by (by destruct tier4k).
  assert (pick tier4k
            (fold_left (sonarrFlags env false (Media.externalServiceId m))
               (sonarrServers env) (false, false),
             fold_left (sonarrFlags env true (Media.externalServiceId4k m))
               (sonarrServers env) (false, false))
          = fold_left (sonarrFlags env tier4k (externalServiceIdOf tier4k m))
              (sonarrServers env) (false, false)) as -> by (by destruct tier4k).
  rewrite sonarrFlags_fold. unfold sonarrServers. split.
  - intros [?|(server & id & Hin & ?)]; [done|].
    apply list_elem_of_In, filter_In in Hin as [Hin Hsync].
    exists server, id. by rewrite list_elem_of_In.
  - intros (server & id & Hin & Hsync & ?). right. exists server, id.
    split; [|done]. apply list_elem_of_In, filter_In.
    by rewrite <- list_elem_of_In.
Qed.

(** X13.  A show with no usable reference for a tier (rating key null or
    empty, external service id null or 0) has a false item verdict for the
    tier and a false merged verdict for every one of its seasons, whatever the
    services would answer. *)
Theorem show_without_references_is_gone (env : Services) (st : State)
    (tier4k : bool) :
  let m := media (world st) in
  Media.mediaType m = tv →
  truthyString (ratingKeyOf tier4k m) = None →
  truthyNumber (externalServiceIdOf tier4k m) = None →
  pick tier4k (itemExists env st) = false
  ∧ ∀ ref season,
      ref ∈ Media.seasons m →
      seasonObjs (world st) !! ref = Some season →
      pick tier4k (seasonVerdicts env st) !! Season.seasonNumber season
      = Some false.
Proof.
  intros m Hty Hkey Hid. split.
  - rewrite itemExists_show by done. fold m.
    unfold plexFlags. rewrite Hkey. simpl.
    apply not_true_is_false. intros Htrue.
    apply sonarrFlags_fold in Htrue as [?|(server & id & _ & _ & Hsome & _)];
      [done|]. by rewrite Hid in Hsome.
  - intros ref season Hin Href.
    destruct (pick tier4k (seasonVerdicts env st)
                !! Season.seasonNumber season) as [[|]|] eqn:Hv.
    + exfalso.
      destruct (season_verdict_source env st tier4k ref season Hin Href Hv)
        as (ref' & season' & p & c & _ & _ & _ & Hfound).
      fold m in Hfound.
      unfold plexSeasonExists, sonarrSeasonExists in Hfound.
      rewrite Hkey, Hid in Hfound. by destruct Hfound.
    + done.
    + by rewrite (seasonVerdicts_merge env st tier4k ref season) in Hv.
Qed.

Lemma show_without_4k_references_is_gone_in_4k :
  let st := showNo4k in
  Media.mediaType (media (world st)) = tv
  ∧ Media.ratingKey4k (media (world st)) = None
  ∧ Media.externalServiceId4k (media (world st)) = None
  ∧ pick true (itemExists plexSeason2 st) = false.
Proof.
  split; [reflexivity|]. split; [reflexivity|]. split; [reflexivity|].
  exact (proj1 (show_without_references_is_gone plexSeason2 showNo4k true
                  eq_refl eq_refl eq_refl)).
Defined.

(** X14.  While the engine holds no Plex client (the field [plexClient] is
    unset: [run] found no admin, logged an error and went on, and no earlier
    run of the engine left a client), every Plex call yields [undefined]: an
    item that has no external service id for a tier has a false verdict for
    it although nothing answered "not found", and a show that is AVAILABLE or
    PARTIALLY_AVAILABLE and a movie that is AVAILABLE for the tier are
    downgraded, in the entity and in the store. *)
Theorem missing_plex_client_downgrades (env : Services) (st : State)
    (tier4k : bool) :
  let m := media (world st) in
  plexClient env = None →
  truthyNumber (externalServiceIdOf tier4k m) = None →
  Media.mediaType m = tv ∧ availableOrPartial (statusOf tier4k m) = true
  ∨ statusOf tier4k m = MediaStatus.AVAILABLE →
  let w' := world (exec (runMedia env) st) in
  pick tier4k (itemExists env st) = false
  ∧ downgraded (statusOf tier4k (media w'))
  ∧ storedStatus tier4k (Media.id m) (db w')
    = Some (statusOf tier4k (media w')).
Proof.
  intros m Hclient Hid Hcase w'.
  assert (pick tier4k (itemExists env st) = false) as Hex.
  { rewrite no_manager_verdict by done. fold m. unfold plexFlags.
    rewrite Hclient. by destruct (truthyString _). }
  split; [done|].
  destruct (runMedia_downgrades env st tier4k) as (Hd & _ & Hs).
  - fold m. destruct Hcase as [[_ ?]| ->]; done.
  - done.
  - fold m. destruct Hcase as [[? _]|?]; [by left|by right; left].
  - done.
Qed.

Lemma movie_reset_without_plex_client :
  let st := goneMovie in
  let w' := world (exec (runMedia noClient) st) in
  plexClient noClient = None
  ∧ Media.ratingKey (media (world st)) = Some "101"
  ∧ Media.status (media (world st)) = MediaStatus.AVAILABLE
  ∧ Media.status (media w') = MediaStatus.UNKNOWN
  ∧ downgraded (Media.status (media w')).
Proof.
  split; [reflexivity|]. split; [reflexivity|]. split; [reflexivity|].
  split; [reflexivity|].
  exact (proj1 (proj2 (missing_plex_client_downgrades noClient goneMovie false
                         eq_refl eq_refl (or_intror eq_refl)))).
Defined.

(** X15.  The test for "not found" is a substring test: a Plex error whose
    message contains the digits 404 anywhere counts as "not found", so that,
    for an item without an external service id for the tier, the verdict of
    the tier is false. *)
Theorem error_mentioning_404_reads_as_not_found (env : Services) (st : State)
    (tier4k : bool) (key : string) (client : PlexAPI.t) (pre post : string) :
  let m := media (world st) in
  truthyString (ratingKeyOf tier4k m) = Some key →
  plexClient env = Some client →
  PlexAPI.getMetadata client key = Rejected (pre +:+ "404" +:+ post) →
  truthyNumber (externalServiceIdOf tier4k m) = None →
  pick tier4k (itemExists env st) = false.
Proof.
  intros m Hkey Hclient Hanswer Hid.
  rewrite no_manager_verdict by done. fold m. unfold plexFlags.
  rewrite Hkey, Hclient, Hanswer. unfold plexCatch, transient.
  by rewrite includes_infix.
Qed.

Lemma timeout_reads_as_not_found :
  Media.ratingKey (media (world goneMovie)) = Some "101"
  ∧ pick false (itemExists slowPlex goneMovie) = false
  ∧ Media.status (media (world (exec (runMedia slowPlex) goneMovie)))
    = MediaStatus.UNKNOWN.
Proof.
  split; [reflexivity|]. split; [|reflexivity].
  exact (error_mentioning_404_reads_as_not_found slowPlex goneMovie false
           "101" _ "timeout of " "00ms exceeded"
           eq_refl eq_refl eq_refl eq_refl).
Defined.

(** X16.  If every tier in which the item is AVAILABLE or PARTIALLY_AVAILABLE
    has a true item verdict, and every season has a true merged verdict for
    every tier in which it is AVAILABLE or PARTIALLY_AVAILABLE, then
    processing the item changes nothing: the entity, its season objects and
    the store are as before. *)
Theorem existing_item_is_untouched (env : Services) (st : State) :
  let m := media (world st) in
  let objs := seasonObjs (world st) in
  (∀ tier4k,
     availableOrPartial (statusOf tier4k m) = true →
     pick tier4k (itemExists env st) = true) →
  (∀ tier4k ref season,
     ref ∈ Media.seasons m →
     objs !! ref = Some season →
     availableOrPartial (seasonStatusOf tier4k season) = true →
     pick tier4k (seasonVerdicts env st) !! Season.seasonNumber season
     = Some true) →
  world (exec (runMedia env) st) = world st.
Proof. apply runMedia_untouched. Qed.

Lemma existing_show_is_untouched :
  let st := showNon4kOnly in
  world (exec (runMedia plexSeason1) st) = world st.
Proof.
  apply existing_item_is_untouched.
  - intros [] Hav; [discriminate Hav|]. vm_compute. reflexivity.
  - intros tier4k ref season Hin Href Hav.
    apply list_elem_of_singleton in Hin as ->. injection Href as <-.
    destruct tier4k; [discriminate Hav|]. vm_compute. reflexivity.
Defined.

(** X17.  A movie neither of whose tiers is AVAILABLE is not modified by the
    loop of [run], whatever the services answer: the entity, the store and the
    caches are as before. *)
Theorem movie_without_available_tier_is_untouched (env : Services)
    (st : State) :
  let m := media (world st) in
  Media.mediaType m = movie →
  Media.status m ≠ MediaStatus.AVAILABLE →
  Media.status4k m ≠ MediaStatus.AVAILABLE →
  exec (runMedia env) st = st.
Proof.
  intros m Hty Hs Hs4. rewrite runMedia_exec. fold m. rewrite Hty.
  unfold exec. rewrite runMovie_unfold. fold m. simpl.
  rewrite !bool_decide_eq_false_2, !andb_false_r by done. simpl.
  rewrite mediaExistsInPlex_unfold. fold m. rewrite Hty. simpl.
  rewrite !plexTry_movie_caches. by destruct st.
Qed.

Lemma partially_available_movie_is_untouched :
  let st := partialMovie in
  Media.mediaType (media (world st)) = movie
  ∧ Media.status (media (world st)) = MediaStatus.PARTIALLY_AVAILABLE
  ∧ exec (runMedia emptyPlex) st = st.
Proof.
  split; [reflexivity|]. split; [reflexivity|].
  by apply (movie_without_available_tier_is_untouched emptyPlex partialMovie).
Defined.

(** X18.  The processing of an item depends on the Radarr and Sonarr servers
    only through the answers of the configured servers with the sync enabled,
    each asked for the external service id of its own tier and only when that
    id is not null and not 0: two environments that agree on those answers
    (and on the settings and the Plex client) give the same result. *)
Theorem only_enabled_servers_of_the_tier_are_asked (env env' : Services)
    (st : State) :
  let m := media (world st) in
  settings_radarr env' = settings_radarr env →
  settings_sonarr env' = settings_sonarr env →
  plexClient env' = plexClient env →
  (∀ server id,
     server ∈ settings_radarr env →
     DVRSettings.syncEnabled server = true →
     truthyNumber (externalServiceIdOf (DVRSettings.is4k server) m) = Some id →
     getMovie env' server id = getMovie env server id) →
  (∀ server id,
     server ∈ settings_sonarr env →
     DVRSettings.syncEnabled server = true →
     truthyNumber (externalServiceIdOf (DVRSettings.is4k server) m) = Some id →
     getSeriesById env' server id = getSeriesById env server id) →
  runMedia env' st = runMedia env st.
Proof.
  intros m Hradarr Hsonarr Hplex Hmovie Hseries.
  assert (∀ objs c, mediaExistsInPlex env' m objs c
                    = mediaExistsInPlex env m objs c) as HP.
  { intros objs c. unfold mediaExistsInPlex, plexTry. by rewrite Hplex. }
  assert (mediaExistsInRadarr env' m = mediaExistsInRadarr env m) as HR.
  { unfold mediaExistsInRadarr, radarrServers. rewrite Hradarr.
    apply fold_left_ext_in. intros server [e e4k] [Hin Hsync]%elem_of_enabled.
    f_equal; unfold radarrTry.
    - destruct (Bool.eqb (DVRSettings.is4k server) false) eqn:Htier; [|done].
      apply eqb_prop in Htier.
      destruct (truthyNumber (Media.externalServiceId m)) as [id|] eqn:Hid;
        [|done].
      rewrite (Hmovie server id); [done..|]. by rewrite Htier.
    - destruct (Bool.eqb (DVRSettings.is4k server) true) eqn:Htier; [|done].
      apply eqb_prop in Htier.
      destruct (truthyNumber (Media.externalServiceId4k m)) as [id|] eqn:Hid;
        [|done].
      rewrite (Hmovie server id); [done..|]. by rewrite Htier. }
  assert (∀ objs c, mediaExistsInSonarr env' m objs c
                    = mediaExistsInSonarr env m objs c) as HS.
  { intros objs c. unfold mediaExistsInSonarr, sonarrServers, mbind, St_bind.
    rewrite Hsonarr.
    match goal with
    | |- (let '(_, _) := forOf ?l ?f ?acc ?s in _)
         = (let '(_, _) := forOf _ ?g _ _ in _) =>
        rewrite (forOf_ext_in f g l acc s); [done|]
    end.
    intros server [flags flags4k] c' [Hin Hsync]%elem_of_enabled.
    assert (∀ tier4k flags c,
              sonarrTry env' tier4k server (externalServiceIdOf tier4k m)
                flags c
              = sonarrTry env tier4k server (externalServiceIdOf tier4k m)
                  flags c) as Htry.
    { intros tier4k f c0. unfold sonarrTry.
      destruct (Bool.eqb (DVRSettings.is4k server) tier4k) eqn:Htier; [|done].
      apply eqb_prop in Htier.
      destruct (truthyNumber (externalServiceIdOf tier4k m)) as [id|] eqn:Hid;
        [|done].
      rewrite (Hseries server id); [done..|]. by rewrite Htier. }
    pose proof (Htry false) as Hf. pose proof (Htry true) as Ht.
    cbv beta iota delta [externalServiceIdOf] in Hf, Ht.
    unfold mbind, St_bind.
    rewrite (Hf flags c').
    destruct (sonarrTry env false server _ flags c') as [f c1].
    by rewrite (Ht flags4k c1). }
  unfold runMedia, mbind, St_bind, gets. fold m.
  destruct (Media.mediaType m).
  - assert (runMovie env' st = runMovie env st) as ->; [|done].
    rewrite !runMovie_unfold. fold m. simpl. by rewrite HP, HR.
  - assert (runShow env' st = runShow env st) as ->; [|done].
    rewrite !runShow_unfold. fold m. simpl. by rewrite !HP, !HS.
Qed.

Lemma idle_radarr_server_is_not_asked :
  let found := Resolved (RadarrMovie.mk true) in
  runMedia (radarrPair found) radarrMovie
  = runMedia (radarrPair notFound) radarrMovie
  ∧ Media.status (media (world (exec (runMedia (radarrPair found))
                                   radarrMovie)))
    = MediaStatus.UNKNOWN.
Proof.
  split; [|reflexivity].
  apply only_enabled_servers_of_the_tier_are_asked; try reflexivity.
  intros server id Hin Hsync Hid.
  apply elem_of_cons in Hin as [->|Hin]; [reflexivity|].
  apply list_elem_of_singleton in Hin as ->. discriminate Hsync.
Defined.

(** X19.  A season number has a true merged verdict for a tier only if a
    season of the item with that number is AVAILABLE or PARTIALLY_AVAILABLE in
    that tier: a season that is not available in a tier is never searched for
    and reads as gone. *)
Theorem season_verdict_needs_available_season (env : Services) (st : State)
    (tier4k : bool) (ref : nat) (season : Season.t) :
  let m := media (world st) in
  let objs := seasonObjs (world st) in
  ref ∈ Media.seasons m →
  objs !! ref = Some season →
  pick tier4k (seasonVerdicts env st) !! Season.seasonNumber season
  = Some true →
  ∃ ref' season',
    ref' ∈ Media.seasons m ∧ objs !! ref' = Some season'
    ∧ Season.seasonNumber season' = Season.seasonNumber season
    ∧ availableOrPartial (seasonStatusOf tier4k season') = true.
Proof.
  intros m objs Hin Href Hv.
  destruct (season_verdict_source env st tier4k ref season Hin Href Hv)
    as (ref' & season' & p & c & Hin' & Href' & Hn & Hfound).
  exists ref', season'. split; [done|]. split; [done|]. split; [done|].
  unfold plexSeasonExists, sonarrSeasonExists in Hfound.
  destruct Hfound as [H|H]; repeat case_match; done.
Qed.

Lemma surviving_season_is_available :
  let st := showLostSeason1 in
  1%nat ∈ Media.seasons (media (world st))
  ∧ seasonObjs (world st) !! 1%nat
    = Some (Season.mk 2 MediaStatus.AVAILABLE MediaStatus.UNKNOWN)
  ∧ pick false (seasonVerdicts plexSeason2 st) !! 2 = Some true
  ∧ ∃ ref' season',
      ref' ∈ Media.seasons (media (world st))
      ∧ seasonObjs (world st) !! ref' = Some season'
      ∧ Season.seasonNumber season' = 2
      ∧ availableOrPartial (Season.status season') = true.
Proof.
  assert (1%nat ∈ Media.seasons (media (world showLostSeason1))) as Hin
    by apply list_elem_of_further, list_elem_of_here.
  assert (pick false (seasonVerdicts plexSeason2 showLostSeason1) !! 2
          = Some true) as Hv by (vm_compute; reflexivity).
  split; [exact Hin|]. split; [reflexivity|]. split; [exact Hv|].
  exact (season_verdict_needs_available_season plexSeason2 showLostSeason1
           false 1 _ Hin eq_refl Hv).
Defined.

(** X20.  When both Plex calls for the rating key of a tier resolve, the Plex
    verdict of a season that is AVAILABLE or PARTIALLY_AVAILABLE in that tier
    (the season numbers of the show being distinct) tells whether the children
    of the show include an entry whose index is the season number. *)
Theorem plex_season_found_iff_listed (env : Services) (st : State)
    (tier4k : bool) (ref : nat) (season : Season.t) (key : string)
    (client : PlexAPI.t) (plexMedia : PlexMetadata.t)
    (children : list PlexMetadata.t) :
  let m := media (world st) in
  let n := Season.seasonNumber season in
  Media.mediaType m = tv →
  distinctSeasons (world st) →
  ref ∈ Media.seasons m →
  seasonObjs (world st) !! ref = Some season →
  availableOrPartial (seasonStatusOf tier4k season) = true →
  truthyString (ratingKeyOf tier4k m) = Some key →
  plexClient env = Some client →
  PlexAPI.getMetadata client key = Resolved plexMedia →
  PlexAPI.getChildrenMetadata client key = Resolved children →
  readFlagOpt (pick tier4k (plexVerdicts env st)) n
  = existsb (λ child, (PlexMetadata.index child =? n)%Z) children.
Proof.
  intros m n Hty Hnd Hin Href Hav Hkey Hclient Hmeta Hchildren.
  by apply (plex_season_lookup env client key plexMedia children
              Hclient Hmeta Hchildren st tier4k ref).
Qed.

Lemma unlisted_season_is_not_found :
  let st := showLostSeason1 in
  seasonObjs (world st) !! 0%nat
  = Some (Season.mk 1 MediaStatus.AVAILABLE MediaStatus.AVAILABLE)
  ∧ PlexAPI.getChildrenMetadata (plex [("201", [2])] []) "201"
    = Resolved [PlexMetadata.mk 2]
  ∧ readFlagOpt (pick false (plexVerdicts plexSeason2 st)) 1 = false.
Proof.
  split; [reflexivity|]. split; [reflexivity|].
  apply (plex_season_found_iff_listed plexSeason2 showLostSeason1 false 0
           (Season.mk 1 MediaStatus.AVAILABLE MediaStatus.AVAILABLE) "201"
           (plex [("201", [2])] []) (PlexMetadata.mk 0) [PlexMetadata.mk 2]);
    try reflexivity.
  - apply distinct_two_seasons.
  - apply list_elem_of_here.
Defined.

(** X21.  When no Sonarr call of a tier fails transiently, the Sonarr verdict
    of a season that is AVAILABLE or PARTIALLY_AVAILABLE in that tier is read
    off the season list of the last server of the tier that answered (the
    cache is keyed by tier and id, not by server): true exactly when that list
    has the season with episode files. When no server answered, the entry an
    earlier item left in the cache under the same tier and id is used, and
    without one the verdict is false. *)
Theorem sonarr_season_found_in_last_answer (env : Services) (st : State)
    (tier4k : bool) (ref : nat) (season : Season.t) (id : Z) :
  let m := media (world st) in
  let n := Season.seasonNumber season in
  distinctSeasons (world st) →
  ref ∈ Media.seasons m →
  seasonObjs (world st) !! ref = Some season →
  availableOrPartial (seasonStatusOf tier4k season) = true →
  truthyNumber (externalServiceIdOf tier4k m) = Some id →
  (∀ b, b ∈ sonarrProbes env tier4k id (sonarrServers env) → b = false) →
  readFlag (pick tier4k (sonarrVerdicts env st)) n
  = match last (sonarrAnswers env tier4k id (sonarrServers env)) with
    | Some seasons => existsb (sonarrSeasonHasFiles n) seasons
    | None =>
      match sonarrSeasonsCache (caches st) !! (tier4k, id) with
      | Some seasons => existsb (sonarrSeasonHasFiles n) seasons
      | None => false
      end
    end.
Proof.
  intros m n Hnd Hin Href Hav Hid Hquiet. subst n.
  pose proof (seasonsOf_elem m _ ref season Hin Href) as Hel.
  unfold sonarrVerdicts, eval, exec. fold m.
  rewrite mediaExistsInSonarr_loop. cbv zeta.
  pose proof (sonarrFlags_not_transient env tier4k _ id (sonarrServers env)
                (false, false) Hid Hquiet) as Hflag.
  simpl in Hflag.
  pose proof (sonarr_loop_cache env m tier4k id Hid (sonarrServers env)
                ((false, false), (false, false))
                (mediaExistsInPlex env m (seasonObjs (world st))
                   (caches st)).2) as Hcache.
  rewrite mediaExistsInPlex_sonarrCache in Hcache.
  match goal with
  | |- context [seasonMaps ?f ?l ?p ?p4k ?c] =>
      destruct (seasonMaps_spec f l p p4k c) as [_ Hmaps]; [done| |done|];
        [|destruct (Hmaps season Hel) as [H1 H2]]
  end.
  { destruct tier4k; simpl in Hflag; rewrite Hflag; by rewrite ?orb_true_r. }
  assert (∀ seasons,
            existsb
              (λ s, (Season.seasonNumber season
                     =? SonarrSeason.seasonNumber s)%Z
                    && match SonarrSeason.statistics s with
                       | Some count => negb (count =? 0)%Z && (count >? 0)%Z
                       | None => false
                       end) seasons
            = existsb (sonarrSeasonHasFiles (Season.seasonNumber season))
                seasons) as Hsame.
  { intros seasons. induction seasons as [|s seasons IH]; [done|].
    simpl. rewrite IH. f_equal. unfold sonarrSeasonHasFiles. f_equal.
    destruct (SonarrSeason.statistics s) as [count|]; [|done].
    destruct (count =? 0)%Z eqn:H0; [|done].
    by apply Z.eqb_eq in H0 as ->. }
  assert (∀ c,
            sonarrSeasonsCache c !! (tier4k, id)
            = match last (sonarrAnswers env tier4k id (sonarrServers env)) with
              | Some seasons => Some seasons
              | None => sonarrSeasonsCache (caches st) !! (tier4k, id)
              end →
            sonarrSeasonExists tier4k (externalServiceIdOf tier4k m)
              (seasonStatusOf tier4k season) (Season.seasonNumber season)
              false c
            = match last (sonarrAnswers env tier4k id (sonarrServers env)) with
              | Some seasons =>
                existsb (sonarrSeasonHasFiles (Season.seasonNumber season))
                  seasons
              | None =>
                match sonarrSeasonsCache (caches st) !! (tier4k, id) with
                | Some seasons =>
                  existsb (sonarrSeasonHasFiles (Season.seasonNumber season))
                    seasons
                | None => false
                end
              end) as Hexists.
  { intros c Hc. unfold sonarrSeasonExists. rewrite Hid, Hav, Hc.
    rewrite orb_false_r.
    destruct (last _) as [seasons|]; simpl.
    - by rewrite find_existsb, Hsame, andb_true_r.
    - destruct (sonarrSeasonsCache (caches st) !! (tier4k, id))
        as [seasons|]; simpl.
      + by rewrite find_existsb, Hsame, andb_true_r.
      + done. }
  specialize (Hexists _ Hcache).
  destruct tier4k; simpl in *; unfold readFlag.
  - rewrite H2. simpl. by rewrite Hflag.
  - rewrite H1. simpl. by rewrite Hflag.
Qed.

Lemma season_judged_by_the_last_server :
  let st := sonarrShow in
  pick false (itemExists sonarrPair st) = true
  ∧ sonarrAnswers sonarrPair false 7 (sonarrServers sonarrPair)
    = [ [SonarrSeason.mk 1 (Some 10)]; [SonarrSeason.mk 1 (Some 0)] ]
  ∧ readFlag (pick false (sonarrVerdicts sonarrPair st)) 1 = false.
Proof.
  split; [reflexivity|]. split; [reflexivity|].
  apply (sonarr_season_found_in_last_answer sonarrPair sonarrShow false 0
           (Season.mk 1 MediaStatus.AVAILABLE MediaStatus.UNKNOWN) 7);
    try reflexivity.
  - apply distinct_one_season.
  - apply list_elem_of_here.
  - intros b Hb.
    assert (sonarrProbes sonarrPair false 7 (sonarrServers sonarrPair)
            = [false; false]) as Hprobes by reflexivity.
    rewrite Hprobes in Hb.
    apply elem_of_cons in Hb as [->|Hb]; [reflexivity|].
    by apply list_elem_of_singleton in Hb as ->.
Defined.

(** X22.  Over the processing of one item, every status held in memory (the
    item's and each season's, for each tier) either stays as it is or leaves
    AVAILABLE or PARTIALLY_AVAILABLE for UNKNOWN, PENDING or PROCESSING. *)
Theorem statuses_in_memory_move_one_way (env : Services) (st : State)
    (tier4k : bool) :
  let w' := world (exec (runMedia env) st) in
  oneWay (statusOf tier4k (media (world st))) (statusOf tier4k (media w'))
  ∧ Forall2 (λ s s', oneWay (seasonStatusOf tier4k s)
                       (seasonStatusOf tier4k s'))
      (seasonObjs (world st)) (seasonObjs w').
Proof. apply runMedia_one_way. Qed.

(** X23.  For an item processed as the store handed it out, the status the
    store holds for a tier afterwards is the status the item had, or one of
    UNKNOWN, PENDING, PROCESSING reached from AVAILABLE or
    PARTIALLY_AVAILABLE, or PARTIALLY_AVAILABLE reached from AVAILABLE. *)
Theorem stored_status_after_item (env : Services) (st : State)
    (tier4k : bool) :
  loaded st →
  let m := media (world st) in
  ∃ stored,
    storedStatus tier4k (Media.id m) (db (world (exec (runMedia env) st)))
    = Some stored
    ∧ (oneWay (statusOf tier4k m) stored
       ∨ (statusOf tier4k m = MediaStatus.AVAILABLE
          ∧ stored = MediaStatus.PARTIALLY_AVAILABLE)).
Proof. apply runMedia_stored_one_way. Qed.

Lemma stored_status_of_show_without_4k :
  loaded showNo4k
  ∧ ∃ stored,
      storedStatus false 1 (db (world (exec (runMedia plexSeason2) showNo4k)))
      = Some stored
      ∧ (oneWay MediaStatus.AVAILABLE stored
         ∨ (MediaStatus.AVAILABLE = MediaStatus.AVAILABLE
            ∧ stored = MediaStatus.PARTIALLY_AVAILABLE)).
Proof.
  split; [reflexivity|].
  exact (stored_status_after_item plexSeason2 showNo4k false eq_refl).
Defined.

(** X24.  For a season of a show whose non-4K status is AVAILABLE or
    PARTIALLY_AVAILABLE: if its status for a tier is AVAILABLE or
    PARTIALLY_AVAILABLE and its merged verdict for that tier is false, then
    after the show has been processed its status for that tier is UNKNOWN. *)
Theorem season_lost_in_a_tier_is_reset (env : Services) (st : State)
    (tier4k : bool) (ref : nat) (season : Season.t) :
  ref ∈ Media.seasons (media (world st)) →
  seasonObjs (world st) !! ref = Some season →
  Media.mediaType (media (world st)) = tv →
  availableOrPartial (Season.status season) = true →
  availableOrPartial (seasonStatusOf tier4k season) = true →
  pick tier4k (seasonVerdicts env st) !! Season.seasonNumber season
  = Some false →
  ∃ season',
    seasonObjs (world (exec (runMedia env) st)) !! ref = Some season'
    ∧ seasonStatusOf tier4k season' = MediaStatus.UNKNOWN.
Proof. apply lost_season_reset. Qed.

Lemma season_lost_in_4k_is_reset :
  let st := showLostSeason1 in
  pick true (seasonVerdicts plexSeason2 st) !! 1 = Some false
  ∧ ∃ season',
      seasonObjs (world (exec (runMedia plexSeason2) st)) !! 0%nat
      = Some season'
      ∧ Season.status4k season' = MediaStatus.UNKNOWN.
Proof.
  split; [reflexivity|].
  apply (season_lost_in_a_tier_is_reset plexSeason2 showLostSeason1 true 0
           (Season.mk 1 MediaStatus.AVAILABLE MediaStatus.AVAILABLE));
    try reflexivity.
  apply list_elem_of_here.
Defined.

(** X25.  The season cascade for a show that has nothing to lose in 4K: a show
    AVAILABLE in non-4K with two seasons AVAILABLE in non-4K, none of them
    available in 4K, that still exists and loses one season ends with that
    season UNKNOWN, the other season as it was, the stored non-4K status
    PARTIALLY_AVAILABLE, no non-4K season request of the item left for the
    lost season, and every request of another season number kept. *)
Theorem season_cascade_without_4k (env : Services) (st : State)
    (lost other : nat) (sl so : Season.t) :
  let m := media (world st) in
  let objs := seasonObjs (world st) in
  let d := db (world st) in
  Media.mediaType m = tv →
  Media.status m = MediaStatus.AVAILABLE →
  availableOrPartial (Media.status4k m) = false →
  Media.seasons m = [lost; other] ∨ Media.seasons m = [other; lost] →
  lost ≠ other →
  objs !! lost = Some sl →
  objs !! other = Some so →
  Season.status sl = MediaStatus.AVAILABLE →
  Season.status so = MediaStatus.AVAILABLE →
  availableOrPartial (Season.status4k sl) = false →
  availableOrPartial (Season.status4k so) = false →
  pick false (itemExists env st) = true →
  pick false (seasonVerdicts env st) !! Season.seasonNumber sl = Some false →
  pick false (seasonVerdicts env st) !! Season.seasonNumber so = Some true →
  NoDup (SeasonRequest.id <$> seasonRequestTable d) →
  let w' := world (exec (runMedia env) st) in
  seasonObjs w' = <[lost := Season.set_status MediaStatus.UNKNOWN sl]> objs
  ∧ seasonObjs w' !! other = Some so
  ∧ storedStatus false (Media.id m) (db w')
    = Some MediaStatus.PARTIALLY_AVAILABLE
  ∧ (∀ sr rq,
       sr ∈ seasonRequestTable (db w') →
       SeasonRequest.seasonNumber sr = Season.seasonNumber sl →
       List.find (λ r, (MediaRequest.id r =? SeasonRequest.request sr)%Z)
         (requestTable d) = Some rq →
       MediaRequest.media rq = Media.id m →
       MediaRequest.is4k rq = true)
  ∧ (∀ sr,
       sr ∈ seasonRequestTable d →
       SeasonRequest.seasonNumber sr ≠ Season.seasonNumber sl →
       sr ∈ seasonRequestTable (db w')).
Proof. apply season_cascade_without_4k_change. Qed.

Lemma season_cascade_of_show_without_4k :
  let st := showNo4k in
  let w' := world (exec (runMedia plexSeason2) st) in
  seasonObjs w'
  = [ Season.mk 1 MediaStatus.UNKNOWN MediaStatus.UNKNOWN;
      Season.mk 2 MediaStatus.AVAILABLE MediaStatus.UNKNOWN ]
  ∧ storedStatus false 1 (db w') = Some MediaStatus.PARTIALLY_AVAILABLE
  ∧ SeasonRequest.mk 21 10 2 ∈ seasonRequestTable (db w').
Proof.
  intros st w'.
  destruct (season_cascade_without_4k plexSeason2 st 0%nat 1%nat
              (Season.mk 1 MediaStatus.AVAILABLE MediaStatus.UNKNOWN)
              (Season.mk 2 MediaStatus.AVAILABLE MediaStatus.UNKNOWN))
    as (Hobjs & _ & Hstored & _ & Hkept);
    try (vm_compute; reflexivity).
  - left. reflexivity.
  - discriminate.
  - vm_compute. apply NoDup_cons. split; [|apply NoDup_singleton].
    intros H%list_elem_of_singleton. discriminate H.
  - split; [exact Hobjs|]. split; [exact Hstored|].
    apply Hkept; [|discriminate].
    vm_compute. apply list_elem_of_further, list_elem_of_here.
Defined.

(** X26.  After an item has been processed as the store handed it out, the
    store holds its season rows as the season objects are in memory, and for
    each tier the status of the entity, or PARTIALLY_AVAILABLE where the
    entity says AVAILABLE. *)
Theorem store_follows_memory (env : Services) (st : State) :
  loaded st →
  let w' := world (exec (runMedia env) st) in
  ∃ row,
    mediaTable (db w') !! Media.id (media w') = Some row
    ∧ seasonRows row = seasonObjs w'
    ∧ ∀ tier4k,
        statusKept (statusOf tier4k (media w')) (statusOf tier4k (columns row)).
Proof. apply runMedia_inSync. Qed.

Lemma store_follows_memory_of_show :
  loaded showLostSeason1
  ∧ ∃ row,
      mediaTable (db (world (exec (runMedia plexSeason2) showLostSeason1)))
        !! 1 = Some row
      ∧ seasonRows row
        = seasonObjs (world (exec (runMedia plexSeason2) showLostSeason1)).
Proof.
  split; [reflexivity|].
  destruct (store_follows_memory plexSeason2 showLostSeason1 eq_refl)
    as (row & Hrow & Hrows & _).
  exists row. split; [exact Hrow|exact Hrows].
Defined.

(** X27.  [loadAvailableMediaPaginated] with a positive page size, consumed by
    a loop body that leaves the result of the query as it is: the generator
    finishes, after at most [length result / pageSize + 2] pages, and the body
    has run once on every item of the query's result, in order, exactly as a
    plain loop over the unpaginated result would. *)
Theorem stable_result_is_walked_once {S : Type} (database : S → Database)
    (body : Media.t * list Season.t → St S unit) (Inv : S → Prop)
    (pageSize fuel : nat) (s : S) :
  let result := findAll whereOptions (database s) in
  (0 < pageSize)%nat →
  (∀ media s',
     Inv s' → media ∈ findAll whereOptions (database s') →
     Inv (exec (body media) s')
     ∧ findAll whereOptions (database (exec (body media) s'))
       = findAll whereOptions (database s')) →
  Inv s →
  (length result / pageSize + 2 ≤ fuel)%nat →
  loadAvailableMediaPaginated database body fuel pageSize 0 s
  = (true, exec (forOf result (λ media _, body media) ()) s).
Proof.
  intros result Hpos Hbody Hinv Hfuel.
  destruct (fuel_bound _ _ _ Hpos Hfuel) as [Hsome Hbound].
  rewrite (pagination_stable database body
             (λ s', Inv s' ∧ findAll whereOptions (database s') = result)
             result pageSize Hpos); [done| |done|done|done|done].
  intros media s' [Hinv' Hres'] _ Hin.
  destruct (Hbody media s' Hinv') as [? ?]; [by rewrite Hres'|].
  split; [split|]; congruence.
Qed.

Lemma existing_movie_is_walked_once :
  let d := db (world goneMovie) in
  let s := (emptyCaches, d) in
  loadAvailableMediaPaginated snd (runItem plexNon4k) 2 50 0 s
  = (true,
     exec (forOf (findAll whereOptions d)
             (λ media _, runItem plexNon4k media) ()) s)
  ∧ (loadAvailableMediaPaginated snd (runItem plexNon4k) 2 50 0 s).2.2 = d.
Proof.
  split; [|vm_compute; reflexivity].
  apply (stable_result_is_walked_once snd (runItem plexNon4k)
           (λ s : RunState, s.2 = db (world goneMovie))).
  - lia.
  - intros entity [c d] Hd Hin. simpl in Hd. subst d.
    assert (findAll whereOptions (db (world goneMovie))
            = [load {| columns := media (world goneMovie);
                       seasonRows := [] |}]) as Hall
      by (vm_compute; reflexivity).
    assert (entity ∈ [load {| columns := media (world goneMovie);
                              seasonRows := [] |}]) as Hin'
      by (rewrite <- Hall; exact Hin).
    apply list_elem_of_singleton in Hin' as ->. clear Hin.
    assert ((exec (runItem plexNon4k
                     (load {| columns := media (world goneMovie);
                              seasonRows := [] |}))
               (c, db (world goneMovie))).2 = db (world goneMovie)) as Hsame.
    { change (db (world (exec (runMedia plexNon4k)
                {| caches := c; world := world goneMovie |}))
              = db (world goneMovie)).
      rewrite runMedia_untouched; [done| |].
      - intros [] Hav; [discriminate Hav|].
        rewrite itemExists_movie by reflexivity. vm_compute. reflexivity.
      - intros tier4k ref season Hin. by apply elem_of_nil in Hin. }
    split; [exact Hsame|]. exact (f_equal (findAll whereOptions) Hsame).
  - reflexivity.
  - vm_compute. lia.
Defined.

(** X28.  [loadAvailableMediaPaginated] runs the query again for every page,
    at an offset that grows by the page size.  Take any loop body such that
    the processing of a page takes ids out of the result of the query at
    most; nothing is assumed about which ids have left the result when the
    next page is fetched.  Then the items yielded in a pass are, by their
    ids, a sublist of the result the query had when the pass began: they come
    in the order of the store, none is yielded that the query did not select
    at the start and, the ids of the result being distinct, none is yielded
    twice.  The state the generator leaves is the one the loop body leaves
    after the yielded items. *)
Theorem yielded_items_follow_the_initial_result {S : Type}
    (database : S → Database) (body : Media.t * list Season.t → St S unit)
    (Inv : S → Prop) (pageSize fuel : nat) (s : S) :
  let each l := forOf l (λ media _, body media) () in
  let ids l :=
    (λ entity : Media.t * list Season.t, Media.id entity.1) <$> l in
  (∀ offset s',
     Inv s' →
     let s'' :=
       exec (each (find whereOptions offset pageSize (database s'))) s' in
     Inv s''
     ∧ resultIds (database s'') `sublist_of` resultIds (database s')) →
  Inv s →
  let items := yielded database body fuel pageSize 0 s in
  (loadAvailableMediaPaginated database body fuel pageSize 0 s).2
  = exec (each items) s
  ∧ ids items `sublist_of` resultIds (database s)
  ∧ (NoDup (resultIds (database s)) → NoDup (ids items)).
Proof.
  intros each ids Hpage Hinv items.
  assert (ids items `sublist_of` resultIds (database s)) as Hsub.
  { rewrite <- (drop_0 (resultIds (database s))).
    by apply (yielded_sublist database body Inv pageSize Hpage). }
  split; [apply yielded_exec|]. split; [done|].
  intros Hnd. by apply (sublist_NoDup _ _ Hnd).
Qed.

Lemma shelf_is_walked_in_order :
  let s : RunState := (emptyCaches, shelf) in
  let items := yielded snd (runItem plexShelf) 4 2 0 s in
  let ids l :=
    (λ entity : Media.t * list Season.t, Media.id entity.1) <$> l in
  resultIds shelf = [1; 2; 3; 4; 5]
  ∧ ids items = [1; 2; 3; 4; 5]
  ∧ (loadAvailableMediaPaginated snd (runItem plexShelf) 4 2 0 s).2
    = exec (forOf items (λ media _, runItem plexShelf media) ()) s
  ∧ ids items `sublist_of` resultIds shelf
  ∧ NoDup (ids items).
Proof.
  intros s items ids.
  destruct (yielded_items_follow_the_initial_result snd (runItem plexShelf)
              (λ s : RunState, wellKeyed s.2) 2 4 s)
    as (Hexec & Hsub & Hnd).
  - intros offset s' Hkeys. by apply runItem_page.
  - apply shelf_wellKeyed.
  - split; [vm_compute; reflexivity|]. split; [vm_compute; reflexivity|].
    split; [exact Hexec|]. split; [exact Hsub|].
    apply Hnd, NoDup_resultIds, shelf_wellKeyed.
Defined.

(** X29.  [run] terminates: for every store whose rows sit at their ids and
    whatever the services answer, the loop ends after at most [n / 50 + 2]
    pages, [n] being the number of items the query selects at the start, and
    more fuel than that does not change the store it leaves. *)
Theorem run_terminates (env : Services) (d : Database) :
  wellKeyed d →
  ∃ d', ∀ fuel,
    (length (findAll whereOptions d) / 50 + 2 ≤ fuel)%nat →
    run env fuel d = Some d'.
Proof.
  intros Hkeys.
  set (bound := (length (findAll whereOptions d) / 50 + 2)%nat).
  destruct (run_result env bound d) as [Hdone Hrun]; [done..|].
  eexists. intros fuel Hfuel.
  destruct (run_result env fuel d) as [_ ->]; [done..|].
  rewrite <- Hrun. unfold run.
  replace fuel with (bound + (fuel - bound))%nat by lia.
  by rewrite pass_fuel.
Qed.

Lemma run_over_three_movies_terminates :
  wellKeyed (threeMovies)
  ∧ ∃ d', ∀ fuel,
      (length (findAll whereOptions (threeMovies)) / 50 + 2 ≤ fuel)%nat →
      run emptyPlex fuel (threeMovies) = Some d'.
Proof.
  split; [apply movies_wellKeyed|].
  apply run_terminates, movies_wellKeyed.
Defined.

(** X30.  [run] creates and deletes no row of the media table, and leaves the
    row of every item that is neither AVAILABLE nor PARTIALLY_AVAILABLE in
    either tier at the start exactly as it is. *)
Theorem run_leaves_other_items (env : Services) (d : Database) (fuel : nat) :
  wellKeyed d →
  (length (findAll whereOptions d) / 50 + 2 ≤ fuel)%nat →
  ∃ d',
    run env fuel d = Some d'
    ∧ dom (mediaTable d') = dom (mediaTable d)
    ∧ ∀ id row,
        mediaTable d !! id = Some row →
        whereOptions (columns row) = false →
        mediaTable d' !! id = Some row.
Proof.
  intros Hkeys Hfuel.
  destruct (run_result env fuel d) as [_ ->]; [done..|].
  eexists. split; [done|].
  pose (P := λ d' : Database,
          dom (mediaTable d') = dom (mediaTable d)
          ∧ ∀ id row,
              mediaTable d !! id = Some row →
              whereOptions (columns row) = false →
              mediaTable d' !! id = Some row).
  apply (pass_invariant env P); [|done|done].
  intros entity c d1 Hkeys1 Hfresh Hwhere [Hdom Hrows].
  destruct (runItem_rows env entity c d1 Hfresh)
    as (Hother & row' & Hrow' & _).
  destruct Hfresh as (row1 & Hrow1 & Hload).
  split.
  - rewrite <- Hdom. apply set_eq. intros id. rewrite !elem_of_dom.
    destruct (decide (id = Media.id entity.1)) as [->|Hne].
    + by rewrite Hrow', Hrow1.
    + by rewrite Hother.
  - intros id row Hrow Hnot.
    rewrite Hother; [by apply Hrows|]. intros ->.
    rewrite (Hrows _ row Hrow Hnot) in Hrow1. injection Hrow1 as <-.
    by rewrite <- Hload, load_where, Hnot in Hwhere.
Qed.

Lemma pending_movie_is_left_alone :
  wellKeyed mixedCatalog
  ∧ (length (findAll whereOptions mixedCatalog) / 50 + 2 ≤ 2)%nat
  ∧ ∃ d',
      run emptyPlex 2 mixedCatalog = Some d'
      ∧ dom (mediaTable d') = dom (mediaTable mixedCatalog)
      ∧ ∀ id row,
          mediaTable mixedCatalog !! id = Some row →
          whereOptions (columns row) = false →
          mediaTable d' !! id = Some row.
Proof.
  assert (length (findAll whereOptions mixedCatalog) / 50 + 2 ≤ 2)%nat
    as Hfuel by (vm_compute; lia).
  split; [apply mixedCatalog_wellKeyed|]. split; [exact Hfuel|].
  exact (run_leaves_other_items emptyPlex mixedCatalog 2
           mixedCatalog_wellKeyed Hfuel).
Defined.
